(** * MNIST-Fashion: patchify, positional embeddings, self-attention, ViT head,
      the Trainer's reshape step and PCA

    A shallow embedding of [src/methods/deep_network.py] and
    [src/methods/pca.py].  Tensors are nested lists; tensor entries that the
    source stores as floating-point numbers are idealised as real numbers
    ([R]); a Python exception is a [Raise] result.  Sizes, counts and
    indices are natural numbers. *)

From Stdlib Require Import Reals Lra Lia List Arith PeanoNat.
From stdpp Require Import base list.

(** ** Python results *)

Inductive exn : Set :=
| AssertionError
| ZeroDivisionError
| RuntimeError
| IndexError
| TypeError
| ValueError
| LinAlgError.

Inductive result (A : Type) : Type :=
| Ok (a : A)
| Raise (e : exn).
Arguments Ok {A} a.
Arguments Raise {A} e.

#[global] Instance result_ret : MRet result := fun A a => Ok a.

#[global] Instance result_bind : MBind result := fun A B k m =>
  match m with
  | Ok a => k a
  | Raise e => Raise e
  end.

Definition py_assert (b : bool) : result unit :=
  if b then Ok tt else Raise AssertionError.

(** [a // b] and [a % b] on non-negative integers. *)
Definition floordiv (a b : nat) : result nat :=
  if Nat.eqb b 0 then Raise ZeroDivisionError else Ok (a / b)%nat.

Definition py_mod (a b : nat) : result nat :=
  if Nat.eqb b 0 then Raise ZeroDivisionError else Ok (a mod b)%nat.

(** [range(n)] and [enumerate(xs)]. *)
Definition range (n : nat) : list nat := seq 0 n.

Definition enumerate {X : Type} (xs : list X) : list (nat * X) :=
  combine (seq 0 (length xs)) xs.

(** A [for] loop whose body updates the loop state and may raise. *)
Fixpoint for_each {S X : Type} (xs : list X) (body : X -> S -> result S)
    (s : S) : result S :=
  match xs with
  | [] => Ok s
  | x :: rest => s' ← body x s; for_each rest body s'
  end.

(** [l[lo:hi]] for [0 <= lo], [0 <= hi]: out-of-range bounds are clamped. *)
Definition slice {X : Type} (lo hi : nat) (l : list X) : list X :=
  take (hi - lo) (drop lo l).

(** ** patchify *)

Section Patchify.
Context {A : Type}.
Variable zero : A.

(** A 4-dimensional tensor: its [shape] and its entries, batch-major. *)
Record Tensor4 : Type := mkTensor4 {
  shape : nat * nat * nat * nat;
  elems : list (list (list (list A)))
}.

Definition wf_image (c h w : nat) (image : list (list (list A))) : Prop :=
  length image = c /\
  Forall (fun ch => length ch = h /\ Forall (fun row => length row = w) ch) image.

Definition wf_tensor4 (t : Tensor4) : Prop :=
  let '(n, c, h, w) := shape t in
  length (elems t) = n /\ Forall (wf_image c h w) (elems t).

(** [torch.zeros(n, m, k)] *)
Definition zeros3 (n m k : nat) : list (list (list A)) :=
  replicate n (replicate m (replicate k zero)).

(** [image[:, r0:r1, c0:c1]] *)
Definition slice_block (image : list (list (list A))) (r0 r1 c0 c1 : nat)
  : list (list (list A)) :=
  (fun ch => slice c0 c1 <$> slice r0 r1 ch) <$> image.

(** [patch.flatten()] of a 3-dimensional tensor. *)
Definition flatten (patch : list (list (list A))) : list A :=
  concat (concat patch).

(** [patches[idx, p] = v] for a 1-dimensional [v]: the row is overwritten
    when the sizes agree, a one-element [v] is broadcast over the row, and
    any other size is a RuntimeError. *)
Definition setitem_row (patches : list (list (list A))) (idx p : nat)
    (v : list A) : result (list (list (list A))) :=
  match patches !! idx with
  | None => Raise IndexError
  | Some seqs =>
    match seqs !! p with
    | None => Raise IndexError
    | Some row =>
      if Nat.eqb (length v) (length row)
      then Ok (<[idx := <[p := v]> seqs]> patches)
      else match v with
           | [x] => Ok (<[idx := <[p := replicate (length row) x]> seqs]> patches)
           | _ => Raise RuntimeError
           end
    end
  end.

Definition patchify (images : Tensor4) (n_patches : nat)
  : result (list (list (list A))) :=
  let '(n, c, h, w) := shape images in
  _ ← py_assert (Nat.eqb h w);
  row_len ← floordiv (h * w * c) (n_patches ^ 2);
  let patches := zeros3 n (n_patches ^ 2) row_len in
  patch_size ← floordiv h n_patches;
  for_each (enumerate (elems images)) (fun '(idx, image) patches =>
    for_each (range n_patches) (fun i patches =>
      for_each (range n_patches) (fun j patches =>
        let patch := slice_block image
                       (i * patch_size) ((i + 1) * patch_size)
                       (j * patch_size) ((j + 1) * patch_size) in
        setitem_row patches idx (i * n_patches + j) (flatten patch))
      patches)
    patches)
  patches.

(** Putting the patches back into their grid cells: entry [(ch, y, x)] of
    image [idx] is read from the row at patch index
    [(y / s) * n_patches + x / s], at the channel-major offset
    [(ch * s + y mod s) * s + x mod s] of that row. *)
Definition unpatchify (n c h w n_patches : nat)
    (patches : list (list (list A))) : list (list (list (list A))) :=
  let s := (h / n_patches)%nat in
  (fun idx =>
     (fun ch =>
        (fun y =>
           (fun x =>
              default zero
                (seqs ← patches !! idx;
                 row ← seqs !! ((y / s) * n_patches + x / s)%nat;
                 row !! ((ch * s + y mod s) * s + x mod s)%nat))
           <$> range w)
        <$> range h)
     <$> range c)
  <$> range n.
End Patchify.

Arguments mkTensor4 {A} _ _.
Arguments shape {A} _.
Arguments elems {A} _.

(** ** Loop invariant of patchify *)

(** The row that the loop body stores at patch index [p] of an image. *)
Definition patch_at {A : Type} (s n_patches : nat) (image : list (list (list A)))
    (p : nat) : list A :=
  flatten (slice_block image
             (p / n_patches * s) ((p / n_patches + 1) * s)
             (p mod n_patches * s) ((p mod n_patches + 1) * s)).

(** The cells [(a, b)] already stored when the loops stand at image [idx],
    grid row [i] and grid column [j]. *)
Definition written (n_patches idx i j : nat) (a b : nat) : Prop :=
  (a < idx)%nat \/ (a = idx /\ (b < i * n_patches + j)%nat).

Definition patches_inv {A : Type} (images : list (list (list (list A))))
    (n c s n_patches : nat) (W : nat -> nat -> Prop)
    (patches : list (list (list A))) : Prop :=
  length patches = n /\
  forall idx seqs, patches !! idx = Some seqs ->
    length seqs = (n_patches ^ 2)%nat /\
    forall p row, seqs !! p = Some row ->
      length row = (c * s * s)%nat /\
      (W idx p -> exists image,
          images !! idx = Some image /\ row = patch_at s n_patches image p).

(** ** get_positional_embeddings *)

(** [x / y] on Python floats. *)
Definition py_truediv (x y : R) : result R :=
  if Req_EM_T y 0 then Raise ZeroDivisionError else Ok (x / y)%R.

(** [torch.ones(n, m)] *)
Definition ones2 (n m : nat) : list (list R) := replicate n (replicate m 1%R).

(** [t[i, j] = v] *)
Definition setitem2 {X : Type} (t : list (list X)) (i j : nat) (v : X)
  : result (list (list X)) :=
  match t !! i with
  | None => Raise IndexError
  | Some row =>
    if decide (j < length row)%nat
    then Ok (<[i := <[j := v]> row]> t)
    else Raise IndexError
  end.

(** The first definition of the routine (lines 386-395), shadowed by the
    second one below. *)
Definition get_positional_embeddings_1 (sequence_length d : nat)
  : result (list (list R)) :=
  let result := ones2 sequence_length d in
  for_each (range sequence_length) (fun i result =>
    for_each (range d) (fun j result =>
      if Nat.eqb (j mod 2) 0 then
        e ← py_truediv (INR j) (INR d);
        x ← py_truediv (INR i) (Rpower 10000 e);
        setitem2 result i j (sin x)
      else
        e ← py_truediv (INR (j - 1)) (INR d);
        x ← py_truediv (INR i) (Rpower 10000 e);
        setitem2 result i j (cos x))
    result)
  result.

(** The second definition (lines 397-406), the one a caller gets. *)
Definition get_positional_embeddings (sequence_length d : nat)
  : result (list (list R)) :=
  let result := ones2 sequence_length d in
  for_each (range sequence_length) (fun i result =>
    for_each (range d) (fun j result =>
      if Nat.eqb (j mod 2) 0 then
        e ← py_truediv (INR j) (INR d);
        x ← py_truediv (INR i) (Rpower 10000 e);
        setitem2 result i j (sin x)
      else
        e ← py_truediv (INR (j - 1)) (INR d);
        x ← py_truediv (INR i) (Rpower 10000 e);
        setitem2 result i j (cos x))
    result)
  result.

(** Entry [(i, j)] of the table for embedding dimension [d]. *)
Definition pe_entry (d i j : nat) : R :=
  if Nat.even j
  then sin (INR i / Rpower 10000 (INR j / INR d))
  else cos (INR i / Rpower 10000 (INR (j - 1) / INR d)).

(** The cells already assigned when the loops stand at row [i], column [j]. *)
Definition assigned (i j : nat) (a b : nat) : Prop :=
  (a < i)%nat \/ (a = i /\ (b < j)%nat).

Definition table_inv (sequence_length d : nat) (W : nat -> nat -> Prop)
    (t : list (list R)) : Prop :=
  length t = sequence_length /\
  forall i row, t !! i = Some row ->
    length row = d /\
    forall j v, row !! j = Some v -> W i j -> v = pe_entry d i j.

(** ** Tensor operations of the network

    A sequence is a list of token vectors, a batch a list of sequences.  An
    operation that torch refuses for a shape mismatch raises RuntimeError;
    sizes that torch would broadcast do not occur in the network and are not
    modelled. *)

Fixpoint mapM {A B : Type} (f : A -> result B) (l : list A) : result (list B) :=
  match l with
  | [] => Ok []
  | x :: rest => y ← f x; ys ← mapM f rest; Ok (y :: ys)
  end.

Definition mapM2 {A B C : Type} (f : A -> B -> result C) (l : list A) (k : list B)
  : result (list C) :=
  if Nat.eqb (length l) (length k)
  then mapM (fun '(a, b) => f a b) (zip l k)
  else Raise RuntimeError.

Definition sum (l : list R) : R := foldr Rplus 0%R l.

Definition dot (u v : list R) : R := sum (zip_with Rmult u v).

(** [a + b] on tensors of one, two and three dimensions. *)
Definition add1 (a b : list R) : result (list R) :=
  if Nat.eqb (length a) (length b) then Ok (zip_with Rplus a b) else Raise RuntimeError.

Definition add2 : list (list R) -> list (list R) -> result (list (list R)) :=
  mapM2 add1.

Definition add3
  : list (list (list R)) -> list (list (list R)) -> result (list (list (list R))) :=
  mapM2 add2.

(** [m.T] of a matrix with at least one row. *)
Definition transpose (m : list (list R)) : list (list R) :=
  match m with
  | [] => []
  | r :: _ => (fun j => (fun row => default 0%R (row !! j)) <$> m) <$> range (length r)
  end.

(** [a @ b] *)
Definition matmul (a b : list (list R)) : result (list (list R)) :=
  mapM (fun row =>
          if Nat.eqb (length row) (length b)
          then Ok ((fun col => dot row col) <$> transpose b)
          else Raise RuntimeError) a.

(** [a @ b.T]: entry (i, j) is the product of row i of [a] and row j of [b]. *)
Definition matmul_T (a b : list (list R)) : result (list (list R)) :=
  mapM (fun row =>
          mapM (fun row' =>
                  if Nat.eqb (length row) (length row')
                  then Ok (dot row row')
                  else Raise RuntimeError) b) a.

(** [m / x] for a scalar [x] *)
Definition div_scalar (m : list (list R)) (x : R) : list (list R) :=
  (fun row : list R => (fun a => a / x)%R <$> row) <$> m.

(** [nn.Softmax(dim=-1)] on one vector and on a matrix. *)
Definition softmax (v : list R) : list R :=
  let total := sum (exp <$> v) in (fun a : R => exp a / total)%R <$> v.

Definition Softmax (m : list (list R)) : list (list R) := softmax <$> m.

(** [torch.hstack] of a list of matrices. *)
Definition hstack (ms : list (list (list R))) : result (list (list R)) :=
  match ms with
  | [] => Raise RuntimeError
  | m :: rest =>
    if forallb (fun m' => Nat.eqb (length m') (length m)) rest
    then Ok ((fun i => concat ((fun m' => default [] (m' !! i)) <$> ms))
               <$> range (length m))
    else Raise RuntimeError
  end.

(** [torch.cat([torch.unsqueeze(r, dim=0) for r in result])]: the results
    stacked along a new first axis; an empty list is refused. *)
Definition cat_unsqueezed (results : list (list (list R)))
  : result (list (list (list R))) :=
  match results with
  | [] => Raise RuntimeError
  | _ => Ok (concat ((fun r => [r]) <$> results))
  end.

(** [torch.cat((a, b), dim=0)] of two matrices: the row widths must agree. *)
Definition cat_rows (a b : list (list R)) : result (list (list R)) :=
  match a ++ b with
  | [] => Ok []
  | r :: rest =>
    if forallb (fun r' => Nat.eqb (length r') (length r)) rest
    then Ok (a ++ b)
    else Raise RuntimeError
  end.

(** [seq[i]] *)
Definition getitem {X : Type} (l : list X) (i : nat) : result X :=
  match l !! i with
  | Some x => Ok x
  | None => Raise IndexError
  end.

(** ** nn.Linear and nn.LayerNorm *)

Record Linear : Type := mkLinear {
  in_features : nat;
  out_features : nat;
  weight : list (list R);      (* out_features × in_features *)
  bias : list R                (* out_features *)
}.

Definition wf_Linear (n_in n_out : nat) (l : Linear) : Prop :=
  in_features l = n_in /\ out_features l = n_out /\
  length (weight l) = n_out /\
  Forall (fun w => length w = n_in) (weight l) /\
  length (bias l) = n_out.

(** [y = x Wᵀ + b] on one vector, on a sequence and on a batch. *)
Definition Linear_forward1 (l : Linear) (x : list R) : result (list R) :=
  if Nat.eqb (length x) (in_features l)
  then Ok (zip_with (fun w b => dot x w + b)%R (weight l) (bias l))
  else Raise RuntimeError.

Definition Linear_forward2 (l : Linear) : list (list R) -> result (list (list R)) :=
  mapM (Linear_forward1 l).

Definition Linear_forward3 (l : Linear)
  : list (list (list R)) -> result (list (list (list R))) :=
  mapM (Linear_forward2 l).

Record LayerNorm : Type := mkLayerNorm {
  normalized_shape : nat;
  ln_weight : list R;
  ln_bias : list R;
  ln_eps : R
}.

Definition wf_LayerNorm (d : nat) (l : LayerNorm) : Prop :=
  normalized_shape l = d /\ length (ln_weight l) = d /\ length (ln_bias l) = d.

Definition LayerNorm_forward1 (l : LayerNorm) (x : list R) : result (list R) :=
  if Nat.eqb (length x) (normalized_shape l)
  then
    let mean := (sum x / INR (length x))%R in
    let var := (sum ((fun a => (a - mean) * (a - mean))%R <$> x) / INR (length x))%R in
    Ok (zip_with Rplus
          (zip_with (fun a g => (a - mean) / sqrt (var + ln_eps l) * g)%R x (ln_weight l))
          (ln_bias l))
  else Raise RuntimeError.

Definition LayerNorm_forward3 (l : LayerNorm)
  : list (list (list R)) -> result (list (list (list R))) :=
  mapM (mapM (LayerNorm_forward1 l)).

(** ** MyMSA *)

Record MyMSA : Type := mkMyMSA {
  msa_d : nat;
  msa_n_heads : nat;
  msa_d_head : nat;
  q_mappings : list Linear;
  k_mappings : list Linear;
  v_mappings : list Linear
}.

(** What [MyMSA.__init__] establishes for dimension [d] and [n_heads] heads:
    the assertion [d % n_heads == 0] and one [Linear(d_head, d_head)] per head
    for each of the three mappings. *)
Definition wf_MyMSA (d n_heads : nat) (self : MyMSA) : Prop :=
  msa_d self = d /\ msa_n_heads self = n_heads /\
  py_mod d n_heads = Ok 0%nat /\
  msa_d_head self = (d / n_heads)%nat /\
  length (q_mappings self) = n_heads /\
  length (k_mappings self) = n_heads /\
  length (v_mappings self) = n_heads /\
  Forall (wf_Linear (d / n_heads) (d / n_heads)) (q_mappings self) /\
  Forall (wf_Linear (d / n_heads) (d / n_heads)) (k_mappings self) /\
  Forall (wf_Linear (d / n_heads) (d / n_heads)) (v_mappings self).

(** [sequence[:, lo:hi]] *)
Definition slice_cols (sequence : list (list R)) (lo hi : nat) : list (list R) :=
  slice lo hi <$> sequence.

(** [MyMSA.forward] (lines 424-443). *)
Definition MyMSA_forward (self : MyMSA) (sequences : list (list (list R)))
  : result (list (list (list R))) :=
  results ← mapM (fun sequence =>
    seq_result ← mapM (fun head =>
      q_mapping ← getitem (q_mappings self) head;
      k_mapping ← getitem (k_mappings self) head;
      v_mapping ← getitem (v_mappings self) head;
      let seq := slice_cols sequence (head * msa_d_head self)
                   ((head + 1) * msa_d_head self) in
      q ← Linear_forward2 q_mapping seq;
      k ← Linear_forward2 k_mapping seq;
      v ← Linear_forward2 v_mapping seq;
      qk ← matmul_T q k;
      let attention := div_scalar qk (sqrt (INR (msa_d_head self))) in
      matmul attention v) (range (msa_n_heads self));
    hstack seq_result) sequences;
  cat_unsqueezed results.

(** The attention of the specification: as [MyMSA_forward], with the scaled
    scores passed through the row-wise softmax before they multiply [v]. *)
Definition MyMSA_forward_spec (self : MyMSA) (sequences : list (list (list R)))
  : result (list (list (list R))) :=
  results ← mapM (fun sequence =>
    seq_result ← mapM (fun head =>
      q_mapping ← getitem (q_mappings self) head;
      k_mapping ← getitem (k_mappings self) head;
      v_mapping ← getitem (v_mappings self) head;
      let seq := slice_cols sequence (head * msa_d_head self)
                   ((head + 1) * msa_d_head self) in
      q ← Linear_forward2 q_mapping seq;
      k ← Linear_forward2 k_mapping seq;
      v ← Linear_forward2 v_mapping seq;
      qk ← matmul_T q k;
      let attention := Softmax (div_scalar qk (sqrt (INR (msa_d_head self)))) in
      matmul attention v) (range (msa_n_heads self));
    hstack seq_result) sequences;
  cat_unsqueezed results.

(** ** MyViTBlock and MyViT *)

Section Network.
(** [nn.GELU], applied entry by entry. *)
Variable gelu : R -> R.

Record MyViTBlock : Type := mkMyViTBlock {
  blk_hidden_d : nat;
  blk_n_heads : nat;
  norm1 : LayerNorm;
  mhsa : MyMSA;
  norm2 : LayerNorm;
  blk_mlp_fc1 : Linear;      (* Linear(hidden_d, mlp_ratio * hidden_d) *)
  blk_mlp_fc2 : Linear       (* Linear(mlp_ratio * hidden_d, hidden_d) *)
}.

Definition wf_MyViTBlock (hidden_d n_heads : nat) (b : MyViTBlock) : Prop :=
  blk_hidden_d b = hidden_d /\ blk_n_heads b = n_heads /\
  wf_LayerNorm hidden_d (norm1 b) /\
  wf_MyMSA hidden_d n_heads (mhsa b) /\
  wf_LayerNorm hidden_d (norm2 b) /\
  wf_Linear hidden_d (4 * hidden_d) (blk_mlp_fc1 b) /\
  wf_Linear (4 * hidden_d) hidden_d (blk_mlp_fc2 b).

(** [self.mlp] of a block: Linear, GELU, Linear. *)
Definition MyViTBlock_mlp (b : MyViTBlock) (x : list (list (list R)))
  : result (list (list (list R))) :=
  h ← Linear_forward3 (blk_mlp_fc1 b) x;
  let h := (fun sequence : list (list R) =>
              (fun token : list R => gelu <$> token) <$> sequence) <$> h in
  Linear_forward3 (blk_mlp_fc2 b) h.

Definition MyViTBlock_forward (b : MyViTBlock) (x : list (list (list R)))
  : result (list (list (list R))) :=
  n1 ← LayerNorm_forward3 (norm1 b) x;
  a ← MyMSA_forward (mhsa b) n1;
  out ← add3 x a;
  n2 ← LayerNorm_forward3 (norm2 b) out;
  m ← MyViTBlock_mlp b n2;
  add3 out m.

Record MyViT : Type := mkMyViT {
  chw : nat * nat * nat;
  n_patches : nat;
  n_blocks : nat;
  n_heads : nat;
  hidden_d : nat;
  input_d : nat;
  linear_mapper : Linear;
  class_token : list (list R);             (* 1 × hidden_d *)
  positional_embeddings : list (list R);   (* (n_patches² + 1) × hidden_d *)
  blocks : list MyViTBlock;
  mlp_linear : Linear                      (* Linear(hidden_d, out_d) *)
}.

(** What [MyViT.__init__] establishes (lines 130-165): the two assertions
    on the image size, and the shapes of the layers it creates.  Training
    changes the entries of the weights, not their shapes. *)
Definition wf_MyViT (out_d : nat) (self : MyViT) : Prop :=
  let '(c, h, w) := chw self in
  py_mod h (n_patches self) = Ok 0%nat /\
  py_mod w (n_patches self) = Ok 0%nat /\
  input_d self = (c * (h / n_patches self) * (w / n_patches self))%nat /\
  wf_Linear (input_d self) (hidden_d self) (linear_mapper self) /\
  length (class_token self) = 1%nat /\
  Forall (fun row => length row = hidden_d self) (class_token self) /\
  get_positional_embeddings (n_patches self ^ 2 + 1) (hidden_d self)
    = Ok (positional_embeddings self) /\
  length (blocks self) = n_blocks self /\
  Forall (wf_MyViTBlock (hidden_d self) (n_heads self)) (blocks self) /\
  wf_Linear (hidden_d self) out_d (mlp_linear self).

(** [self.mlp]: Linear followed by Softmax(dim=-1). *)
Definition MyViT_mlp (self : MyViT) (out : list (list R)) : result (list (list R)) :=
  logits ← Linear_forward2 (mlp_linear self) out;
  Ok (Softmax logits).

(** [MyViT.forward] (lines 167-204). *)
Definition MyViT_forward (self : MyViT) (x : Tensor4) : result (list (list R)) :=
  let '(n, c, h, w) := shape x in
  patches ← patchify 0%R x (n_patches self);
  tokens ← Linear_forward3 (linear_mapper self) patches;
  tokens ← mapM2 cat_rows (replicate n (class_token self)) tokens;
  out ← add3 tokens (replicate n (positional_embeddings self));
  out ← for_each (blocks self) (fun block out => MyViTBlock_forward block out) out;
  out ← mapM (fun sequence => getitem sequence 0) out;
  MyViT_mlp self out.

(** The classification tokens that [MyViT.forward] hands to [self.mlp]:
    its lines 177-197. *)
Definition MyViT_class_tokens (self : MyViT) (x : Tensor4) : result (list (list R)) :=
  let '(n, c, h, w) := shape x in
  patches ← patchify 0%R x (n_patches self);
  tokens ← Linear_forward3 (linear_mapper self) patches;
  tokens ← mapM2 cat_rows (replicate n (class_token self)) tokens;
  out ← add3 tokens (replicate n (positional_embeddings self));
  out ← for_each (blocks self) (fun block out => MyViTBlock_forward block out) out;
  mapM (fun sequence => getitem sequence 0) out.
End Network.

(** ** Trainer: the numpy side of [fit] and [predict] *)

Section Arrays.
Context {X : Type}.

(** A 2-dimensional numpy array. *)
Record Array2 : Type := mkArray2 {
  shape2 : nat * nat;
  rows2 : list (list X)
}.

Definition wf_array2 (a : Array2) : Prop :=
  let '(N, D) := shape2 a in
  length (rows2 a) = N /\ Forall (fun row => length row = D) (rows2 a).

(** [l] cut into [k] consecutive pieces of [m] entries. *)
Definition chunks {Y : Type} (k m : nat) (l : list Y) : list (list Y) :=
  (fun r => slice (r * m) ((r + 1) * m) l) <$> range k.

(** [a.reshape(n, c, h, w)]: the entries are kept in row-major order; a
    different number of entries is a ValueError. *)
Definition reshape4 (a : Array2) (n c h w : nat) : result (@Tensor4 X) :=
  let '(N, D) := shape2 a in
  if Nat.eqb (N * D) (n * c * h * w)
  then Ok (mkTensor4 (n, c, h, w)
             ((fun image : list X => chunks h w <$> chunks c (h * w) image)
                <$> chunks n (c * h * w) (concat (rows2 a))))
  else Raise ValueError.
End Arrays.

Arguments Array2 : clear implicits.
Arguments mkArray2 {X} _ _.

Section Trainer.
Context {X : Type}.
(** The trainer does not look into the convolutional and the feed-forward
    classifier (they are type parameters here, and modelled further below);
    the labels and the torch side of the trainer are not modelled:
    [train_all] stands for lines 326-331 of [fit] (one-hot labels, data
    loader, training), and [predict_torch] for lines 359-365 of [predict]. *)
Variables CNN MLP Labels : Type.

Inductive Module : Type :=
| IsCNN (m : CNN)
| IsMLP (m : MLP)
| IsMyViT (m : MyViT).

Record Trainer : Type := mkTrainer {
  lr : R;
  epochs : nat;
  model : Module;
  batch_size : nat
}.

Inductive Input : Type :=
| Input2 (a : Array2 X)
| Input4 (t : @Tensor4 X).

Variable train_all : Trainer -> Input -> Labels -> result Trainer.
Variable predict_torch : Trainer -> Input -> result Labels.

(** [Trainer.predict] (lines 335-365).  [int(np.sqrt(D))] is the integer
    square root of [D]. *)
Definition predict (self : Trainer) (test_data : Array2 X) : result Labels :=
  let '(N, D) := shape2 test_data in
  let W := Nat.sqrt D in
  let H := W in
  test_data ←
    match model self with
    | IsCNN _ =>
      _ ← py_assert (Nat.eqb (W * H) D);
      t ← reshape4 test_data N 1 W H; Ok (Input4 t)
    | IsMLP _ => Ok (Input2 test_data)
    | IsMyViT _ =>
      _ ← py_assert (Nat.eqb (W * H) D);
      t ← reshape4 test_data N 1 W H; Ok (Input4 t)
    end;
  predict_torch self test_data.

(** [Trainer.fit] (lines 301-333). *)
Definition fit (self : Trainer) (training_data : Array2 X)
    (training_labels : Labels) : result (Trainer * Labels) :=
  let '(N, D) := shape2 training_data in
  let W := Nat.sqrt D in
  let H := W in
  training_data_reshaped ←
    match model self with
    | IsCNN _ =>
      _ ← py_assert (Nat.eqb (W * H) D);
      t ← reshape4 training_data N 1 W H; Ok (Input4 t)
    | IsMLP _ => Ok (Input2 training_data)
    | IsMyViT _ =>
      _ ← py_assert (Nat.eqb (W * H) D);
      t ← reshape4 training_data N 1 W H; Ok (Input4 t)
    end;
  self ← train_all self training_data_reshaped training_labels;
  pred_labels ← predict self training_data;
  Ok (self, pred_labels).

Definition needs_image (m : Module) : Prop :=
  match m with
  | IsMLP _ => False
  | _ => True
  end.
End Trainer.

Arguments IsCNN {CNN MLP} m.
Arguments IsMLP {CNN MLP} m.
Arguments IsMyViT {CNN MLP} m.
Arguments Input2 {X} a.
Arguments Input4 {X} t.

(** ** Shapes and the failing input of the attention *)

Definition has_shape2 (L d : nat) (m : list (list R)) : Prop :=
  length m = L /\ Forall (fun row => length row = d) m.

Definition has_shape3 (n L d : nat) (t : list (list (list R))) : Prop :=
  length t = n /\ Forall (has_shape2 L d) t.

Definition is_distribution (row : list R) : Prop :=
  Forall (fun p => 0 <= p)%R row /\ sum row = 1%R.

(** One head of width 1: the query and key mappings are zero, the value
    mapping is the identity. *)
Definition msa_ex : MyMSA :=
  mkMyMSA 1 1 1
    [mkLinear 1 1 [[0%R]] [0%R]]
    [mkLinear 1 1 [[0%R]] [0%R]]
    [mkLinear 1 1 [[1%R]] [0%R]].

(** One sequence of two tokens, 1 and 3. *)
Definition seq_ex : list (list R) := [[1%R]; [3%R]].

(** ** PCA

    [np.mean] and [np.cov] divide by the number of rows N and by N - 1: for
    N <= 1 numpy fills the arrays with nan, which has no counterpart in [R],
    so the embedding describes the code for N >= 2.  The scalar division
    that yields the explained variance is a numpy float division: it returns
    inf or nan, not an exception, when the divisor is zero. *)

(** A numpy float: a real number, or inf/nan. *)
Inductive npfloat : Type :=
| Finite (r : R)
| NonFinite.

Definition np_div (x y : R) : npfloat :=
  if Req_EM_T y 0 then NonFinite else Finite (x / y)%R.

Definition np_mul (x : npfloat) (y : R) : npfloat :=
  match x with
  | Finite r => Finite (r * y)%R
  | NonFinite => NonFinite
  end.

(** The result of [np.cov]: a 0-dimensional or a 2-dimensional array. *)
Inductive ndarray : Type :=
| Arr0 (x : R)
| Arr2 (m : list (list R)).

(** Column [j] of a matrix, and the transpose of a matrix with [D] columns. *)
Definition column (j : nat) (m : list (list R)) : list R :=
  (fun row : list R => default 0%R (row !! j)) <$> m.

Definition transpose_n (D : nat) (m : list (list R)) : list (list R) :=
  (fun j => column j m) <$> range D.

(** [np.mean(a, axis=0)] *)
Definition np_mean_axis0 (a : Array2 R) : list R :=
  let '(N, D) := shape2 a in
  (fun j => sum (column j (rows2 a)) / INR N)%R <$> range D.

(** [a - v] for an (N,D) array and a vector of length D. *)
Definition sub_rows (a : Array2 R) (v : list R) : Array2 R :=
  mkArray2 (shape2 a) ((fun row : list R => zip_with Rminus row v) <$> rows2 a).

(** [c.squeeze()] of a square matrix: a 1×1 matrix becomes a scalar. *)
Definition squeeze (c : list (list R)) : ndarray :=
  match c with
  | [[x]] => Arr0 x
  | _ => Arr2 c
  end.

(** The pairwise products of the rows of [X], each multiplied by [k]. *)
Definition gram (k : R) (X : list (list R)) : list (list R) :=
  (fun r1 : list R => (fun r2 : list R => dot r1 r2 * k)%R <$> X) <$> X.

(** [np.cov(a, rowvar=False)]: the columns of [a] are the variables, each
    centred on its mean; their pairwise products are divided by N - 1, and
    the result is squeezed. *)
Definition centred_variables (a : Array2 R) : list (list R) :=
  let '(N, D) := shape2 a in
  (fun row : list R =>
     let avg := (sum row / INR N)%R in (fun x => x - avg)%R <$> row)
    <$> transpose_n D (rows2 a).

Definition cov_matrix (a : Array2 R) : list (list R) :=
  let '(N, D) := shape2 a in
  let fact := (INR N - 1)%R in
  gram (1 / fact) (centred_variables a).

Definition np_cov (a : Array2 R) : ndarray := squeeze (cov_matrix a).

(** [sum_a v_a * X_a]: the combination of the rows of [X], of length [n]
    each, with the coefficients [v]. *)
Definition lincomb (n : nat) (v : list R) (X : list (list R)) : list R :=
  foldr (fun cx acc => zip_with Rplus ((fun a => cx.1 * a)%R <$> cx.2) acc)
    (replicate n 0%R) (zip v X).

Record PCA : Type := mkPCA {
  pca_d : nat;
  pca_mean : option (list R);
  pca_W : option (list (list R))
}.

(** [PCA.__init__] *)
Definition PCA_init (d : nat) : PCA := mkPCA d None None.

Section PCA.
(** [np.linalg.eigh] on a 2-dimensional array: the eigenvalues in
    ascending order and the matrix whose columns are the eigenvectors. *)
Variable eigh : list (list R) -> result (list R * list (list R)).

Definition np_linalg_eigh (c : ndarray) : result (list R * list (list R)) :=
  match c with
  | Arr0 _ => Raise LinAlgError
  | Arr2 m => eigh m
  end.

(** [PCA.find_principal_components] (lines 28-60): the updated object and
    the explained variance. *)
Definition find_principal_components (self : PCA) (training_data : Array2 R)
  : result (PCA * npfloat) :=
  let mean := np_mean_axis0 training_data in
  let training_data_centered := sub_rows training_data mean in
  let C := np_cov training_data_centered in
  '(eigvals, eigvecs) ← np_linalg_eigh C;
  let eigvals := reverse eigvals in
  let eigvecs := (fun row : list R => reverse row) <$> eigvecs in
  let W := (fun row : list R => take (pca_d self) row) <$> eigvecs in
  let eg := take (pca_d self) eigvals in
  let exvar := np_mul (np_div (sum eg) (sum eigvals)) 100 in
  Ok (mkPCA (pca_d self) (Some mean) (Some W), exvar).
End PCA.

(** [data - self.mean]: subtracting [None] from an array with at least one
    entry is a TypeError; an array without entries is left as it is.  A mean
    of another length than the rows cannot be broadcast. *)
Definition np_sub_mean (data : Array2 R) (mean : option (list R))
  : result (list (list R)) :=
  match mean with
  | None =>
    let '(N, D) := shape2 data in
    if Nat.eqb (N * D) 0 then Ok (rows2 data) else Raise TypeError
  | Some v =>
    mapM (fun row : list R =>
            if Nat.eqb (length row) (length v)
            then Ok (zip_with Rminus row v)
            else Raise ValueError) (rows2 data)
  end.

(** [a @ W]: [None] is not a matrix, and the inner sizes must agree. *)
Definition np_matmul (a : list (list R)) (W : option (list (list R)))
  : result (list (list R)) :=
  match W with
  | None => Raise ValueError
  | Some w =>
    mapM (fun row : list R =>
            if Nat.eqb (length row) (length w)
            then Ok ((fun col => dot row col) <$> transpose w)
            else Raise ValueError) a
  end.

(** [PCA.reduce_dimension] (lines 62-73). *)
Definition reduce_dimension (self : PCA) (data : Array2 R) : result (list (list R)) :=
  centered ← np_sub_mean data (pca_mean self);
  np_matmul centered (pca_W self).

(** The contract of [np.linalg.eigh] on a symmetric D×D matrix [C]: D
    eigenvalues, and for each of them the matching column of the second
    result is a unit eigenvector. *)
Definition mat_vec (C : list (list R)) (v : list R) : list R :=
  (fun row => dot row v) <$> C.

Definition scale (x : R) (v : list R) : list R := (fun a => x * a)%R <$> v.

Definition is_eigenpair (C : list (list R)) (lambda : R) (v : list R) : Prop :=
  mat_vec C v = scale lambda v /\ dot v v = 1%R.

Definition eigh_spec (D : nat) (C : list (list R)) (vals : list R)
    (vecs : list (list R)) : Prop :=
  length vals = D /\ has_shape2 D D vecs /\
  forall k, (k < D)%nat ->
    exists lambda, vals !! k = Some lambda /\ is_eigenpair C lambda (column k vecs).

(** ** A small classifier: the scenario of a 4×4 single-channel image with
    n_patches = 2, hidden_d = 8, n_heads = 2, n_blocks = 1 and out_d = 3 *)

Definition zero_Linear (n_in n_out : nat) : Linear :=
  mkLinear n_in n_out (replicate n_out (replicate n_in 0%R)) (replicate n_out 0%R).

Definition unit_LayerNorm (d : nat) : LayerNorm :=
  mkLayerNorm d (replicate d 1%R) (replicate d 0%R) (1 / 100000)%R.

Definition block_ex : MyViTBlock :=
  mkMyViTBlock 8 2 (unit_LayerNorm 8)
    (mkMyMSA 8 2 4 (replicate 2 (zero_Linear 4 4)) (replicate 2 (zero_Linear 4 4))
       (replicate 2 (zero_Linear 4 4)))
    (unit_LayerNorm 8) (zero_Linear 8 32) (zero_Linear 32 8).

Definition vit_ex : MyViT :=
  mkMyViT (1, 4, 4)%nat 2 1 2 8 4 (zero_Linear 4 8) [replicate 8 0%R]
    (match get_positional_embeddings 5 8 with Ok t => t | Raise _ => [] end)
    [block_ex] (zero_Linear 8 3).

Definition batch_ex : Tensor4 :=
  mkTensor4 (1, 1, 4, 4)%nat
    [[[[1; 2; 3; 4]; [5; 6; 7; 8]; [9; 10; 11; 12]; [13; 14; 15; 16]]]]%R.

(** The empty batch of 4×4 single-channel images. *)
Definition batch_empty : @Tensor4 R := mkTensor4 (0, 1, 4, 4)%nat [].

(** Two observations of two features: the first feature varies, the second
    is constant.  Its covariance matrix is [[2, 0], [0, 0]], with the
    eigenvalues 0 and 2 and the eigenvectors (0,1) and (1,0). *)
Definition data_two : Array2 R := mkArray2 (2, 2)%nat [[1; 0]; [-1; 0]]%R.

Definition eigh_two (_ : list (list R)) : result (list R * list (list R)) :=
  Ok ([0; 2]%R, [[0; 1]; [1; 0]]%R).

(** Two equal observations: the covariance matrix is zero. *)
Definition data_const : Array2 R := mkArray2 (2, 2)%nat [[1; 1]; [1; 1]]%R.

Definition eigh_const (_ : list (list R)) : result (list R * list (list R)) :=
  Ok ([0; 0]%R, [[1; 0]; [0; 1]]%R).

(** ** Small inputs *)

(** One 4×4 single-channel image. *)
Definition img44 : Tensor4 :=
  mkTensor4 (1, 1, 4, 4)%nat
    [[[[1; 2; 3; 4]; [5; 6; 7; 8]; [9; 10; 11; 12]; [13; 14; 15; 16]]]]%nat.

(** A trainer around a convolutional classifier, the classifiers other than
    MyViT and the torch side being trivial, and one flat image of 4 entries
    and one of 3. *)
Definition trainer_ex : Trainer unit unit := mkTrainer unit unit 0%R 1 (IsCNN tt) 1.

Definition flat4 : Array2 nat := mkArray2 (1, 4)%nat [[1; 2; 3; 4]]%nat.

Definition flat3 : Array2 nat := mkArray2 (1, 3)%nat [[1; 2; 3]]%nat.

Definition predict_torch_ex (_ : Trainer unit unit) (_ : @Input nat) : result unit :=
  Ok tt.

(** One 3×3 image of two channels, and one 3×4 image. *)
Definition img233 : Tensor4 :=
  mkTensor4 (1, 2, 3, 3)%nat
    [[[[1; 2; 3]; [4; 5; 6]; [7; 8; 9]];
      [[10; 11; 12]; [13; 14; 15]; [16; 17; 18]]]]%nat.

Definition img134 : Tensor4 :=
  mkTensor4 (1, 1, 3, 4)%nat [[[[1; 2; 3; 4]; [5; 6; 7; 8]; [9; 10; 11; 12]]]]%nat.

(** ** The parts of [MyMSA.forward]

    The body of the loop over the heads (lines 430-441) and the body of the
    loop over the sequences (lines 427-442), for statements about one head
    or one sequence. *)
Definition MyMSA_head (self : MyMSA) (sequence : list (list R)) (head : nat)
  : result (list (list R)) :=
  q_mapping ← getitem (q_mappings self) head;
  k_mapping ← getitem (k_mappings self) head;
  v_mapping ← getitem (v_mappings self) head;
  let seq := slice_cols sequence (head * msa_d_head self)
               ((head + 1) * msa_d_head self) in
  q ← Linear_forward2 q_mapping seq;
  k ← Linear_forward2 k_mapping seq;
  v ← Linear_forward2 v_mapping seq;
  qk ← matmul_T q k;
  let attention := div_scalar qk (sqrt (INR (msa_d_head self))) in
  matmul attention v.

Definition MyMSA_sequence (self : MyMSA) (sequence : list (list R))
  : result (list (list R)) :=
  seq_result ← mapM (MyMSA_head self sequence) (range (msa_n_heads self));
  hstack seq_result.

(** Two heads of width 1 with zero mappings, and two one-token sequences
    that agree on the column of head 0. *)
Definition msa2_ex : MyMSA :=
  mkMyMSA 2 2 1 (replicate 2 (zero_Linear 1 1)) (replicate 2 (zero_Linear 1 1))
    (replicate 2 (zero_Linear 1 1)).

Definition seq2_a : list (list R) := [[1; 2]]%R.
Definition seq2_b : list (list R) := [[1; 5]]%R.

(** One 6×6 single-channel image, and one 2×2 image of four channels. *)
Definition img166 : @Tensor4 R :=
  mkTensor4 (1, 1, 6, 6)%nat [[replicate 6 (replicate 6 0%R)]].

Definition img422 : @Tensor4 R :=
  mkTensor4 (1, 4, 2, 2)%nat [replicate 4 (replicate 2 (replicate 2 0%R))].

(** ** The constructors

    The constructors draw the initial weights from torch's random generator,
    whose state is threaded through them: [new_Linear n_in n_out] stands for
    [nn.Linear(n_in, n_out)] and [torch_rand n m] for [torch.rand(n, m)].
    [nn.LayerNorm(d)] starts from the weight 1, the bias 0 and eps = 1e-5. *)

Section Constructors.
Variable Rng : Type.
Variable new_Linear : nat -> nat -> Rng -> Linear * Rng.
Variable torch_rand : nat -> nat -> Rng -> list (list R) * Rng.

Definition new_LayerNorm (d : nat) : LayerNorm :=
  mkLayerNorm d (replicate d 1%R) (replicate d 0%R) (1 / 100000)%R.

(** [[make() for _ in range(n)]] for a constructor that draws from the
    generator. *)
Fixpoint new_list {X : Type} (n : nat) (make : Rng -> X * Rng) (g : Rng)
  : list X * Rng :=
  match n with
  | O => ([], g)
  | S n' =>
    let '(x, g) := make g in
    let '(xs, g) := new_list n' make g in
    (x :: xs, g)
  end.

(** The same for a constructor that may raise. *)
Fixpoint new_list_result {X : Type} (n : nat) (make : Rng -> result (X * Rng))
    (g : Rng) : result (list X * Rng) :=
  match n with
  | O => Ok ([], g)
  | S n' =>
    '(x, g) ← make g;
    '(xs, g) ← new_list_result n' make g;
    Ok (x :: xs, g)
  end.

(** [MyMSA.__init__] (lines 409-422). *)
Definition MyMSA_init (d n_heads : nat) (g : Rng) : result (MyMSA * Rng) :=
  m ← py_mod d n_heads;
  _ ← py_assert (Nat.eqb m 0);
  let d_head := (d / n_heads)%nat in
  let '(qs, g) := new_list n_heads (new_Linear d_head d_head) g in
  let '(ks, g) := new_list n_heads (new_Linear d_head d_head) g in
  let '(vs, g) := new_list n_heads (new_Linear d_head d_head) g in
  Ok (mkMyMSA d n_heads d_head qs ks vs, g).

(** [MyViTBlock.__init__] (lines 446-458), with [mlp_ratio = 4]. *)
Definition MyViTBlock_init (hidden_d n_heads : nat) (g : Rng)
  : result (MyViTBlock * Rng) :=
  let norm1 := new_LayerNorm hidden_d in
  '(mhsa, g) ← MyMSA_init hidden_d n_heads g;
  let norm2 := new_LayerNorm hidden_d in
  let '(fc1, g) := new_Linear hidden_d (4 * hidden_d) g in
  let '(fc2, g) := new_Linear (4 * hidden_d) hidden_d g in
  Ok (mkMyViTBlock hidden_d n_heads norm1 mhsa norm2 fc1 fc2, g).

(** [MyViT.__init__] (lines 130-165).  Under the two assertions the product
    [chw[0] * (chw[1] / n_patches) * (chw[2] / n_patches)] of floats is the
    integer [c * (h // n_patches) * (w // n_patches)]. *)
Definition MyViT_init (chw : nat * nat * nat)
    (n_patches n_blocks hidden_d n_heads out_d : nat) (g : Rng)
  : result (MyViT * Rng) :=
  let '(c, h, w) := chw in
  m ← py_mod h n_patches;
  _ ← py_assert (Nat.eqb m 0);
  m ← py_mod w n_patches;
  _ ← py_assert (Nat.eqb m 0);
  let input_d := (c * (h / n_patches) * (w / n_patches))%nat in
  let '(linear_mapper, g) := new_Linear input_d hidden_d g in
  let '(class_token, g) := torch_rand 1 hidden_d g in
  positional_embeddings ← get_positional_embeddings (n_patches ^ 2 + 1) hidden_d;
  '(blocks, g) ← new_list_result n_blocks (MyViTBlock_init hidden_d n_heads) g;
  let '(mlp, g) := new_Linear hidden_d out_d g in
  Ok (mkMyViT chw n_patches n_blocks n_heads hidden_d input_d linear_mapper
        class_token positional_embeddings blocks mlp, g).
End Constructors.

(** A generator without state that draws zeros. *)
Definition zero_new_Linear (n_in n_out : nat) (g : unit) : Linear * unit :=
  (zero_Linear n_in n_out, g).

Definition zero_rand (n m : nat) (g : unit) : list (list R) * unit :=
  (replicate n (replicate m 0%R), g).

(** [a + v] for an (N,D) array and a vector of length D. *)
Definition add_rows (a : Array2 R) (v : list R) : Array2 R :=
  mkArray2 (shape2 a) ((fun row : list R => zip_with Rplus row v) <$> rows2 a).

(** ** MLP and CNN

    Both classifiers are one [nn.Sequential] stack.  A tensor travels
    through it with its shape, so that a batch without samples still has a
    width. *)

Inductive Tensor : Type :=
| Batch2 (a : Array2 R)
| Batch4 (t : @Tensor4 R).

Record Conv2d : Type := mkConv2d {
  in_channels : nat;
  out_channels : nat;
  kernel_size : nat;
  padding : nat;
  conv_weight : list (list (list (list R)));   (* out × in × k × k *)
  conv_bias : list R                           (* out *)
}.

Definition wf_Conv2d (c_in c_out k p : nat) (l : Conv2d) : Prop :=
  in_channels l = c_in /\ out_channels l = c_out /\
  kernel_size l = k /\ padding l = p /\
  length (conv_weight l) = c_out /\
  Forall (wf_image c_in k k) (conv_weight l) /\
  length (conv_bias l) = c_out.

Inductive Layer : Type :=
| LinearLayer (l : Linear)
| ReLULayer
| Conv2dLayer (l : Conv2d)
| MaxPool2dLayer (k stride : nat)
| FlattenLayer.                     (* nn.Flatten(-3) *)

Definition ReLU (x : R) : R := Rmax 0 x.

(** The output sizes of a convolution with stride 1 and of a pooling
    window. *)
Definition conv_out (n k p : nat) : nat := (n + 2 * p - k + 1)%nat.
Definition pool_out (n k stride : nat) : nat := ((n - k) / stride + 1)%nat.

(** Entry [(r, q)] of a channel framed by [p] zeros on each side. *)
Definition padded (p : nat) (ch : list (list R)) (r q : nat) : R :=
  if (p <=? r)%nat && (p <=? q)%nat
  then default 0%R (row ← ch !! (r - p)%nat; row !! (q - p)%nat)
  else 0%R.

(** The products of a k×k kernel with the window at [(i, j)]. *)
Definition window_dot (k p : nat) (w ch : list (list R)) (i j : nat) : R :=
  sum ((fun a =>
          sum ((fun b =>
                  default 0%R (wr ← w !! a; wr !! b) * padded p ch (i + a) (j + b))%R
               <$> range k))
       <$> range k).

Definition conv2d_image (l : Conv2d) (h w : nat) (image : list (list (list R)))
  : list (list (list R)) :=
  zip_with
    (fun (wo : list (list (list R))) (b : R) =>
       (fun i =>
          (fun j =>
             (b + sum (zip_with
                         (fun wc ch => window_dot (kernel_size l) (padding l) wc ch i j)
                         wo image))%R)
          <$> range w)
       <$> range h)
    (conv_weight l) (conv_bias l).

(** The largest entry of a non-empty window. *)
Definition window_max (l : list R) : R :=
  match l with
  | [] => 0%R
  | x :: rest => foldl Rmax x rest
  end.

Definition pool_channel (k stride h w : nat) (ch : list (list R)) : list (list R) :=
  (fun i =>
     (fun j =>
        window_max
          (concat ((fun a =>
                      (fun b =>
                         default 0%R (row ← ch !! (stride * i + a)%nat;
                                      row !! (stride * j + b)%nat))
                      <$> range k)
                   <$> range k)))
     <$> range w)
  <$> range h.

(** [nn.Linear] acts on the last dimension. *)
Definition Linear_forward (l : Linear) (x : Tensor) : result Tensor :=
  match x with
  | Batch2 a =>
    let '(N, D) := shape2 a in
    if Nat.eqb D (in_features l)
    then rows ← Linear_forward2 l (rows2 a);
         Ok (Batch2 (mkArray2 (N, out_features l) rows))
    else Raise RuntimeError
  | Batch4 t =>
    let '(N, C, H, W) := shape t in
    if Nat.eqb W (in_features l)
    then e ← mapM (Linear_forward3 l) (elems t);
         Ok (Batch4 (mkTensor4 (N, C, H, out_features l) e))
    else Raise RuntimeError
  end.

Definition ReLU_forward (x : Tensor) : Tensor :=
  match x with
  | Batch2 a =>
    Batch2 (mkArray2 (shape2 a) ((fun row : list R => ReLU <$> row) <$> rows2 a))
  | Batch4 t =>
    Batch4 (mkTensor4 (shape t)
              ((fun image : list (list (list R)) =>
                  (fun ch : list (list R) =>
                     (fun row : list R => ReLU <$> row) <$> ch) <$> image)
               <$> elems t))
  end.

(** [nn.Conv2d] with stride 1: the channels must be those of the layer and
    the padded image at least as large as the kernel. *)
Definition Conv2d_forward (l : Conv2d) (x : Tensor) : result Tensor :=
  match x with
  | Batch2 _ => Raise RuntimeError
  | Batch4 t =>
    let '(N, C, H, W) := shape t in
    let k := kernel_size l in
    let p := padding l in
    if negb (Nat.eqb C (in_channels l)) then Raise RuntimeError
    else if (H + 2 * p <? k)%nat || (W + 2 * p <? k)%nat then Raise RuntimeError
    else
      let h := conv_out H k p in
      let w := conv_out W k p in
      Ok (Batch4 (mkTensor4 (N, out_channels l, h, w)
                    (conv2d_image l h w <$> elems t)))
  end.

(** [nn.MaxPool2d(kernel_size, stride)]: an output without entries is
    refused. *)
Definition MaxPool2d_forward (k stride : nat) (x : Tensor) : result Tensor :=
  match x with
  | Batch2 _ => Raise RuntimeError
  | Batch4 t =>
    let '(N, C, H, W) := shape t in
    if Nat.eqb k 0 || Nat.eqb stride 0 then Raise RuntimeError
    else if (H <? k)%nat || (W <? k)%nat then Raise RuntimeError
    else
      let h := pool_out H k stride in
      let w := pool_out W k stride in
      Ok (Batch4 (mkTensor4 (N, C, h, w)
                    ((fun image : list (list (list R)) =>
                        pool_channel k stride h w <$> image) <$> elems t)))
  end.

(** [nn.Flatten(-3)]: the last three dimensions become one. *)
Definition Flatten_forward (x : Tensor) : result Tensor :=
  match x with
  | Batch2 _ => Raise IndexError
  | Batch4 t =>
    let '(N, C, H, W) := shape t in
    Ok (Batch2 (mkArray2 (N, C * H * W)%nat (flatten <$> elems t)))
  end.

Definition Layer_forward (layer : Layer) (x : Tensor) : result Tensor :=
  match layer with
  | LinearLayer l => Linear_forward l x
  | ReLULayer => Ok (ReLU_forward x)
  | Conv2dLayer l => Conv2d_forward l x
  | MaxPool2dLayer k stride => MaxPool2d_forward k stride x
  | FlattenLayer => Flatten_forward x
  end.

(** [nn.Sequential]: the layers one after the other. *)
Definition Sequential_forward (layers : list Layer) (x : Tensor) : result Tensor :=
  for_each layers Layer_forward x.

Record MLP : Type := mkMLP { mlp : list Layer }.
Record CNN : Type := mkCNN { cnn : list Layer }.

(** [MLP.forward] (lines 45-57) and [CNN.forward] (lines 110-122). *)
Definition MLP_forward (self : MLP) (x : Tensor) : result Tensor :=
  Sequential_forward (mlp self) x.

Definition CNN_forward (self : CNN) (x : Tensor) : result Tensor :=
  Sequential_forward (cnn self) x.

Section Classifiers.
(** The layers are created with random weights: the constructors thread the
    state of the generator. *)
Variable Rng : Type.
Variable new_Linear : nat -> nat -> Rng -> Linear * Rng.
Variable new_Conv2d : nat -> nat -> nat -> nat -> Rng -> Conv2d * Rng.

(** [MLP.__init__] (lines 19-43). *)
Definition MLP_init (input_size n_classes : nat) (g : Rng) : MLP * Rng :=
  let '(l1, g) := new_Linear input_size 128 g in
  let '(l2, g) := new_Linear 128 64 g in
  let '(l3, g) := new_Linear 64 32 g in
  let '(l4, g) := new_Linear 32 n_classes g in
  (mkMLP [LinearLayer l1; ReLULayer;
          LinearLayer l2; ReLULayer;
          LinearLayer l3; ReLULayer;
          LinearLayer l4], g).

(** [CNN.__init__] (lines 67-108). *)
Definition CNN_init (input_channels n_classes : nat) (g : Rng) : CNN * Rng :=
  let '(c1, g) := new_Conv2d input_channels 8 3 1 g in
  let '(c2, g) := new_Conv2d 8 16 3 1 g in
  let '(c3, g) := new_Conv2d 16 32 3 2 g in
  let '(l1, g) := new_Linear (32 * 4 * 4) 256 g in
  let '(l2, g) := new_Linear 256 128 g in
  let '(l3, g) := new_Linear 128 n_classes g in
  (mkCNN [Conv2dLayer c1; ReLULayer; MaxPool2dLayer 2 2;
          Conv2dLayer c2; ReLULayer; MaxPool2dLayer 2 2;
          Conv2dLayer c3; ReLULayer; MaxPool2dLayer 2 2;
          FlattenLayer;
          LinearLayer l1; ReLULayer;
          LinearLayer l2; ReLULayer;
          LinearLayer l3], g).
End Classifiers.

Definition zero_Conv2d (c_in c_out k p : nat) : Conv2d :=
  mkConv2d c_in c_out k p
    (replicate c_out (replicate c_in (replicate k (replicate k 0%R))))
    (replicate c_out 0%R).

Definition zero_new_Conv2d (c_in c_out k p : nat) (g : unit) : Conv2d * unit :=
  (zero_Conv2d c_in c_out k p, g).

(** A batch of [n] black images of [c] channels and [h]×[w] pixels. *)
Definition black_images (n c h w : nat) : @Tensor4 R :=
  mkTensor4 (n, c, h, w) (replicate n (replicate c (replicate h (replicate w 0%R)))).

(** A tensor that is a well-formed batch of the given shape. *)
Definition is_batch2 (N D : nat) (x : Tensor) : Prop :=
  exists a, x = Batch2 a /\ shape2 a = (N, D) /\ wf_array2 a.

Definition is_batch4 (N C H W : nat) (x : Tensor) : Prop :=
  exists t, x = Batch4 t /\ shape t = (N, C, H, W) /\ wf_tensor4 t.

(** * Theorems *)

Example patchify_img44 :
  patchify 0%nat img44 2 =
  Ok [[[1; 2; 5; 6]; [3; 4; 7; 8]; [9; 10; 13; 14]; [11; 12; 15; 16]]]%nat.
Proof. reflexivity. Qed.

Example unpatchify_img44 :
  (p ← patchify 0%nat img44 2; Ok (unpatchify 0%nat 1 1 4 4 2 p)) = Ok (elems img44).
Proof. reflexivity. Qed.

(** ** Loops and lists *)

Lemma bind_Ok {A B : Type} (a : A) (k : A -> result B) : (Ok a ≫= k) = k a.
Proof. reflexivity. Qed.

Lemma for_each_invariant {S X : Type} (I : nat -> S -> Prop) (xs : list X)
    (body : X -> S -> result S) (s : S) :
  I 0%nat s ->
  (forall k x t, xs !! k = Some x -> I k t ->
     exists t', body x t = Ok t' /\ I (Datatypes.S k) t') ->
  exists s', for_each xs body s = Ok s' /\ I (length xs) s'.
Proof.
  revert I s. induction xs as [|x xs IH]; intros I s H0 Hstep.
  - exists s. split; [reflexivity | exact H0].
  - destruct (Hstep 0%nat x s eq_refl H0) as (s1 & Hb & H1).
    destruct (IH (fun k => I (Datatypes.S k)) s1 H1) as (s2 & Hf & H2).
    { intros k y t Hk. apply (Hstep (Datatypes.S k)). exact Hk. }
    exists s2. split; [|exact H2].
    cbn [for_each]. rewrite Hb, bind_Ok. exact Hf.
Qed.

Lemma lookup_range (n k x : nat) : range n !! k = Some x -> x = k /\ (k < n)%nat.
Proof. unfold range. rewrite lookup_seq. lia. Qed.

Lemma lookup_combine_seq {X : Type} (xs : list X) (base k i : nat) (x : X) :
  combine (seq base (length xs)) xs !! k = Some (i, x) ->
  i = (base + k)%nat /\ xs !! k = Some x.
Proof.
  revert base k. induction xs as [|y ys IH]; intros base k; cbn; [discriminate|].
  destruct k as [|k]; cbn.
  - intros [= <- <-]. split; [lia | reflexivity].
  - intros H. apply IH in H. destruct H as [-> H]. split; [lia | exact H].
Qed.

Lemma lookup_enumerate {X : Type} (xs : list X) (k i : nat) (x : X) :
  enumerate xs !! k = Some (i, x) -> i = k /\ xs !! k = Some x.
Proof. intros H. apply lookup_combine_seq in H. exact H. Qed.

Lemma length_enumerate {X : Type} (xs : list X) : length (enumerate xs) = length xs.
Proof. unfold enumerate. rewrite length_combine, length_seq. lia. Qed.

Lemma lookup_slice {X : Type} (lo hi k : nat) (l : list X) :
  (k < hi - lo)%nat -> slice lo hi l !! k = l !! (lo + k)%nat.
Proof. intros H. unfold slice. rewrite lookup_take_lt by exact H. apply lookup_drop. Qed.

Lemma length_slice {X : Type} (lo hi : nat) (l : list X) :
  (lo <= hi)%nat -> (hi <= length l)%nat -> length (slice lo hi l) = (hi - lo)%nat.
Proof. intros H1 H2. unfold slice. rewrite length_take, length_drop. lia. Qed.

Lemma length_concat_uniform {X : Type} (m : nat) (ls : list (list X)) :
  Forall (fun l => length l = m) ls -> length (concat ls) = (length ls * m)%nat.
Proof.
  induction 1 as [|l ls Hl _ IH]; cbn; [reflexivity|].
  rewrite length_app, IH, Hl. reflexivity.
Qed.

Lemma lookup_concat_uniform {X : Type} (m : nat) (ls : list (list X)) (a b : nat) :
  Forall (fun l => length l = m) ls -> (b < m)%nat ->
  concat ls !! (a * m + b)%nat = ls !! a ≫= (.!! b).
Proof.
  intros Hls Hb. revert a. induction Hls as [|l ls Hl _ IH]; intros a; cbn.
  - reflexivity.
  - destruct a as [|a]; cbn.
    + apply lookup_app_l. lia.
    + rewrite lookup_app_r by lia.
      replace (m + a * m + b - length l)%nat with (a * m + b)%nat by lia.
      apply IH.
Qed.

(** ** patchify *)

Lemma grid_div_mod (np i j : nat) :
  (j < np)%nat -> ((i * np + j) / np = i /\ (i * np + j) mod np = j)%nat.
Proof.
  intros Hj. split.
  - symmetry. apply (Nat.div_unique _ _ _ j); lia.
  - symmetry. apply (Nat.mod_unique _ _ i); lia.
Qed.

Section PatchBlock.
Context {A : Type}.
Variables (c s np : nat).

Lemma slice_block_rows (image : list (list (list A))) (i j : nat) :
  wf_image c (s * np) (s * np) image -> (i < np)%nat -> (j < np)%nat ->
  Forall (fun ch => length ch = s /\ Forall (fun row => length row = s) ch)
    (slice_block image (i * s) ((i + 1) * s) (j * s) ((j + 1) * s)).
Proof.
  intros [_ Himg] Hi Hj. unfold slice_block. rewrite Forall_fmap.
  assert (Hi' : ((i + 1) * s <= s * np)%nat) by nia.
  assert (Hj' : ((j + 1) * s <= s * np)%nat) by nia.
  eapply Forall_impl; [exact Himg|]. intros ch [Hch Hrows]. cbn.
  rewrite length_fmap. split.
  - rewrite length_slice; lia.
  - rewrite Forall_fmap. apply Forall_take, Forall_drop.
    eapply Forall_impl; [exact Hrows|]. intros row Hrow. cbn in Hrow |- *.
    rewrite length_slice; lia.
Qed.

Lemma concat_block_rows (patch : list (list (list A))) :
  Forall (fun ch => length ch = s /\ Forall (fun row => length row = s) ch) patch ->
  Forall (fun ch => length ch = s) patch /\
  Forall (fun row => length row = s) (concat patch).
Proof.
  intros H. split.
  - eapply Forall_impl; [exact H|]. intros ch [Hch _]. exact Hch.
  - apply Forall_concat. eapply Forall_impl; [exact H|]. intros ch [_ Hr]. exact Hr.
Qed.

Lemma length_patch (image : list (list (list A))) (i j : nat) :
  wf_image c (s * np) (s * np) image -> (i < np)%nat -> (j < np)%nat ->
  length (flatten (slice_block image (i * s) ((i + 1) * s) (j * s) ((j + 1) * s)))
  = (c * s * s)%nat.
Proof.
  intros Himg Hi Hj.
  destruct (concat_block_rows _ (slice_block_rows image i j Himg Hi Hj)) as [H1 H2].
  unfold flatten. rewrite (length_concat_uniform s) by exact H2.
  rewrite (length_concat_uniform s) by exact H1.
  unfold slice_block. rewrite length_fmap. destruct Himg as [-> _]. reflexivity.
Qed.

Lemma lookup_patch (image : list (list (list A))) (i j ch r q : nat) :
  wf_image c (s * np) (s * np) image -> (i < np)%nat -> (j < np)%nat ->
  (r < s)%nat -> (q < s)%nat ->
  flatten (slice_block image (i * s) ((i + 1) * s) (j * s) ((j + 1) * s))
    !! ((ch * s + r) * s + q)%nat
  = (chn ← image !! ch; row ← chn !! (i * s + r)%nat; row !! (j * s + q)%nat).
Proof.
  intros Himg Hi Hj Hr Hq.
  destruct (concat_block_rows _ (slice_block_rows image i j Himg Hi Hj)) as [H1 H2].
  unfold flatten. rewrite (lookup_concat_uniform s) by assumption.
  rewrite (lookup_concat_uniform s) by assumption.
  unfold slice_block. rewrite list_lookup_fmap.
  destruct (image !! ch) as [chn|]; cbn; [|reflexivity].
  rewrite list_lookup_fmap, lookup_slice by lia.
  destruct (chn !! (i * s + r)%nat) as [row|]; cbn; [|reflexivity].
  apply lookup_slice. lia.
Qed.
End PatchBlock.

Section PatchifyLoops.
Context {A : Type}.
Variables (n c s np : nat) (images : list (list (list (list A)))).
Hypothesis Hlen : length images = n.
Hypothesis Hwf : Forall (wf_image c (s * np) (s * np)) images.

Lemma patches_inv_weaken (W W' : nat -> nat -> Prop) (P : list (list (list A))) :
  patches_inv images n c s np W P ->
  (forall a b, (b < np ^ 2)%nat -> W' a b -> W a b) ->
  patches_inv images n c s np W' P.
Proof.
  intros [HP Hrows] HW. split; [exact HP|].
  intros idx seqs Hidx. destruct (Hrows idx seqs Hidx) as [Hseqs Hrow].
  split; [exact Hseqs|]. intros p row Hp.
  destruct (Hrow p row Hp) as [Hl Hw]. split; [exact Hl|].
  intros HW'. apply Hw, HW; [|exact HW'].
  apply lookup_lt_Some in Hp. lia.
Qed.

Lemma setitem_row_step (W : nat -> nat -> Prop) (P : list (list (list A)))
    (idx i j : nat) (image : list (list (list A))) :
  patches_inv images n c s np W P -> images !! idx = Some image -> (i < np)%nat -> (j < np)%nat ->
  exists P',
    setitem_row P idx (i * np + j)
      (flatten (slice_block image (i * s) ((i + 1) * s) (j * s) ((j + 1) * s)))
    = Ok P' /\
    patches_inv images n c s np (fun a b => W a b \/ (a = idx /\ b = (i * np + j)%nat)) P'.
Proof.
  intros [HP Hrows] Himage Hi Hj.
  assert (Himg : wf_image c (s * np) (s * np) image)
    by (eapply Forall_lookup_1; eassumption).
  assert (Hidx : (idx < length P)%nat)
    by (rewrite HP, <- Hlen; eapply lookup_lt_Some; eassumption).
  destruct (lookup_lt_is_Some_2 _ _ Hidx) as [seqs Hseqs].
  destruct (Hrows idx seqs Hseqs) as [Hlseqs Hrow].
  assert (Hp : (i * np + j < length seqs)%nat) by (rewrite Hlseqs; cbn; nia).
  destruct (lookup_lt_is_Some_2 _ _ Hp) as [row Hrowp].
  destruct (Hrow _ _ Hrowp) as [Hlrow _].
  pose proof (length_patch c s np image i j Himg Hi Hj) as Hlen_patch.
  unfold setitem_row. rewrite Hseqs, Hrowp, Hlen_patch, Hlrow, Nat.eqb_refl.
  eexists. split; [reflexivity|]. split; [rewrite length_insert; exact HP|].
  intros idx' seqs'. rewrite list_lookup_insert. case_decide as Hc.
  - destruct Hc as [<- _]. intros [= <-]. rewrite length_insert.
    split; [exact Hlseqs|]. intros p row'. rewrite list_lookup_insert.
    case_decide as Hc'.
    + destruct Hc' as [<- _]. intros [= <-]. split; [exact Hlen_patch|].
      intros _. exists image. split; [exact Himage|].
      unfold patch_at. destruct (grid_div_mod np i j Hj) as [-> ->]. reflexivity.
    + intros Hp'. destruct (Hrow _ _ Hp') as [Hl Hw]. split; [exact Hl|].
      intros [HW | [_ ->]]; [exact (Hw HW)|].
      apply lookup_lt_Some in Hp'. exfalso. apply Hc'. split; [reflexivity | exact Hp].
  - intros Hidx'. destruct (Hrows _ _ Hidx') as [Hl' Hrow'].
    split; [exact Hl'|]. intros p row' Hp'.
    destruct (Hrow' _ _ Hp') as [Hl Hw]. split; [exact Hl|].
    intros [HW | [-> _]]; [exact (Hw HW)|].
    exfalso. apply Hc. split; [reflexivity | exact Hidx].
Qed.

Lemma inner_loop (P : list (list (list A))) (idx i : nat)
    (image : list (list (list A))) :
  patches_inv images n c s np (written np idx i 0) P -> images !! idx = Some image -> (i < np)%nat ->
  exists P',
    for_each (range np) (fun j patches =>
      setitem_row patches idx (i * np + j)
        (flatten (slice_block image (i * s) ((i + 1) * s) (j * s) ((j + 1) * s)))) P
    = Ok P' /\ patches_inv images n c s np (written np idx (i + 1) 0) P'.
Proof.
  intros HP Himage Hi.
  destruct (for_each_invariant (fun k => patches_inv images n c s np (written np idx i k)) (range np)
              (fun j patches =>
                 setitem_row patches idx (i * np + j)
                   (flatten (slice_block image (i * s) ((i + 1) * s)
                               (j * s) ((j + 1) * s)))) P HP)
    as (P' & Hrun & HP').
  - intros k j Q Hk HQ. apply lookup_range in Hk. destruct Hk as [-> Hk].
    destruct (setitem_row_step _ Q idx i k image HQ Himage Hi Hk) as (Q' & Hset & HQ').
    exists Q'. split; [exact Hset|].
    eapply patches_inv_weaken; [exact HQ'|].
    unfold written. intros a b _ H. lia.
  - exists P'. split; [exact Hrun|].
    eapply patches_inv_weaken; [exact HP'|].
    unfold range, written. rewrite length_seq. intros a b _ H. lia.
Qed.

Lemma middle_loop (P : list (list (list A))) (idx : nat)
    (image : list (list (list A))) :
  patches_inv images n c s np (written np idx 0 0) P -> images !! idx = Some image ->
  exists P',
    for_each (range np) (fun i patches =>
      for_each (range np) (fun j patches =>
        setitem_row patches idx (i * np + j)
          (flatten (slice_block image (i * s) ((i + 1) * s)
                      (j * s) ((j + 1) * s)))) patches) P
    = Ok P' /\ patches_inv images n c s np (written np (idx + 1) 0 0) P'.
Proof.
  intros HP Himage.
  destruct (for_each_invariant (fun k => patches_inv images n c s np (written np idx k 0)) (range np)
              (fun i patches =>
                 for_each (range np) (fun j patches =>
                   setitem_row patches idx (i * np + j)
                     (flatten (slice_block image (i * s) ((i + 1) * s)
                                 (j * s) ((j + 1) * s)))) patches) P HP)
    as (P' & Hrun & HP').
  - intros k i Q Hk HQ. apply lookup_range in Hk. destruct Hk as [-> Hk].
    destruct (inner_loop Q idx k image HQ Himage Hk) as (Q' & Hin & HQ').
    exists Q'. split; [exact Hin|]. replace (S k) with (k + 1)%nat by lia. exact HQ'.
  - exists P'. split; [exact Hrun|].
    eapply patches_inv_weaken; [exact HP'|].
    unfold range, written. rewrite length_seq. cbn. intros a b Hb H. lia.
Qed.

Lemma outer_loop (P : list (list (list A))) :
  patches_inv images n c s np (written np 0 0 0) P ->
  exists P',
    for_each (enumerate images) (fun '(idx, image) patches =>
      for_each (range np) (fun i patches =>
        for_each (range np) (fun j patches =>
          setitem_row patches idx (i * np + j)
            (flatten (slice_block image (i * s) ((i + 1) * s)
                        (j * s) ((j + 1) * s)))) patches) patches) P
    = Ok P' /\ patches_inv images n c s np (fun a _ => (a < n)%nat) P'.
Proof.
  intros HP.
  destruct (for_each_invariant (fun k => patches_inv images n c s np (written np k 0 0)) (enumerate images)
              (fun '(idx, image) patches =>
                 for_each (range np) (fun i patches =>
                   for_each (range np) (fun j patches =>
                     setitem_row patches idx (i * np + j)
                       (flatten (slice_block image (i * s) ((i + 1) * s)
                                   (j * s) ((j + 1) * s)))) patches) patches) P HP)
    as (P' & Hrun & HP').
  - intros k [idx image] Q Hk HQ. apply lookup_enumerate in Hk. destruct Hk as [-> Hk].
    destruct (middle_loop Q k image HQ Hk) as (Q' & Hmid & HQ').
    exists Q'. split; [exact Hmid|]. replace (S k) with (k + 1)%nat by lia. exact HQ'.
  - exists P'. split; [exact Hrun|].
    eapply patches_inv_weaken; [exact HP'|].
    rewrite length_enumerate, Hlen. unfold written. intros a b _ H. lia.
Qed.

Lemma zeros3_inv (zero : A) :
  patches_inv images n c s np (written np 0 0 0) (zeros3 zero n (np ^ 2) (c * s * s)).
Proof.
  unfold zeros3. split; [apply length_replicate|].
  intros idx seqs Hidx. apply lookup_replicate in Hidx. destruct Hidx as [-> _].
  split; [apply length_replicate|]. intros p row Hp.
  apply lookup_replicate in Hp. destruct Hp as [-> _].
  split; [apply length_replicate|]. unfold written. lia.
Qed.
End PatchifyLoops.

Lemma py_mod_zero (h np : nat) :
  py_mod h np = Ok 0%nat -> (0 < np)%nat /\ h = (h / np * np)%nat.
Proof.
  unfold py_mod. destruct (Nat.eqb_spec np 0) as [|Hnp]; [discriminate|].
  intros [= Hmod]. split; [lia|].
  apply Nat.Div0.div_exact in Hmod. lia.
Qed.

Lemma patchify_inv {A : Type} (zero : A) (images : Tensor4) (n c h w np : nat) :
  shape images = (n, c, h, w) -> wf_tensor4 images -> h = w ->
  py_mod h np = Ok 0%nat ->
  exists patches,
    patchify zero images np = Ok patches /\
    patches_inv (elems images) n c (h / np) np (fun a _ => (a < n)%nat) patches.
Proof.
  intros Hshape Hwf <- Hmod. unfold wf_tensor4 in Hwf. rewrite Hshape in Hwf.
  destruct Hwf as [Hlen Hwf].
  destruct (py_mod_zero h np Hmod) as [Hnp Hh].
  unfold patchify. rewrite Hshape, Nat.eqb_refl. cbn [py_assert]. rewrite bind_Ok.
  unfold floordiv.
  destruct (Nat.eqb_spec (np ^ 2) 0) as [H0|_]; [cbn in H0; nia|].
  destruct (Nat.eqb_spec np 0) as [H0|_]; [lia|].
  rewrite !bind_Ok.
  set (s := (h / np)%nat) in *. clearbody s. subst h.
  replace (s * np * (s * np) * c)%nat with (c * s * s * np ^ 2)%nat by (cbn; nia).
  rewrite Nat.div_mul by (cbn; nia).
  apply (outer_loop n c s np (elems images) Hlen Hwf).
  apply zeros3_inv; assumption.
Qed.

Lemma patches_inv_lookup {A : Type} (images : list (list (list (list A))))
    (n c s np : nat) (patches : list (list (list A))) (idx i j ch r q : nat) :
  length images = n -> Forall (wf_image c (s * np) (s * np)) images ->
  patches_inv images n c s np (fun a _ => (a < n)%nat) patches ->
  (idx < n)%nat -> (i < np)%nat -> (j < np)%nat -> (ch < c)%nat ->
  (r < s)%nat -> (q < s)%nat ->
  exists v,
    (image ← images !! idx; chn ← image !! ch;
     row ← chn !! (i * s + r)%nat; row !! (j * s + q)%nat) = Some v /\
    (seqs ← patches !! idx; row ← seqs !! (i * np + j)%nat;
     row !! ((ch * s + r) * s + q)%nat) = Some v.
Proof.
  intros Hlen Hwf [HP Hrows] Hidx Hi Hj Hch Hr Hq.
  destruct (lookup_lt_is_Some_2 patches idx ltac:(lia)) as [seqs Hseqs].
  destruct (Hrows _ _ Hseqs) as [Hlseqs Hrow].
  destruct (lookup_lt_is_Some_2 seqs (i * np + j)%nat ltac:(rewrite Hlseqs; cbn; nia))
    as [row Hrowp].
  destruct (Hrow _ _ Hrowp) as [Hlrow Hw].
  destruct (Hw Hidx) as (image & Himage & ->).
  assert (Himg : wf_image c (s * np) (s * np) image)
    by (eapply Forall_lookup_1; eassumption).
  rewrite Hseqs, Himage. cbn. rewrite Hrowp. cbn.
  unfold patch_at. destruct (grid_div_mod np i j Hj) as [-> ->].
  rewrite (lookup_patch c s np image i j ch r q Himg Hi Hj Hr Hq).
  destruct Himg as [Hc Hchs].
  destruct (lookup_lt_is_Some_2 image ch ltac:(lia)) as [chn Hchn].
  destruct (Forall_lookup_1 _ _ _ _ Hchs Hchn) as [Hh Hws].
  destruct (lookup_lt_is_Some_2 chn (i * s + r)%nat ltac:(nia)) as [row Hrow'].
  pose proof (Forall_lookup_1 _ _ _ _ Hws Hrow') as Hw'. cbn in Hw'.
  destruct (lookup_lt_is_Some_2 row (j * s + q)%nat ltac:(nia)) as [v Hv].
  exists v. rewrite Hchn. cbn. rewrite Hrow'. cbn. split; exact Hv.
Qed.

(** C6: for an image batch of shape (N,C,H,W) with H = W and
    H % n_patches = 0, [patchify] returns a tensor of shape
    (N, n_patches², C·(H/n_patches)²) whose row at sequence position
    [i·n_patches + j] holds, at offset [(ch·s + r)·s + q] (channel-major,
    then row-major, then column-major), the entry of channel [ch] at row
    [i·s + r] and column [j·s + q] of the image, with s = H/n_patches. *)
Theorem patchify_layout {A : Type} (zero : A) (images : Tensor4)
    (n c h w n_patches : nat) :
  shape images = (n, c, h, w) -> wf_tensor4 images -> h = w ->
  py_mod h n_patches = Ok 0%nat ->
  exists patches,
    patchify zero images n_patches = Ok patches /\
    length patches = n /\
    Forall (fun seqs =>
      length seqs = (n_patches ^ 2)%nat /\
      Forall (fun row => length row = (c * (h / n_patches) ^ 2)%nat) seqs) patches /\
    forall idx i j ch r q,
      (idx < n)%nat -> (i < n_patches)%nat -> (j < n_patches)%nat ->
      (ch < c)%nat -> (r < h / n_patches)%nat -> (q < h / n_patches)%nat ->
      exists v,
        (image ← elems images !! idx; chn ← image !! ch;
         row ← chn !! (i * (h / n_patches) + r)%nat;
         row !! (j * (h / n_patches) + q)%nat) = Some v /\
        (seqs ← patches !! idx; row ← seqs !! (i * n_patches + j)%nat;
         row !! ((ch * (h / n_patches) + r) * (h / n_patches) + q)%nat) = Some v.
Proof.
  intros Hshape Hwf Hhw Hmod.
  destruct (patchify_inv zero images n c h w n_patches Hshape Hwf Hhw Hmod)
    as (patches & Hrun & Hinv).
  exists patches. split; [exact Hrun|].
  unfold wf_tensor4 in Hwf. rewrite Hshape in Hwf. destruct Hwf as [Hlen Hwf].
  subst w. destruct (py_mod_zero h n_patches Hmod) as [Hnp Hh].
  split; [exact (proj1 Hinv)|]. split.
  - apply Forall_lookup_2. intros idx seqs Hseqs.
    destruct (proj2 Hinv _ _ Hseqs) as [Hl Hrow]. split; [exact Hl|].
    apply Forall_lookup_2. intros p row Hp.
    destruct (Hrow _ _ Hp) as [Hlr _]. rewrite Hlr. cbn. lia.
  - intros idx i j ch r q Hidx Hi Hj Hch Hr Hq.
    apply (patches_inv_lookup (elems images) n c (h / n_patches) n_patches);
      try assumption.
    rewrite <- Hh. exact Hwf.
Qed.

Lemma patchify_layout_witness :
  exists patches,
    patchify 0%nat img44 2 = Ok patches /\ length patches = 1%nat.
Proof.
  destruct (patchify_layout 0%nat img44 1 1 4 4 2) as (patches & Hrun & Hlen & _).
  - reflexivity.
  - cbn. repeat constructor.
  - reflexivity.
  - reflexivity.
  - exists patches. split; assumption.
Defined.


Lemma fmap_range_eq {B : Type} (f : nat -> B) (l : list B) (n : nat) :
  length l = n -> (forall k x, l !! k = Some x -> f k = x) -> f <$> range n = l.
Proof.
  intros Hl Hf. apply list_eq. intros k. rewrite list_lookup_fmap. unfold range.
  destruct (decide (k < n)%nat) as [Hk|Hk].
  - rewrite lookup_seq_lt by exact Hk. cbn.
    destruct (lookup_lt_is_Some_2 l k ltac:(lia)) as [x Hx].
    rewrite Hx. f_equal. apply Hf. exact Hx.
  - rewrite lookup_seq_ge by lia. symmetry. apply lookup_ge_None_2. lia.
Qed.

(** C2: for an image batch of shape (N,C,H,W) with H = W and
    H % n_patches = 0, placing every row of [patchify]'s output back into its
    grid cell gives the original batch: [patchify] loses no information. *)
Theorem patchify_roundtrip {A : Type} (zero : A) (images : Tensor4)
    (n c h w n_patches : nat) :
  shape images = (n, c, h, w) -> wf_tensor4 images -> h = w ->
  py_mod h n_patches = Ok 0%nat ->
  exists patches,
    patchify zero images n_patches = Ok patches /\
    unpatchify zero n c h w n_patches patches = elems images.
Proof.
  intros Hshape Hwf Hhw Hmod.
  destruct (patchify_inv zero images n c h w n_patches Hshape Hwf Hhw Hmod)
    as (patches & Hrun & Hinv).
  exists patches. split; [exact Hrun|].
  unfold wf_tensor4 in Hwf. rewrite Hshape in Hwf. destruct Hwf as [Hlen Hwf].
  subst w. destruct (py_mod_zero h n_patches Hmod) as [Hnp Hh].
  unfold unpatchify. set (s := (h / n_patches)%nat) in *.
  apply fmap_range_eq; [exact Hlen|]. intros idx image Himage.
  pose proof (Forall_lookup_1 _ _ _ _ Hwf Himage) as [Hc Hchs].
  pose proof (lookup_lt_Some _ _ _ Himage) as Hidx. rewrite Hlen in Hidx.
  apply fmap_range_eq; [exact Hc|]. intros ch chn Hchn.
  pose proof (Forall_lookup_1 _ _ _ _ Hchs Hchn) as [Hrows Hws].
  pose proof (lookup_lt_Some _ _ _ Hchn) as Hch. rewrite Hc in Hch.
  apply fmap_range_eq; [exact Hrows|]. intros y row Hrow.
  pose proof (Forall_lookup_1 _ _ _ _ Hws Hrow) as Hw. cbn in Hw.
  pose proof (lookup_lt_Some _ _ _ Hrow) as Hy. rewrite Hrows in Hy.
  apply fmap_range_eq; [exact Hw|]. intros x v Hv.
  pose proof (lookup_lt_Some _ _ _ Hv) as Hx. rewrite Hw in Hx.
  assert (Hs : (0 < s)%nat) by nia.
  assert (Hi : (y / s < n_patches)%nat) by (apply Nat.Div0.div_lt_upper_bound; lia).
  assert (Hj : (x / s < n_patches)%nat) by (apply Nat.Div0.div_lt_upper_bound; lia).
  assert (Hr : (y mod s < s)%nat) by (apply Nat.mod_upper_bound; lia).
  assert (Hq : (x mod s < s)%nat) by (apply Nat.mod_upper_bound; lia).
  destruct (patches_inv_lookup (elems images) n c s n_patches patches
              idx (y / s) (x / s) ch (y mod s) (x mod s))
    as (v' & Hsrc & Hdst); try assumption.
  { rewrite <- Hh. exact Hwf. }
  rewrite Hdst. cbn.
  rewrite Himage in Hsrc. cbn in Hsrc. rewrite Hchn in Hsrc. cbn in Hsrc.
  replace (y / s * s + y mod s)%nat with y in Hsrc
    by (rewrite (Nat.div_mod_eq y s) at 1; lia).
  rewrite Hrow in Hsrc. cbn in Hsrc.
  replace (x / s * s + x mod s)%nat with x in Hsrc
    by (rewrite (Nat.div_mod_eq x s) at 1; lia).
  congruence.
Qed.

Lemma patchify_roundtrip_witness :
  exists patches,
    patchify 0%nat img44 2 = Ok patches /\
    unpatchify 0%nat 1 1 4 4 2 patches = elems img44.
Proof.
  apply (patchify_roundtrip 0%nat img44 1 1 4 4 2).
  - reflexivity.
  - cbn. repeat constructor.
  - reflexivity.
  - reflexivity.
Defined.

(** ** get_positional_embeddings *)

Lemma mod2_even (j : nat) : Nat.eqb (j mod 2) 0 = Nat.even j.
Proof.
  destruct (Nat.even j) eqn:He.
  - apply Nat.even_spec in He. destruct He as [k ->].
    rewrite Nat.mul_comm, Nat.Div0.mod_mul. reflexivity.
  - assert (Ho : Nat.odd j = true) by (unfold Nat.odd; rewrite He; reflexivity).
    apply Nat.odd_spec in Ho. destruct Ho as [k ->].
    rewrite Nat.add_comm, Nat.mul_comm, Nat.Div0.mod_add. reflexivity.
Qed.

Lemma py_truediv_Ok (x y : R) : y <> 0%R -> py_truediv x y = Ok (x / y)%R.
Proof. intros Hy. unfold py_truediv. destruct (Req_EM_T y 0); [contradiction | reflexivity]. Qed.

Lemma Rpower_neq_0 (x y : R) : Rpower x y <> 0%R.
Proof. unfold Rpower. apply Rgt_not_eq, exp_pos. Qed.

Section PositionalProofs.
Variables (L d : nat).

Lemma table_inv_weaken (W W' : nat -> nat -> Prop) (t : list (list R)) :
  table_inv L d W t -> (forall a b, (b < d)%nat -> W' a b -> W a b) -> table_inv L d W' t.
Proof.
  intros [Ht Hrows] HW. split; [exact Ht|].
  intros i row Hi. destruct (Hrows i row Hi) as [Hl Hv]. split; [exact Hl|].
  intros j v Hj HW'. apply (Hv j v Hj), HW; [|exact HW'].
  apply lookup_lt_Some in Hj. lia.
Qed.

Lemma setitem2_step (W : nat -> nat -> Prop) (t : list (list R)) (i j : nat) :
  table_inv L d W t -> (i < L)%nat -> (j < d)%nat ->
  exists t',
    setitem2 t i j (pe_entry d i j) = Ok t' /\
    table_inv L d (fun a b => W a b \/ (a = i /\ b = j)) t'.
Proof.
  intros [Ht Hrows] Hi Hj.
  destruct (lookup_lt_is_Some_2 t i ltac:(lia)) as [row Hrow].
  destruct (Hrows i row Hrow) as [Hl Hv].
  unfold setitem2. rewrite Hrow, Hl. rewrite decide_True by exact Hj.
  eexists. split; [reflexivity|]. split; [rewrite length_insert; exact Ht|].
  intros i' row'. rewrite list_lookup_insert. case_decide as Hc.
  - destruct Hc as [<- _]. intros [= <-]. rewrite length_insert.
    split; [exact Hl|]. intros j' v. rewrite list_lookup_insert.
    case_decide as Hc'.
    + destruct Hc' as [<- _]. intros [= <-] _. reflexivity.
    + intros Hj' [HW | [_ ->]]; [exact (Hv _ _ Hj' HW)|].
      exfalso. apply Hc'. split; [reflexivity | lia].
  - intros Hi'. destruct (Hrows _ _ Hi') as [Hl' Hv']. split; [exact Hl'|].
    intros j' v Hj' [HW | [-> _]]; [exact (Hv' _ _ Hj' HW)|].
    exfalso. apply Hc. split; [reflexivity | lia].
Qed.

Lemma pe_body (t : list (list R)) (i j : nat) :
  (j < d)%nat ->
  (if Nat.eqb (j mod 2) 0 then
     e ← py_truediv (INR j) (INR d);
     x ← py_truediv (INR i) (Rpower 10000 e);
     setitem2 t i j (sin x)
   else
     e ← py_truediv (INR (j - 1)) (INR d);
     x ← py_truediv (INR i) (Rpower 10000 e);
     setitem2 t i j (cos x))
  = setitem2 t i j (pe_entry d i j).
Proof.
  intros Hj. assert (Hd : INR d <> 0%R) by (apply not_0_INR; lia).
  unfold pe_entry. rewrite mod2_even. destruct (Nat.even j).
  - rewrite (py_truediv_Ok _ _ Hd), bind_Ok.
    rewrite (py_truediv_Ok _ _ (Rpower_neq_0 _ _)), bind_Ok. reflexivity.
  - rewrite (py_truediv_Ok _ _ Hd), bind_Ok.
    rewrite (py_truediv_Ok _ _ (Rpower_neq_0 _ _)), bind_Ok. reflexivity.
Qed.

Lemma pe_inner_loop (t : list (list R)) (i : nat) :
  table_inv L d (assigned i 0) t -> (i < L)%nat ->
  exists t',
    for_each (range d) (fun j result =>
      if Nat.eqb (j mod 2) 0 then
        e ← py_truediv (INR j) (INR d);
        x ← py_truediv (INR i) (Rpower 10000 e);
        setitem2 result i j (sin x)
      else
        e ← py_truediv (INR (j - 1)) (INR d);
        x ← py_truediv (INR i) (Rpower 10000 e);
        setitem2 result i j (cos x)) t
    = Ok t' /\ table_inv L d (assigned (i + 1) 0) t'.
Proof.
  intros Ht Hi.
  destruct (for_each_invariant (fun k => table_inv L d (assigned i k)) (range d)
              (fun j result =>
                 if Nat.eqb (j mod 2) 0 then
                   e ← py_truediv (INR j) (INR d);
                   x ← py_truediv (INR i) (Rpower 10000 e);
                   setitem2 result i j (sin x)
                 else
                   e ← py_truediv (INR (j - 1)) (INR d);
                   x ← py_truediv (INR i) (Rpower 10000 e);
                   setitem2 result i j (cos x)) t Ht)
    as (t' & Hrun & Ht').
  - intros k j u Hk Hu. apply lookup_range in Hk. destruct Hk as [-> Hk].
    rewrite (pe_body u i k Hk).
    destruct (setitem2_step _ u i k Hu Hi Hk) as (u' & Hset & Hu').
    exists u'. split; [exact Hset|].
    eapply table_inv_weaken; [exact Hu'|]. unfold assigned. intros a b _ H. lia.
  - exists t'. split; [exact Hrun|].
    eapply table_inv_weaken; [exact Ht'|].
    unfold range, assigned. rewrite length_seq. intros a b Hb H. lia.
Qed.

Lemma pe_outer_loop (t : list (list R)) :
  table_inv L d (assigned 0 0) t ->
  exists t',
    for_each (range L) (fun i result =>
      for_each (range d) (fun j result =>
        if Nat.eqb (j mod 2) 0 then
          e ← py_truediv (INR j) (INR d);
          x ← py_truediv (INR i) (Rpower 10000 e);
          setitem2 result i j (sin x)
        else
          e ← py_truediv (INR (j - 1)) (INR d);
          x ← py_truediv (INR i) (Rpower 10000 e);
          setitem2 result i j (cos x)) result) t
    = Ok t' /\ table_inv L d (fun _ _ => True) t'.
Proof.
  intros Ht.
  destruct (for_each_invariant (fun k => table_inv L d (assigned k 0)) (range L)
              (fun i result =>
                 for_each (range d) (fun j result =>
                   if Nat.eqb (j mod 2) 0 then
                     e ← py_truediv (INR j) (INR d);
                     x ← py_truediv (INR i) (Rpower 10000 e);
                     setitem2 result i j (sin x)
                   else
                     e ← py_truediv (INR (j - 1)) (INR d);
                     x ← py_truediv (INR i) (Rpower 10000 e);
                     setitem2 result i j (cos x)) result) t Ht)
    as (t' & Hrun & Ht').
  - intros k i u Hk Hu. apply lookup_range in Hk. destruct Hk as [-> Hk].
    destruct (pe_inner_loop u k Hu Hk) as (u' & Hin & Hu').
    exists u'. split; [exact Hin|]. replace (S k) with (k + 1)%nat by lia. exact Hu'.
  - exists t'. split; [exact Hrun|]. destruct Ht' as [Hlen Hrows].
    split; [exact Hlen|]. intros i row Hi.
    destruct (Hrows i row Hi) as [Hl Hv]. split; [exact Hl|].
    intros j v Hj _. apply (Hv j v Hj).
    apply lookup_lt_Some in Hi. unfold range, assigned in *.
    rewrite length_seq. lia.
Qed.

Lemma ones2_inv : table_inv L d (assigned 0 0) (ones2 L d).
Proof.
  unfold ones2. split; [apply length_replicate|].
  intros i row Hi. apply lookup_replicate in Hi. destruct Hi as [-> _].
  split; [apply length_replicate|]. unfold assigned. intros j v _ H. lia.
Qed.
End PositionalProofs.

Lemma positional_embeddings_inv (L d : nat) :
  exists t, get_positional_embeddings L d = Ok t /\ table_inv L d (fun _ _ => True) t.
Proof. apply pe_outer_loop, ones2_inv. Qed.

Lemma table_inv_lookup (L d : nat) (t : list (list R)) (i j : nat) :
  table_inv L d (fun _ _ => True) t -> (i < L)%nat -> (j < d)%nat ->
  (row ← t !! i; row !! j) = Some (pe_entry d i j).
Proof.
  intros [Hlen Hrows] Hi Hj.
  destruct (lookup_lt_is_Some_2 t i ltac:(lia)) as [row Hrow].
  destruct (Hrows i row Hrow) as [Hl Hv].
  destruct (lookup_lt_is_Some_2 row j ltac:(lia)) as [v Hj'].
  rewrite Hrow. cbn. rewrite Hj'. f_equal. apply (Hv j v Hj' I).
Qed.

(** C7 (amended): for every sequence length L and embedding dimension d,
    [get_positional_embeddings] returns the L×d table whose entry (i,j) is
    sin(i / 10000^(j/d)) for even j and cos(i / 10000^((j-1)/d)) for odd j;
    hence in every row the columns 2k and 2k+1 are the sine and the cosine
    of the same argument i / 10000^(2k/d). *)
Theorem positional_embeddings_table (L d : nat) :
  exists t,
    get_positional_embeddings L d = Ok t /\
    length t = L /\
    Forall (fun row => length row = d) t /\
    (forall i j, (i < L)%nat -> (j < d)%nat ->
       (row ← t !! i; row !! j) =
       Some (if Nat.even j
             then sin (INR i / Rpower 10000 (INR j / INR d))
             else cos (INR i / Rpower 10000 (INR (j - 1) / INR d)))) /\
    (forall i k, (i < L)%nat -> (2 * k + 1 < d)%nat ->
       (row ← t !! i; row !! (2 * k)%nat) =
         Some (sin (INR i / Rpower 10000 (INR (2 * k) / INR d))) /\
       (row ← t !! i; row !! (2 * k + 1)%nat) =
         Some (cos (INR i / Rpower 10000 (INR (2 * k) / INR d)))).
Proof.
  destruct (positional_embeddings_inv L d) as (t & Hrun & Hinv).
  exists t. split; [exact Hrun|]. split; [exact (proj1 Hinv)|]. split.
  - apply Forall_lookup_2. intros i row Hi. exact (proj1 (proj2 Hinv i row Hi)).
  - split.
    + intros i j Hi Hj. exact (table_inv_lookup L d t i j Hinv Hi Hj).
    + intros i k Hi Hk. split.
      * rewrite (table_inv_lookup L d t i (2 * k) Hinv Hi) by lia.
        unfold pe_entry. rewrite Nat.even_mul. reflexivity.
      * rewrite (table_inv_lookup L d t i (2 * k + 1) Hinv Hi) by lia.
        unfold pe_entry. rewrite Nat.even_add, Nat.even_mul. cbn [Nat.even orb Bool.eqb].
        replace (2 * k + 1 - 1)%nat with (2 * k)%nat by lia. reflexivity.
Qed.

Lemma sin_lt_on_unit (a b : R) : (0 < a)%R -> (a < b)%R -> (b <= 1)%R -> (sin a < sin b)%R.
Proof.
  intros Ha Hab Hb. pose proof PI2_1 as Hpi.
  apply sin_increasing_1; lra.
Qed.

(** C7 as stated fails: with d = 4 the entry at row 1, column 2 (k = 1) is
    sin(1 / 10000^(2/4)), not sin(1 / 10000^(1/4)). *)
Lemma positional_pair_exponent_counterexample :
  exists t,
    get_positional_embeddings 2 4 = Ok t /\
    (row ← t !! 1%nat; row !! 2%nat) <>
      Some (sin (INR 1 / Rpower 10000 (INR 1 / INR 4))).
Proof.
  destruct (positional_embeddings_inv 2 4) as (t & Hrun & Hinv).
  exists t. split; [exact Hrun|].
  rewrite (table_inv_lookup 2 4 t 1 2 Hinv) by lia.
  unfold pe_entry. cbn [Nat.even]. intros [= Heq].
  assert (H1 : (1 < Rpower 10000 (INR 1 / INR 4))%R).
  { rewrite <- (Rpower_O 10000) at 1 by lra.
    apply Rpower_lt; [lra | simpl; lra]. }
  assert (H2 : (Rpower 10000 (INR 1 / INR 4) < Rpower 10000 (INR 2 / INR 4))%R).
  { apply Rpower_lt; [lra | simpl; lra]. }
  set (p := Rpower 10000 (INR 1 / INR 4)) in *.
  set (q := Rpower 10000 (INR 2 / INR 4)) in *.
  assert (Hlt : (sin (INR 1 / q) < sin (INR 1 / p))%R).
  { simpl INR. apply sin_lt_on_unit.
    - apply Rdiv_lt_0_compat; lra.
    - unfold Rdiv. rewrite !Rmult_1_l. apply Rinv_lt_contravar; [nra | exact H2].
    - unfold Rdiv. rewrite Rmult_1_l. rewrite <- Rinv_1.
      apply Rinv_le_contravar; lra. }
  change (sin (INR 1 / q) = sin (INR 1 / p)) in Heq. lra.
Qed.

(** C9: the two textually duplicated definitions of
    [get_positional_embeddings] return the same result for every
    (sequence_length, d). *)
Theorem positional_embeddings_duplicate (sequence_length d : nat) :
  get_positional_embeddings_1 sequence_length d =
  get_positional_embeddings sequence_length d.
Proof. reflexivity. Qed.

(** ** MyMSA *)

Lemma wf_msa_ex : wf_MyMSA 1 1 msa_ex.
Proof.
  unfold wf_MyMSA, wf_Linear, msa_ex. cbn.
  repeat split; repeat constructor.
Qed.

(** C1 (the code departs from the claim): on one sequence of two tokens, with
    zero query and key mappings and the identity as value mapping,
    [MyMSA.forward] returns (Q·Kᵀ/sqrt(d_head))·V = 0 for both tokens, while
    softmax(Q·Kᵀ/sqrt(d_head))·V is 2 for both: the scores are not passed
    through the softmax. *)
Theorem MyMSA_forward_omits_softmax :
  MyMSA_forward msa_ex [seq_ex] = Ok [[[0%R]; [0%R]]] /\
  MyMSA_forward_spec msa_ex [seq_ex] = Ok [[[2%R]; [2%R]]] /\
  MyMSA_forward msa_ex [seq_ex] <> MyMSA_forward_spec msa_ex [seq_ex].
Proof.
  assert (Hcode : MyMSA_forward msa_ex [seq_ex] = Ok [[[0%R]; [0%R]]]).
  { cbn. rewrite sqrt_1. repeat f_equal; lra. }
  assert (Hspec : MyMSA_forward_spec msa_ex [seq_ex] = Ok [[[2%R]; [2%R]]]).
  { cbn. rewrite sqrt_1.
    repeat match goal with
           | |- context [exp ?a] => replace a with 0%R by lra; rewrite exp_0
           end.
    repeat f_equal; lra. }
  split; [exact Hcode|]. split; [exact Hspec|].
  rewrite Hcode, Hspec. intros [= H]. lra.
Qed.

(** ** Shapes through the layers *)

Lemma mapM_Ok {A B : Type} (f : A -> result B) (P : A -> Prop) (Q : B -> Prop)
    (l : list A) :
  Forall P l -> (forall x, P x -> exists y, f x = Ok y /\ Q y) ->
  exists ys, mapM f l = Ok ys /\ length ys = length l /\ Forall Q ys.
Proof.
  intros Hl Hf. induction Hl as [|x l Hx _ IH]; cbn.
  - exists []. repeat split. constructor.
  - destruct (Hf x Hx) as (y & Hy & HQ). destruct IH as (ys & Hys & Hlen & HQs).
    exists (y :: ys). rewrite Hy, bind_Ok, Hys, bind_Ok. cbn.
    repeat split; [congruence | constructor; assumption].
Qed.

Lemma Forall_zip_pair {A B : Type} (PA : A -> Prop) (PB : B -> Prop)
    (l : list A) (k : list B) :
  Forall PA l -> Forall PB k -> Forall (fun ab => PA ab.1 /\ PB ab.2) (zip l k).
Proof.
  intros Hl. revert k. induction Hl as [|a l Ha _ IH]; intros k Hk; cbn.
  - constructor.
  - destruct Hk as [|b k Hb Hk]; cbn; constructor; [split; assumption | apply IH, Hk].
Qed.

Lemma mapM2_Ok {A B C : Type} (f : A -> B -> result C) (PA : A -> Prop)
    (PB : B -> Prop) (Q : C -> Prop) (l : list A) (k : list B) :
  length l = length k -> Forall PA l -> Forall PB k ->
  (forall a b, PA a -> PB b -> exists c, f a b = Ok c /\ Q c) ->
  exists cs, mapM2 f l k = Ok cs /\ length cs = length l /\ Forall Q cs.
Proof.
  intros Hlen Hl Hk Hf. unfold mapM2. rewrite Hlen, Nat.eqb_refl.
  destruct (mapM_Ok (fun '(a, b) => f a b) (fun ab => PA ab.1 /\ PB ab.2) Q (zip l k))
    as (cs & Hcs & Hlcs & HQ).
  - apply Forall_zip_pair; assumption.
  - intros [a b] [Ha Hb]. apply Hf; assumption.
  - exists cs. split; [exact Hcs|]. split; [|exact HQ].
    rewrite Hlcs, length_zip_with. lia.
Qed.

Lemma Linear_forward1_Ok (n_in n_out : nat) (l : Linear) (x : list R) :
  wf_Linear n_in n_out l -> length x = n_in ->
  exists y, Linear_forward1 l x = Ok y /\ length y = n_out.
Proof.
  intros (Hin & _ & Hw & _ & Hb) Hx. unfold Linear_forward1.
  rewrite Hx, Hin, Nat.eqb_refl. eexists. split; [reflexivity|].
  rewrite length_zip_with. lia.
Qed.

Lemma Linear_forward2_Ok (n_in n_out L : nat) (l : Linear) (m : list (list R)) :
  wf_Linear n_in n_out l -> has_shape2 L n_in m ->
  exists y, Linear_forward2 l m = Ok y /\ has_shape2 L n_out y.
Proof.
  intros Hl [HL Hm].
  destruct (mapM_Ok (Linear_forward1 l) (fun row => length row = n_in)
              (fun row => length row = n_out) m Hm) as (y & Hy & Hlen & Hrows).
  - intros x Hx. apply (Linear_forward1_Ok n_in n_out); assumption.
  - exists y. split; [exact Hy|]. split; [congruence | exact Hrows].
Qed.

Lemma Linear_forward3_Ok (n_in n_out n L : nat) (l : Linear)
    (t : list (list (list R))) :
  wf_Linear n_in n_out l -> has_shape3 n L n_in t ->
  exists y, Linear_forward3 l t = Ok y /\ has_shape3 n L n_out y.
Proof.
  intros Hl [Hn Ht].
  destruct (mapM_Ok (Linear_forward2 l) (has_shape2 L n_in) (has_shape2 L n_out) t Ht)
    as (y & Hy & Hlen & Hrows).
  - intros m Hm. apply (Linear_forward2_Ok n_in n_out); assumption.
  - exists y. split; [exact Hy|]. split; [congruence | exact Hrows].
Qed.

Lemma LayerNorm_forward1_Ok (d : nat) (l : LayerNorm) (x : list R) :
  wf_LayerNorm d l -> length x = d ->
  exists y, LayerNorm_forward1 l x = Ok y /\ length y = d.
Proof.
  intros (Hn & Hw & Hb) Hx. unfold LayerNorm_forward1.
  rewrite Hx, Hn, Nat.eqb_refl. eexists. split; [reflexivity|].
  rewrite !length_zip_with. lia.
Qed.

Lemma LayerNorm_forward3_Ok (d n L : nat) (l : LayerNorm) (t : list (list (list R))) :
  wf_LayerNorm d l -> has_shape3 n L d t ->
  exists y, LayerNorm_forward3 l t = Ok y /\ has_shape3 n L d y.
Proof.
  intros Hl [Hn Ht].
  destruct (mapM_Ok (mapM (LayerNorm_forward1 l)) (has_shape2 L d) (has_shape2 L d) t Ht)
    as (y & Hy & Hlen & Hrows).
  - intros m [HL Hm].
    destruct (mapM_Ok (LayerNorm_forward1 l) (fun row => length row = d)
                (fun row => length row = d) m Hm) as (y & Hy & Hlen & Hrows).
    + intros x Hx. apply LayerNorm_forward1_Ok; assumption.
    + exists y. split; [exact Hy|]. split; [congruence | exact Hrows].
  - exists y. split; [exact Hy|]. split; [congruence | exact Hrows].
Qed.

Lemma add1_Ok (d : nat) (a b : list R) :
  length a = d -> length b = d -> exists c, add1 a b = Ok c /\ length c = d.
Proof.
  intros Ha Hb. unfold add1. rewrite Ha, Hb, Nat.eqb_refl.
  eexists. split; [reflexivity|]. rewrite length_zip_with. lia.
Qed.

Lemma add2_Ok (L d : nat) (a b : list (list R)) :
  has_shape2 L d a -> has_shape2 L d b ->
  exists c, add2 a b = Ok c /\ has_shape2 L d c.
Proof.
  intros [HLa Ha] [HLb Hb].
  destruct (mapM2_Ok add1 (fun r => length r = d) (fun r => length r = d)
              (fun r => length r = d) a b) as (c & Hc & Hlen & Hrows);
    [congruence | assumption | assumption | |].
  - intros x y Hx Hy. apply add1_Ok; assumption.
  - exists c. split; [exact Hc|]. split; [congruence | exact Hrows].
Qed.

Lemma add3_Ok (n L d : nat) (a b : list (list (list R))) :
  has_shape3 n L d a -> has_shape3 n L d b ->
  exists c, add3 a b = Ok c /\ has_shape3 n L d c.
Proof.
  intros [Hna Ha] [Hnb Hb].
  destruct (mapM2_Ok add2 (has_shape2 L d) (has_shape2 L d) (has_shape2 L d) a b)
    as (c & Hc & Hlen & Hrows); [congruence | assumption | assumption | |].
  - intros x y Hx Hy. apply add2_Ok; assumption.
  - exists c. split; [exact Hc|]. split; [congruence | exact Hrows].
Qed.

Lemma matmul_T_Ok (L L' d : nat) (a b : list (list R)) :
  has_shape2 L d a -> has_shape2 L' d b ->
  exists c, matmul_T a b = Ok c /\ has_shape2 L L' c.
Proof.
  intros [HL Ha] [HL' Hb].
  destruct (mapM_Ok
              (fun row => mapM (fun row' =>
                 if Nat.eqb (length row) (length row')
                 then Ok (dot row row') else Raise RuntimeError) b)
              (fun row => length row = d) (fun row => length row = L') a Ha)
    as (c & Hc & Hlen & Hrows).
  - intros row Hrow.
    destruct (mapM_Ok
                (fun row' => if Nat.eqb (length row) (length row')
                             then Ok (dot row row') else Raise RuntimeError)
                (fun row' => length row' = d) (fun _ => True) b Hb)
      as (r & Hr & Hlr & _).
    + intros row' Hrow'. rewrite Hrow, Hrow', Nat.eqb_refl. eexists. split; reflexivity.
    + exists r. split; [exact Hr | congruence].
  - exists c. split; [exact Hc|]. split; [congruence | exact Hrows].
Qed.

Lemma div_scalar_shape (L d : nat) (m : list (list R)) (x : R) :
  has_shape2 L d m -> has_shape2 L d (div_scalar m x).
Proof.
  intros [HL Hm]. unfold div_scalar. split; [rewrite length_fmap; exact HL|].
  rewrite Forall_fmap. eapply Forall_impl; [exact Hm|].
  intros row Hrow. cbn. rewrite length_fmap. exact Hrow.
Qed.

Lemma transpose_length (K d : nat) (b : list (list R)) :
  has_shape2 K d b -> (0 < K)%nat -> length (transpose b) = d.
Proof.
  intros [HK Hb] Hpos. destruct b as [|r b]; [cbn in HK; lia|].
  unfold transpose, range. rewrite length_fmap, length_seq.
  apply Forall_inv in Hb. exact Hb.
Qed.

Lemma matmul_Ok (L K d : nat) (a b : list (list R)) :
  has_shape2 L K a -> has_shape2 K d b -> (L = 0 \/ 0 < K)%nat ->
  exists c, matmul a b = Ok c /\ has_shape2 L d c.
Proof.
  intros [HL Ha] Hb HLK.
  destruct HLK as [-> | HK].
  - destruct a; [|discriminate]. exists []. split; [reflexivity|].
    split; [reflexivity | constructor].
  - destruct (mapM_Ok
                (fun row => if Nat.eqb (length row) (length b)
                            then Ok ((fun col => dot row col) <$> transpose b)
                            else Raise RuntimeError)
                (fun row => length row = K) (fun row => length row = d) a Ha)
      as (c & Hc & Hlen & Hrows).
    + intros row Hrow. rewrite Hrow, (proj1 Hb), Nat.eqb_refl.
      eexists. split; [reflexivity|].
      rewrite length_fmap. apply (transpose_length K); assumption.
    + exists c. split; [exact Hc|]. split; [congruence | exact Hrows].
Qed.

Lemma slice_cols_shape (L d lo hi : nat) (m : list (list R)) :
  has_shape2 L d m -> (lo <= hi)%nat -> (hi <= d)%nat ->
  has_shape2 L (hi - lo) (slice_cols m lo hi).
Proof.
  intros [HL Hm] Hlo Hhi. unfold slice_cols. split; [rewrite length_fmap; exact HL|].
  rewrite Forall_fmap. eapply Forall_impl; [exact Hm|].
  intros row Hrow. cbn in Hrow |- *. apply length_slice; lia.
Qed.

Lemma forallb_length_eq (L : nat) (ms : list (list (list R))) :
  Forall (fun m => length m = L) ms ->
  forallb (fun m' => Nat.eqb (length m') L) ms = true.
Proof.
  induction 1 as [|m ms Hm _ IH]; cbn; [reflexivity|].
  rewrite Hm, Nat.eqb_refl, IH. reflexivity.
Qed.

Lemma hstack_Ok (L d : nat) (ms : list (list (list R))) :
  Forall (has_shape2 L d) ms -> (0 < length ms)%nat ->
  exists c, hstack ms = Ok c /\ has_shape2 L (length ms * d) c.
Proof.
  intros Hms Hpos. destruct ms as [|m rest]; [cbn in Hpos; lia|].
  pose proof (Forall_inv Hms) as [HmL _].
  unfold hstack. rewrite HmL.
  rewrite (forallb_length_eq L rest).
  2:{ apply Forall_inv_tail in Hms. eapply Forall_impl; [exact Hms|].
      intros m' [Hm' _]. exact Hm'. }
  eexists. split; [reflexivity|]. unfold range.
  split; [rewrite length_fmap, length_seq; reflexivity|].
  rewrite Forall_fmap. apply Forall_forall. intros i Hi.
  apply elem_of_seq in Hi. cbn [compose].
  rewrite (length_concat_uniform d).
  - rewrite length_fmap. reflexivity.
  - rewrite Forall_fmap. eapply Forall_impl; [exact Hms|].
    intros m' [Hm'L Hm'rows]. cbn [compose].
    destruct (lookup_lt_is_Some_2 m' i ltac:(lia)) as [row Hrow].
    rewrite Hrow. cbn. exact (Forall_lookup_1 _ _ _ _ Hm'rows Hrow).
Qed.

Lemma concat_singletons {X : Type} (l : list X) : concat ((fun r => [r]) <$> l) = l.
Proof. induction l as [|x l IH]; cbn; [reflexivity | f_equal; exact IH]. Qed.

Lemma cat_unsqueezed_Ok (results : list (list (list R))) :
  (0 < length results)%nat -> cat_unsqueezed results = Ok results.
Proof.
  intros Hpos. destruct results as [|r rest]; [cbn in Hpos; lia|].
  unfold cat_unsqueezed. rewrite concat_singletons. reflexivity.
Qed.

Lemma Forall_range (n : nat) : Forall (fun k => (k < n)%nat) (range n).
Proof. apply Forall_forall. intros k Hk. apply elem_of_seq in Hk. lia. Qed.

Lemma getitem_Ok {X : Type} (P : X -> Prop) (l : list X) (i : nat) :
  Forall P l -> (i < length l)%nat -> exists x, getitem l i = Ok x /\ P x.
Proof.
  intros Hl Hi. destruct (lookup_lt_is_Some_2 l i Hi) as [x Hx].
  exists x. unfold getitem. rewrite Hx. split; [reflexivity|].
  exact (Forall_lookup_1 _ _ _ _ Hl Hx).
Qed.

Lemma MyMSA_head_Ok (d n_heads L : nat) (self : MyMSA) (sequence : list (list R))
    (head : nat) :
  wf_MyMSA d n_heads self -> has_shape2 L d sequence -> (head < n_heads)%nat ->
  exists o,
    (q_mapping ← getitem (q_mappings self) head;
     k_mapping ← getitem (k_mappings self) head;
     v_mapping ← getitem (v_mappings self) head;
     let seq := slice_cols sequence (head * msa_d_head self)
                  ((head + 1) * msa_d_head self) in
     q ← Linear_forward2 q_mapping seq;
     k ← Linear_forward2 k_mapping seq;
     v ← Linear_forward2 v_mapping seq;
     qk ← matmul_T q k;
     let attention := div_scalar qk (sqrt (INR (msa_d_head self))) in
     matmul attention v) = Ok o /\
    has_shape2 L (d / n_heads) o.
Proof.
  intros (_ & _ & Hmod & Hdh & Hq & Hk & Hv & Hwq & Hwk & Hwv) Hseq Hhead.
  destruct (py_mod_zero d n_heads Hmod) as [Hpos Hd].
  rewrite Hdh. set (dh := (d / n_heads)%nat) in *.
  destruct (getitem_Ok _ (q_mappings self) head Hwq ltac:(lia)) as (qm & -> & Hqm).
  destruct (getitem_Ok _ (k_mappings self) head Hwk ltac:(lia)) as (km & -> & Hkm).
  destruct (getitem_Ok _ (v_mappings self) head Hwv ltac:(lia)) as (vm & -> & Hvm).
  rewrite !bind_Ok. cbv zeta.
  assert (Hslice : has_shape2 L dh (slice_cols sequence (head * dh) ((head + 1) * dh))).
  { replace dh with ((head + 1) * dh - head * dh)%nat at 1 by lia.
    apply (slice_cols_shape L d); [exact Hseq | lia | nia]. }
  destruct (Linear_forward2_Ok dh dh L qm _ Hqm Hslice) as (q & -> & Hqs).
  destruct (Linear_forward2_Ok dh dh L km _ Hkm Hslice) as (k & -> & Hks).
  destruct (Linear_forward2_Ok dh dh L vm _ Hvm Hslice) as (v & -> & Hvs).
  rewrite !bind_Ok.
  destruct (matmul_T_Ok L L dh q k Hqs Hks) as (qk & -> & Hqk).
  rewrite bind_Ok.
  apply (matmul_Ok L L dh); [apply div_scalar_shape; exact Hqk | exact Hvs | lia].
Qed.

Lemma MyMSA_forward_Ok (d n_heads n L : nat) (self : MyMSA)
    (sequences : list (list (list R))) :
  wf_MyMSA d n_heads self -> has_shape3 n L d sequences -> (0 < n)%nat ->
  exists y, MyMSA_forward self sequences = Ok y /\ has_shape3 n L d y.
Proof.
  intros Hwf [Hn Hseqs] Hpos.
  pose proof Hwf as (_ & Hnh & Hmod & _).
  destruct (py_mod_zero d n_heads Hmod) as [Hhpos Hd].
  unfold MyMSA_forward.
  match goal with
  | |- exists y, (results ← mapM ?f sequences; _) = _ /\ _ =>
    destruct (mapM_Ok f (has_shape2 L d) (has_shape2 L d) sequences Hseqs)
      as (results & Hres & Hlen & Hshapes)
  end.
  - intros sequence Hseq. rewrite Hnh.
    match goal with
    | |- exists y, (seq_result ← mapM ?g (range n_heads); _) = _ /\ _ =>
      destruct (mapM_Ok g (fun k => (k < n_heads)%nat) (has_shape2 L (d / n_heads))
                  (range n_heads) (Forall_range n_heads))
        as (seq_result & Hsr & Hlsr & Hssr)
    end.
    + intros head Hhead. apply (MyMSA_head_Ok d n_heads L); assumption.
    + rewrite Hsr, bind_Ok.
      unfold range in Hlsr. rewrite length_seq in Hlsr.
      destruct (hstack_Ok L (d / n_heads) seq_result Hssr ltac:(lia)) as (c & Hc & Hcs).
      exists c. split; [exact Hc|].
      replace (length seq_result * (d / n_heads))%nat with d in Hcs by lia.
      exact Hcs.
  - rewrite Hres, bind_Ok. rewrite cat_unsqueezed_Ok by lia.
    exists results. split; [reflexivity|]. split; [congruence | exact Hshapes].
Qed.

(** ** Softmax *)

Lemma sum_exp_pos (v : list R) : v <> [] -> (0 < sum (exp <$> v))%R.
Proof.
  intros Hv. destruct v as [|a v]; [contradiction|]. clear Hv.
  revert a. induction v as [|b v IH]; intros a; cbn.
  - pose proof (exp_pos a). lra.
  - pose proof (exp_pos a). specialize (IH b). cbn in IH. lra.
Qed.

Lemma sum_fmap_div (f : R -> R) (t : R) (v : list R) :
  sum ((fun a => f a / t)%R <$> v) = (sum (f <$> v) / t)%R.
Proof.
  induction v as [|a v IH]; cbn.
  - lra.
  - unfold sum in IH. rewrite IH. lra.
Qed.

Lemma softmax_length (v : list R) : length (softmax v) = length v.
Proof. unfold softmax. apply length_fmap. Qed.

Lemma softmax_distribution (v : list R) : v <> [] -> is_distribution (softmax v).
Proof.
  intros Hv. pose proof (sum_exp_pos v Hv) as Hpos. unfold softmax. split.
  - rewrite Forall_fmap. apply Forall_forall. intros a _. cbn.
    apply Rlt_le, Rdiv_lt_0_compat; [apply exp_pos | exact Hpos].
  - rewrite (sum_fmap_div exp). field. lra.
Qed.

(** ** MyViTBlock and MyViT *)

Lemma gelu_shape (gelu : R -> R) (n L d : nat) (t : list (list (list R))) :
  has_shape3 n L d t ->
  has_shape3 n L d
    ((fun sequence : list (list R) =>
        (fun token : list R => gelu <$> token) <$> sequence) <$> t).
Proof.
  intros [Hn Ht]. split; [rewrite length_fmap; exact Hn|].
  rewrite Forall_fmap. eapply Forall_impl; [exact Ht|].
  intros m [HL Hm]. cbn. split; [rewrite length_fmap; exact HL|].
  rewrite Forall_fmap. eapply Forall_impl; [exact Hm|].
  intros row Hrow. cbn. rewrite length_fmap. exact Hrow.
Qed.

Lemma MyViTBlock_forward_Ok (gelu : R -> R) (hidden_d n_heads n L : nat)
    (b : MyViTBlock) (x : list (list (list R))) :
  wf_MyViTBlock hidden_d n_heads b -> has_shape3 n L hidden_d x -> (0 < n)%nat ->
  exists y, MyViTBlock_forward gelu b x = Ok y /\ has_shape3 n L hidden_d y.
Proof.
  intros (_ & _ & Hn1 & Hmsa & Hn2 & Hfc1 & Hfc2) Hx Hpos.
  unfold MyViTBlock_forward.
  destruct (LayerNorm_forward3_Ok _ n L _ x Hn1 Hx) as (n1 & -> & Hs1). rewrite bind_Ok.
  destruct (MyMSA_forward_Ok _ _ n L _ n1 Hmsa Hs1 Hpos) as (a & -> & Hsa). rewrite bind_Ok.
  destruct (add3_Ok n L _ x a Hx Hsa) as (out & -> & Hso). rewrite bind_Ok.
  destruct (LayerNorm_forward3_Ok _ n L _ out Hn2 Hso) as (n2 & -> & Hs2). rewrite bind_Ok.
  unfold MyViTBlock_mlp.
  destruct (Linear_forward3_Ok _ _ n L _ n2 Hfc1 Hs2) as (h & -> & Hsh). rewrite bind_Ok.
  destruct (Linear_forward3_Ok _ _ n L _ _ Hfc2 (gelu_shape gelu n L _ h Hsh))
    as (m & -> & Hsm).
  rewrite bind_Ok. apply add3_Ok; assumption.
Qed.

Lemma cat_rows_Ok (L1 L2 d : nat) (a b : list (list R)) :
  has_shape2 L1 d a -> has_shape2 L2 d b ->
  exists c, cat_rows a b = Ok c /\ has_shape2 (L1 + L2) d c.
Proof.
  intros [HL1 Ha] [HL2 Hb].
  assert (Hab : Forall (fun row => length row = d) (a ++ b))
    by (apply Forall_app; split; assumption).
  assert (Hlen : length (a ++ b) = (L1 + L2)%nat) by (rewrite length_app; lia).
  unfold cat_rows. destruct (a ++ b) as [|r rest] eqn:E.
  - exists []. split; [reflexivity|]. split; [exact Hlen | constructor].
  - pose proof (Forall_inv Hab) as Hr. pose proof (Forall_inv_tail Hab) as Hrest.
    replace (forallb (fun r' => Nat.eqb (length r') (length r)) rest) with true.
    + exists (r :: rest). split; [reflexivity|]. split; assumption.
    + symmetry. apply forallb_forall. intros r' Hr'.
      apply Nat.eqb_eq. rewrite Hr.
      rewrite Forall_forall in Hrest. apply Hrest. apply list_elem_of_In. exact Hr'.
Qed.

Lemma patches_inv_shape {A : Type} (images : list (list (list (list A))))
    (n c s np : nat) (W : nat -> nat -> Prop) (patches : list (list (list A))) :
  patches_inv images n c s np W patches ->
  length patches = n /\
  Forall (fun seqs => length seqs = (np ^ 2)%nat /\
                      Forall (fun row => length row = (c * s * s)%nat) seqs) patches.
Proof.
  intros [Hn Hrows]. split; [exact Hn|].
  apply Forall_lookup_2. intros idx seqs Hseqs.
  destruct (Hrows idx seqs Hseqs) as [Hl Hrow]. split; [exact Hl|].
  apply Forall_lookup_2. intros p row Hp. exact (proj1 (Hrow p row Hp)).
Qed.

Lemma blocks_Ok (gelu : R -> R) (hidden_d n_heads n L : nat)
    (bs : list MyViTBlock) (x : list (list (list R))) :
  Forall (wf_MyViTBlock hidden_d n_heads) bs -> has_shape3 n L hidden_d x ->
  (0 < n)%nat \/ bs = [] ->
  exists y,
    for_each bs (fun block out => MyViTBlock_forward gelu block out) x = Ok y /\
    has_shape3 n L hidden_d y.
Proof.
  intros Hbs Hx [Hpos | ->].
  - destruct (for_each_invariant (fun _ out => has_shape3 n L hidden_d out) bs
                (fun block out => MyViTBlock_forward gelu block out) x Hx)
      as (y & Hy & Hsy).
    + intros k b t Hk Ht.
      apply (MyViTBlock_forward_Ok gelu hidden_d n_heads); [|assumption..].
      exact (Forall_lookup_1 _ _ _ _ Hbs Hk).
    + exists y. split; assumption.
  - exists x. split; [reflexivity | exact Hx].
Qed.

Lemma MyViT_class_tokens_Ok (gelu : R -> R) (out_d : nat) (self : MyViT)
    (x : Tensor4) (n c h w : nat) :
  wf_MyViT out_d self -> chw self = (c, h, w) -> shape x = (n, c, h, w) ->
  wf_tensor4 x -> h = w -> (0 < n)%nat \/ blocks self = [] ->
  exists cls,
    MyViT_class_tokens gelu self x = Ok cls /\ has_shape2 n (hidden_d self) cls.
Proof.
  intros Hwf Hchw Hshape Hx Hhw Hne. unfold wf_MyViT in Hwf. rewrite Hchw in Hwf.
  destruct Hwf as (Hmod & _ & Hin & Hmap & Hct1 & Hct & Hpos & _ & Hblocks & _).
  subst w. set (np := n_patches self) in *. set (hd := hidden_d self) in *.
  unfold MyViT_class_tokens. rewrite Hshape. fold np.
  destruct (patchify_inv 0%R x n c h h np Hshape Hx eq_refl Hmod) as (patches & -> & Hinv).
  rewrite bind_Ok.
  apply patches_inv_shape in Hinv.
  assert (Hps : has_shape3 n (np ^ 2) (input_d self) patches).
  { rewrite Hin. exact Hinv. }
  destruct (Linear_forward3_Ok _ _ n _ _ patches Hmap Hps) as (tokens & -> & Hts).
  rewrite bind_Ok.
  destruct (mapM2_Ok cat_rows (has_shape2 1 hd) (has_shape2 (np ^ 2) hd)
              (has_shape2 (np ^ 2 + 1) hd) (replicate n (class_token self)) tokens)
    as (tokens' & -> & Hlt & Hts').
  { rewrite length_replicate. symmetry. exact (proj1 Hts). }
  { apply Forall_replicate. split; assumption. }
  { exact (proj2 Hts). }
  { intros a b Ha Hb. destruct (cat_rows_Ok 1 (np ^ 2) hd a b Ha Hb) as (cc & Hc & Hcs).
    exists cc. split; [exact Hc|]. rewrite Nat.add_comm. exact Hcs. }
  rewrite bind_Ok. rewrite length_replicate in Hlt.
  destruct (positional_embeddings_inv (np ^ 2 + 1) hd) as (pos & Hpos' & Hpinv).
  rewrite Hpos in Hpos'. injection Hpos' as <-.
  assert (Hpshape : has_shape2 (np ^ 2 + 1) hd (positional_embeddings self)).
  { split; [exact (proj1 Hpinv)|]. apply Forall_lookup_2.
    intros i row Hi. exact (proj1 (proj2 Hpinv i row Hi)). }
  destruct (add3_Ok n (np ^ 2 + 1) hd tokens' (replicate n (positional_embeddings self)))
    as (out & -> & Hout).
  { split; assumption. }
  { split; [apply length_replicate | apply Forall_replicate; exact Hpshape]. }
  rewrite bind_Ok.
  destruct (blocks_Ok gelu hd (n_heads self) n (np ^ 2 + 1) (blocks self) out
              Hblocks Hout Hne) as (out' & -> & Hout').
  rewrite bind_Ok.
  destruct (mapM_Ok (fun sequence : list (list R) => getitem sequence 0)
              (has_shape2 (np ^ 2 + 1) hd) (fun token => length token = hd) out'
              (proj2 Hout')) as (cls & Hcls & Hlc & Hcs).
  { intros sequence [HL Hrows].
    apply (getitem_Ok (fun token => length token = hd)); [exact Hrows | lia]. }
  exists cls. split; [exact Hcls|]. split; [|exact Hcs].
  rewrite Hlc. exact (proj1 Hout').
Qed.

Lemma wf_zero_Linear (n_in n_out : nat) : wf_Linear n_in n_out (zero_Linear n_in n_out).
Proof.
  unfold wf_Linear, zero_Linear. cbn. repeat split.
  - apply length_replicate.
  - apply Forall_replicate, length_replicate.
  - apply length_replicate.
Qed.

Lemma wf_unit_LayerNorm (d : nat) : wf_LayerNorm d (unit_LayerNorm d).
Proof. unfold wf_LayerNorm, unit_LayerNorm. cbn. repeat split; apply length_replicate. Qed.

Lemma wf_block_ex : wf_MyViTBlock 8 2 block_ex.
Proof.
  unfold wf_MyViTBlock, block_ex. cbn.
  repeat split; try apply wf_unit_LayerNorm; try apply wf_zero_Linear;
    repeat constructor; apply (wf_zero_Linear 4 4).
Qed.

Lemma wf_vit_ex : wf_MyViT 3 vit_ex.
Proof.
  unfold wf_MyViT, vit_ex. cbn [chw n_patches input_d hidden_d linear_mapper
    class_token positional_embeddings blocks n_blocks n_heads mlp_linear].
  repeat split; try reflexivity; try apply wf_zero_Linear.
  - repeat constructor.
  - destruct (positional_embeddings_inv 5 8) as (t & Ht & _).
    change (2 ^ 2 + 1)%nat with 5%nat. rewrite Ht. reflexivity.
  - constructor; [exact wf_block_ex | constructor].
Qed.

(** C3 (amended): for a classifier as [__init__] builds it with at least
    one output class, and a non-empty batch of square images of the
    constructed size (or any such batch when there are no transformer
    blocks), [MyViT.forward] returns the row-wise softmax of the linear
    layer applied to the transformed classification tokens: an N×out_d
    array whose rows are probability distributions — every entry
    non-negative, every row summing to 1. *)
Theorem MyViT_forward_distribution (gelu : R -> R) (out_d : nat) (self : MyViT)
    (x : Tensor4) (n c h w : nat) :
  wf_MyViT out_d self -> chw self = (c, h, w) -> shape x = (n, c, h, w) ->
  wf_tensor4 x -> h = w -> (0 < n)%nat \/ blocks self = [] -> (0 < out_d)%nat ->
  exists cls logits,
    MyViT_class_tokens gelu self x = Ok cls /\
    Linear_forward2 (mlp_linear self) cls = Ok logits /\
    MyViT_forward gelu self x = Ok (Softmax logits) /\
    length (Softmax logits) = n /\
    Forall (fun row => length row = out_d /\ is_distribution row) (Softmax logits).
Proof.
  intros Hwf Hchw Hshape Hx Hhw Hne Hout.
  destruct (MyViT_class_tokens_Ok gelu out_d self x n c h w Hwf Hchw Hshape Hx Hhw Hne)
    as (cls & Hcls & Hcs).
  unfold wf_MyViT in Hwf. rewrite Hchw in Hwf.
  destruct Hwf as (_ & _ & _ & _ & _ & _ & _ & _ & _ & Hmlp).
  destruct (Linear_forward2_Ok _ _ n _ cls Hmlp Hcs) as (logits & Hlogits & [Hln Hls]).
  exists cls, logits. split; [exact Hcls|]. split; [exact Hlogits|]. split.
  - assert (Heq : MyViT_forward gelu self x =
                  (out ← MyViT_class_tokens gelu self x; MyViT_mlp self out)).
    { unfold MyViT_forward, MyViT_class_tokens.
      destruct (shape x) as [[[n' c'] h'] w'].
      destruct (patchify 0%R x (n_patches self)); [|reflexivity]. rewrite !bind_Ok.
      destruct (Linear_forward3 _ _); [|reflexivity]. rewrite !bind_Ok.
      destruct (mapM2 _ _ _); [|reflexivity]. rewrite !bind_Ok.
      destruct (add3 _ _); [|reflexivity]. rewrite !bind_Ok.
      destruct (for_each _ _ _); reflexivity. }
    rewrite Heq, Hcls, bind_Ok. unfold MyViT_mlp. rewrite Hlogits. reflexivity.
  - unfold Softmax. split; [rewrite length_fmap; exact Hln|].
    rewrite Forall_fmap. eapply Forall_impl; [exact Hls|].
    intros row Hrow. cbn in Hrow |- *. split; [rewrite softmax_length; exact Hrow|].
    apply softmax_distribution. intros ->. cbn in Hrow. lia.
Qed.

Lemma MyViT_forward_distribution_witness :
  exists preds,
    MyViT_forward (fun a => a) vit_ex batch_ex = Ok preds /\
    length preds = 1%nat /\
    Forall (fun row => length row = 3%nat /\ is_distribution row) preds.
Proof.
  destruct (MyViT_forward_distribution (fun a => a) 3 vit_ex batch_ex 1 1 4 4)
    as (cls & logits & _ & _ & Hrun & Hlen & Hrows).
  - exact wf_vit_ex.
  - reflexivity.
  - reflexivity.
  - cbn. repeat constructor.
  - reflexivity.
  - left. lia.
  - lia.
  - exists (Softmax logits). repeat split; assumption.
Defined.

(** C3 as stated fails on the empty batch: with one transformer block the
    forward pass raises, in [MyMSA.forward], where [torch.cat] receives an
    empty list. *)
Lemma MyViT_forward_empty_batch_counterexample :
  wf_MyViT 3 vit_ex /\ wf_tensor4 batch_empty /\
  MyViT_forward (fun a => a) vit_ex batch_empty = Raise RuntimeError.
Proof.
  split; [exact wf_vit_ex|]. split; [cbn; split; [reflexivity | constructor]|].
  reflexivity.
Qed.

(** ** Trainer *)

Lemma chunks_spec {Y : Type} (k m : nat) (l : list Y) :
  length l = (k * m)%nat ->
  length (chunks k m l) = k /\
  Forall (fun piece => length piece = m) (chunks k m l) /\
  forall r piece, chunks k m l !! r = Some piece ->
    (r < k)%nat /\ piece = slice (r * m) ((r + 1) * m) l /\
    forall q, (q < m)%nat -> piece !! q = l !! (r * m + q)%nat.
Proof.
  intros Hl. unfold chunks, range. split; [rewrite length_fmap, length_seq; reflexivity|].
  split.
  - rewrite Forall_fmap. apply Forall_forall. intros r Hr.
    apply elem_of_seq in Hr. cbn. rewrite length_slice; nia.
  - intros r piece. rewrite list_lookup_fmap.
    destruct (seq 0 k !! r) as [r'|] eqn:Hr; [|discriminate].
    apply lookup_seq in Hr. destruct Hr as [-> Hr]. cbn. intros [= <-].
    split; [exact Hr|]. split; [reflexivity|].
    intros q Hq. apply lookup_slice. lia.
Qed.

Section TrainerProofs.
Context {X : Type}.
Variables (N s : nat) (data : Array2 X).
Hypothesis Hshape : shape2 data = (N, s * s)%nat.
Hypothesis Hwf : wf_array2 data.

Lemma reshape4_Ok :
  exists t,
    reshape4 data N 1 s s = Ok t /\
    shape t = (N, 1, s, s)%nat /\ wf_tensor4 t /\
    forall idx r q, (idx < N)%nat -> (r < s)%nat -> (q < s)%nat ->
      (image ← elems t !! idx; ch ← image !! 0%nat; row ← ch !! r; row !! q) =
      (row ← rows2 data !! idx; row !! (r * s + q)%nat).
Proof.
  unfold wf_array2 in Hwf. rewrite Hshape in Hwf. destruct Hwf as [Hrows Hcols].
  unfold reshape4. rewrite Hshape.
  replace (N * 1 * s * s)%nat with (N * (s * s))%nat by lia. rewrite Nat.eqb_refl.
  eexists. split; [reflexivity|]. split; [reflexivity|].
  assert (Hflat : length (concat (rows2 data)) = (N * (1 * s * s))%nat).
  { rewrite (length_concat_uniform (s * s)) by exact Hcols. lia. }
  destruct (chunks_spec N (1 * s * s) _ Hflat) as (Hn & Himgs & Himg).
  assert (Hper : forall idx image,
            chunks N (1 * s * s) (concat (rows2 data)) !! idx = Some image ->
            length (chunks 1 (s * s) image) = 1%nat /\
            Forall (fun piece => length piece = (s * s)%nat) (chunks 1 (s * s) image) /\
            forall r piece, chunks 1 (s * s) image !! r = Some piece ->
              (r < 1)%nat /\ piece = slice (r * (s * s)) ((r + 1) * (s * s)) image /\
              forall q, (q < s * s)%nat -> piece !! q = image !! (r * (s * s) + q)%nat).
  { intros idx image Hidx. apply chunks_spec.
    pose proof (Forall_lookup_1 _ _ _ _ Himgs Hidx) as Hl. cbn in Hl. lia. }
  split.
  - unfold wf_tensor4. cbn [shape elems]. split; [rewrite length_fmap; exact Hn|].
    rewrite Forall_fmap. apply Forall_lookup_2. intros idx image Hidx.
    unfold compose. cbv beta.
    destruct (Hper idx image Hidx) as (Hc & Hchs & _).
    split; [rewrite length_fmap; exact Hc|].
    rewrite Forall_fmap. eapply Forall_impl; [exact Hchs|].
    intros ch Hch. unfold compose. cbv beta in Hch |- *.
    destruct (chunks_spec s s ch Hch) as (Hh & Hws & _). split; assumption.
  - intros idx r q Hidx Hr Hq. cbn [elems]. rewrite list_lookup_fmap.
    destruct (lookup_lt_is_Some_2 (chunks N (1 * s * s) (concat (rows2 data))) idx
                ltac:(lia)) as [image Himage].
    rewrite Himage. cbn [fmap option_fmap option_map mbind option_bind].
    destruct (Himg idx image Himage) as (_ & _ & Hiq).
    destruct (Hper idx image Himage) as (Hc & Hchs & Hch).
    rewrite list_lookup_fmap.
    destruct (lookup_lt_is_Some_2 (chunks 1 (s * s) image) 0 ltac:(lia)) as [ch Hch0].
    rewrite Hch0. cbn [fmap option_fmap option_map mbind option_bind].
    destruct (Hch 0%nat ch Hch0) as (_ & _ & Hchq).
    pose proof (Forall_lookup_1 _ _ _ _ Hchs Hch0) as Hlch. cbn in Hlch.
    destruct (chunks_spec s s ch Hlch) as (Hh & _ & Hrowq).
    destruct (lookup_lt_is_Some_2 (chunks s s ch) r ltac:(lia)) as [row Hrow].
    rewrite Hrow. cbn [mbind option_bind].
    destruct (Hrowq r row Hrow) as (_ & _ & Hq').
    rewrite (Hq' q Hq), (Hchq (r * s + q)%nat) by nia.
    rewrite (Hiq (0 * (s * s) + (r * s + q))%nat) by nia.
    replace (idx * (1 * s * s) + (0 * (s * s) + (r * s + q)))%nat
      with (idx * (s * s) + (r * s + q))%nat by lia.
    apply lookup_concat_uniform; [exact Hcols | nia].
Qed.
End TrainerProofs.

(** C10: for a Trainer whose model is a CNN or a MyViT and an input array
    of shape (N,D), [fit] and [predict] take s = int(√D), raise an
    AssertionError when D is not a perfect square, and otherwise hand the
    torch side the data reshaped to (N,1,s,s) — one channel, entry (r,q) of
    image idx being entry r·s+q of row idx; the caller passes the array (and
    for [fit] the labels) only. *)
Theorem Trainer_infers_square_images {X : Type} (CNN MLP Labels : Type)
    (train_all : Trainer CNN MLP -> Input -> Labels -> result (Trainer CNN MLP))
    (predict_torch : Trainer CNN MLP -> Input -> result Labels)
    (self : Trainer CNN MLP) (data : Array2 X) (labels : Labels) (N D : nat) :
  needs_image CNN MLP (model CNN MLP self) -> shape2 data = (N, D) -> wf_array2 data ->
  ((forall k, (k * k)%nat <> D) ->
     fit CNN MLP Labels train_all predict_torch self data labels = Raise AssertionError /\
     predict CNN MLP Labels predict_torch self data = Raise AssertionError) /\
  ((Nat.sqrt D * Nat.sqrt D)%nat = D ->
     exists t,
       shape t = (N, 1, Nat.sqrt D, Nat.sqrt D)%nat /\ wf_tensor4 t /\
       (forall idx r q, (idx < N)%nat -> (r < Nat.sqrt D)%nat -> (q < Nat.sqrt D)%nat ->
          (image ← elems t !! idx; ch ← image !! 0%nat; row ← ch !! r; row !! q) =
          (row ← rows2 data !! idx; row !! (r * Nat.sqrt D + q)%nat)) /\
       predict CNN MLP Labels predict_torch self data = predict_torch self (Input4 t) /\
       fit CNN MLP Labels train_all predict_torch self data labels =
         (self' ← train_all self (Input4 t) labels;
          pred_labels ← predict CNN MLP Labels predict_torch self' data;
          Ok (self', pred_labels))).
Proof.
  intros Hmodel Hshape Hwf. split.
  - intros Hsq. unfold fit, predict. rewrite Hshape.
    destruct (Nat.eqb_spec (Nat.sqrt D * Nat.sqrt D) D) as [He|_];
      [exfalso; exact (Hsq _ He)|].
    destruct (model CNN MLP self); [| destruct Hmodel |]; split; reflexivity.
  - intros Hsq. set (s := Nat.sqrt D) in *.
    assert (Hshape' : shape2 data = (N, s * s)%nat) by (rewrite Hsq; exact Hshape).
    destruct (reshape4_Ok N s data Hshape' Hwf) as (t & Ht & Hst & Hwt & Hentries).
    exists t. split; [exact Hst|]. split; [exact Hwt|]. split; [exact Hentries|].
    unfold fit, predict. rewrite Hshape. fold s. rewrite Hsq, Nat.eqb_refl.
    cbn [py_assert]. rewrite !bind_Ok, Ht, !bind_Ok.
    destruct (model CNN MLP self); [| destruct Hmodel |]; split; reflexivity.
Qed.

(** ** Sums, products and the covariance matrix *)

Lemma sum_nil : sum [] = 0%R.
Proof. reflexivity. Qed.

Lemma sum_cons (a : R) (l : list R) : sum (a :: l) = (a + sum l)%R.
Proof. reflexivity. Qed.

Lemma sum_app (l k : list R) : sum (l ++ k) = (sum l + sum k)%R.
Proof.
  induction l as [|a l IH]; cbn [app].
  - rewrite sum_nil. lra.
  - rewrite !sum_cons, IH. lra.
Qed.

Lemma sum_reverse (l : list R) : sum (reverse l) = sum l.
Proof.
  induction l as [|a l IH]; [reflexivity|].
  rewrite reverse_cons, sum_app, IH, !sum_cons, sum_nil. lra.
Qed.

Lemma sum_nonneg (l : list R) : Forall (fun a => 0 <= a)%R l -> (0 <= sum l)%R.
Proof.
  induction 1 as [|a l Ha _ IH]; [rewrite sum_nil; lra|]. rewrite sum_cons. lra.
Qed.

Lemma sum_take_le (d : nat) (l : list R) :
  Forall (fun a => 0 <= a)%R l -> (0 <= sum (take d l) <= sum l)%R.
Proof.
  intros Hl. revert d. induction Hl as [|a l Ha Hl IH]; intros d.
  - destruct d; cbn [take]; rewrite sum_nil; lra.
  - destruct d as [|d]; cbn [take].
    + pose proof (sum_nonneg l Hl). rewrite sum_cons, sum_nil. lra.
    + specialize (IH d). rewrite !sum_cons. lra.
Qed.

Lemma dot_nil_r (u : list R) : dot u [] = 0%R.
Proof. destruct u; reflexivity. Qed.

Lemma dot_cons (a b : R) (u v : list R) : dot (a :: u) (b :: v) = (a * b + dot u v)%R.
Proof. reflexivity. Qed.

Lemma dot_comm (u v : list R) : dot u v = dot v u.
Proof.
  revert v. induction u as [|a u IH]; intros v.
  - rewrite dot_nil_r. reflexivity.
  - destruct v as [|b v]; [reflexivity|]. rewrite !dot_cons, IH. lra.
Qed.

Lemma dot_self_nonneg (u : list R) : (0 <= dot u u)%R.
Proof.
  induction u as [|a u IH]; [cbn; lra|]. rewrite dot_cons. nra.
Qed.

Lemma dot_replicate_0 (n : nat) (u : list R) : dot u (replicate n 0%R) = 0%R.
Proof.
  revert n. induction u as [|a u IH]; intros n; [reflexivity|].
  destruct n as [|n]; [reflexivity|]. cbn [replicate]. rewrite dot_cons, IH. lra.
Qed.

Lemma dot_scale_r (c : R) (u x : list R) :
  dot u ((fun a => c * a)%R <$> x) = (c * dot u x)%R.
Proof.
  revert x. induction u as [|a u IH]; intros x; [cbn; lra|].
  destruct x as [|b x]; [cbn; lra|]. cbn [fmap list_fmap]. rewrite !dot_cons, IH. lra.
Qed.

Lemma dot_add_r (u x y : list R) :
  length x = length y ->
  dot u (zip_with Rplus x y) = (dot u x + dot u y)%R.
Proof.
  revert x y. induction u as [|a u IH]; intros x y Hxy; [cbn; lra|].
  destruct x as [|b x], y as [|c y]; try discriminate; [cbn; lra|].
  cbn [zip_with]. rewrite !dot_cons, IH by (cbn in Hxy; lia). lra.
Qed.

Lemma length_lincomb (n : nat) (v : list R) (X : list (list R)) :
  Forall (fun row => length row = n) X -> length (lincomb n v X) = n.
Proof.
  intros HX. revert v. induction HX as [|x X Hx _ IH]; intros v.
  - unfold lincomb. destruct v; cbn; apply length_replicate.
  - destruct v as [|c v]; [apply length_replicate|].
    unfold lincomb in *. cbn [zip zip_with foldr fst snd].
    rewrite length_zip_with, length_fmap, IH, Hx. lia.
Qed.

Lemma dot_lincomb (n : nat) (u v : list R) (X : list (list R)) :
  Forall (fun row => length row = n) X ->
  dot (dot u <$> X) v = dot u (lincomb n v X).
Proof.
  intros HX. revert v. induction HX as [|x X Hx HX IH]; intros v.
  - unfold lincomb. destruct v; cbn [fmap list_fmap zip zip_with foldr];
      rewrite dot_replicate_0; reflexivity.
  - destruct v as [|c v].
    + unfold lincomb. cbn [zip zip_with foldr]. rewrite dot_nil_r, dot_replicate_0.
      reflexivity.
    + cbn [fmap list_fmap]. rewrite dot_cons, IH.
      unfold lincomb. cbn [zip zip_with foldr fst snd].
      rewrite dot_add_r.
      * rewrite dot_scale_r. fold (lincomb n v X). lra.
      * rewrite length_fmap, Hx. symmetry. apply (length_lincomb n v X HX).
Qed.

Lemma dot_fmap_scale {A : Type} (f : A -> R) (k : R) (X : list A) (v : list R) :
  dot ((fun x => f x * k)%R <$> X) v = (k * dot (f <$> X) v)%R.
Proof.
  revert v. induction X as [|x X IH]; intros v; [cbn; lra|].
  destruct v as [|c v]; [cbn; lra|].
  cbn [fmap list_fmap]. rewrite !dot_cons, IH. lra.
Qed.

Lemma gram_quadratic (n : nat) (k : R) (v : list R) (X : list (list R)) :
  Forall (fun row => length row = n) X ->
  dot v (mat_vec (gram k X) v)
  = (k * dot (lincomb n v X) (lincomb n v X))%R.
Proof.
  intros HX. set (w := lincomb n v X).
  assert (Hrows : mat_vec (gram k X) v = (fun r1 => dot w r1 * k)%R <$> X).
  { unfold mat_vec, gram. rewrite <- list_fmap_compose.
    apply list_fmap_ext. intros i r1 _. cbn [compose].
    rewrite (dot_fmap_scale (dot r1)), (dot_lincomb n r1 v X HX). fold w.
    rewrite (dot_comm r1 w). lra. }
  rewrite Hrows, dot_comm, (dot_fmap_scale (dot w)), (dot_lincomb n w v X HX).
  reflexivity.
Qed.

Lemma dot_scale_self (lambda : R) (v : list R) :
  dot v (scale lambda v) = (lambda * dot v v)%R.
Proof. unfold scale. apply dot_scale_r. Qed.

Lemma eigenvalue_of_gram_nonneg (n : nat) (k lambda : R) (v : list R)
    (X : list (list R)) :
  (0 <= k)%R -> Forall (fun row => length row = n) X ->
  is_eigenpair (gram k X) lambda v -> (0 <= lambda)%R.
Proof.
  intros Hk HX [Heq Hunit].
  pose proof (gram_quadratic n k v X HX) as Hq.
  rewrite Heq, dot_scale_self, Hunit in Hq.
  pose proof (dot_self_nonneg (lincomb n v X)). nra.
Qed.

Lemma centred_variables_rows (a : Array2 R) (N D : nat) :
  shape2 a = (N, D) -> wf_array2 a ->
  length (centred_variables a) = D /\
  Forall (fun row => length row = N) (centred_variables a).
Proof.
  intros Hshape Hwf. unfold wf_array2 in Hwf. rewrite Hshape in Hwf.
  destruct Hwf as [HN _]. unfold centred_variables, transpose_n, range.
  rewrite Hshape. split; [rewrite !length_fmap, length_seq; reflexivity|].
  rewrite Forall_fmap, Forall_fmap. apply Forall_forall. intros j _.
  unfold compose, column. cbv beta zeta. rewrite !length_fmap. exact HN.
Qed.

Lemma sub_rows_wf (a : Array2 R) (v : list R) (N D : nat) :
  shape2 a = (N, D) -> wf_array2 a -> length v = D ->
  shape2 (sub_rows a v) = (N, D) /\ wf_array2 (sub_rows a v).
Proof.
  intros Hshape Hwf Hv. unfold wf_array2 in *. unfold sub_rows. cbn [shape2 rows2].
  rewrite Hshape in *. destruct Hwf as [HN Hrows]. split; [reflexivity|].
  split; [rewrite length_fmap; exact HN|].
  rewrite Forall_fmap. eapply Forall_impl; [exact Hrows|].
  intros row Hrow. unfold compose. cbv beta in Hrow |- *.
  rewrite length_zip_with. lia.
Qed.

Lemma length_np_mean_axis0 (a : Array2 R) (N D : nat) :
  shape2 a = (N, D) -> length (np_mean_axis0 a) = D.
Proof.
  intros Hshape. unfold np_mean_axis0, range. rewrite Hshape.
  rewrite length_fmap, length_seq. reflexivity.
Qed.

Lemma length_gram (k : R) (X : list (list R)) : length (gram k X) = length X.
Proof. unfold gram. apply length_fmap. Qed.

Lemma squeeze_matrix (c : list (list R)) :
  (2 <= length c)%nat -> squeeze c = Arr2 c.
Proof. destruct c as [|r1 [|r2 c]]; cbn; intros H; [lia | lia |]. destruct r1 as [|x [|y r1]]; reflexivity. Qed.

Lemma np_cov_matrix (a : Array2 R) (N D : nat) :
  shape2 a = (N, D) -> wf_array2 a -> (2 <= D)%nat ->
  np_cov a = Arr2 (cov_matrix a).
Proof.
  intros Hshape Hwf HD. unfold np_cov. apply squeeze_matrix.
  unfold cov_matrix. rewrite Hshape, length_gram.
  rewrite (proj1 (centred_variables_rows a N D Hshape Hwf)). exact HD.
Qed.

(** ** PCA *)

Lemma find_principal_components_run
    (eigh : list (list R) -> result (list R * list (list R)))
    (self : PCA) (data : Array2 R) (N D : nat) (vals : list R) (vecs : list (list R)) :
  shape2 data = (N, D) -> wf_array2 data -> (2 <= D)%nat ->
  eigh (cov_matrix (sub_rows data (np_mean_axis0 data))) = Ok (vals, vecs) ->
  find_principal_components eigh self data =
  Ok (mkPCA (pca_d self) (Some (np_mean_axis0 data))
        (Some ((fun row : list R => take (pca_d self) row)
                 <$> ((fun row : list R => reverse row) <$> vecs))),
      np_mul (np_div (sum (take (pca_d self) (reverse vals))) (sum (reverse vals))) 100).
Proof.
  intros Hshape Hwf HD Heigh. unfold find_principal_components.
  destruct (sub_rows_wf data (np_mean_axis0 data) N D Hshape Hwf
              (length_np_mean_axis0 data N D Hshape)) as [Hs Hw].
  rewrite (np_cov_matrix _ N D Hs Hw HD). cbn [np_linalg_eigh].
  rewrite Heigh. reflexivity.
Qed.

Lemma covariance_eigenvalues_nonneg (data : Array2 R) (N D : nat)
    (vals : list R) (vecs : list (list R)) :
  shape2 data = (N, D) -> wf_array2 data -> (2 <= N)%nat ->
  eigh_spec D (cov_matrix data) vals vecs ->
  Forall (fun a => 0 <= a)%R vals.
Proof.
  intros Hshape Hwf HN (Hlen & _ & Hpairs).
  apply Forall_lookup_2. intros k lambda Hk.
  destruct (Hpairs k) as (lambda' & Hk' & Hpair).
  { apply lookup_lt_Some in Hk. lia. }
  rewrite Hk in Hk'. injection Hk' as <-.
  unfold cov_matrix in Hpair. rewrite Hshape in Hpair. cbv zeta in Hpair.
  apply (eigenvalue_of_gram_nonneg N _ lambda _ _) in Hpair; [exact Hpair | |].
  - assert (2 <= INR N)%R by (apply (le_INR 2); exact HN).
    apply Rlt_le, Rdiv_lt_0_compat; lra.
  - exact (proj2 (centred_variables_rows data N D Hshape Hwf)).
Qed.

(** C8 (amended): for training data of N >= 2 rows and D >= 2 features on
    which [np.linalg.eigh] returns the D eigenpairs of the covariance
    matrix, and whose eigenvalues do not sum to zero,
    [find_principal_components] returns an explained variance in [0,100],
    equal to 100 when d is at least the feature count D. *)
Theorem explained_variance_bounds
    (eigh : list (list R) -> result (list R * list (list R)))
    (self : PCA) (data : Array2 R) (N D : nat) (vals : list R) (vecs : list (list R)) :
  shape2 data = (N, D) -> wf_array2 data -> (2 <= N)%nat -> (2 <= D)%nat ->
  eigh (cov_matrix (sub_rows data (np_mean_axis0 data))) = Ok (vals, vecs) ->
  eigh_spec D (cov_matrix (sub_rows data (np_mean_axis0 data))) vals vecs ->
  sum vals <> 0%R ->
  exists st exvar,
    find_principal_components eigh self data = Ok (st, Finite exvar) /\
    (0 <= exvar <= 100)%R /\
    ((D <= pca_d self)%nat -> exvar = 100%R).
Proof.
  intros Hshape Hwf HN HD Heigh Hspec Hsum.
  rewrite (find_principal_components_run eigh self data N D vals vecs Hshape Hwf HD Heigh).
  destruct (sub_rows_wf data (np_mean_axis0 data) N D Hshape Hwf
              (length_np_mean_axis0 data N D Hshape)) as [Hs Hw].
  pose proof (covariance_eigenvalues_nonneg _ N D vals vecs Hs Hw HN Hspec) as Hnn.
  assert (Hrev : Forall (fun a => 0 <= a)%R (reverse vals)) by (apply Forall_reverse; exact Hnn).
  pose proof (sum_take_le (pca_d self) (reverse vals) Hrev) as Htake.
  rewrite sum_reverse in *.
  pose proof (sum_nonneg vals Hnn) as Htot.
  unfold np_div. destruct (Req_EM_T (sum vals) 0) as [H0|_]; [contradiction|].
  cbn [np_mul]. eexists _, _. split; [reflexivity|]. split.
  - assert (Hpos : (0 < sum vals)%R) by lra.
    assert (Hratio : (0 <= sum (take (pca_d self) (reverse vals)) / sum vals <= 1)%R).
    { split.
      - unfold Rdiv. apply Rmult_le_pos; [lra|].
        apply Rlt_le, Rinv_0_lt_compat. exact Hpos.
      - apply (Rmult_le_reg_r (sum vals)); [exact Hpos|].
        unfold Rdiv. rewrite Rmult_assoc, Rinv_l by lra. lra. }
    lra.
  - intros Hd. rewrite take_ge by (rewrite length_reverse, (proj1 Hspec); exact Hd).
    rewrite sum_reverse. field. exact Hsum.
Qed.

Lemma cov_data_two :
  cov_matrix (sub_rows data_two (np_mean_axis0 data_two)) = [[2; 0]; [0; 0]]%R.
Proof.
  unfold cov_matrix, centred_variables, gram, sub_rows, np_mean_axis0, data_two,
    transpose_n, column, range, dot, sum.
  cbn. repeat f_equal; field.
Qed.

Lemma cov_data_const :
  cov_matrix (sub_rows data_const (np_mean_axis0 data_const)) = [[0; 0]; [0; 0]]%R.
Proof.
  unfold cov_matrix, centred_variables, gram, sub_rows, np_mean_axis0, data_const,
    transpose_n, column, range, dot, sum.
  cbn. repeat f_equal; field.
Qed.

Lemma eigh_two_spec :
  eigh_spec 2 (cov_matrix (sub_rows data_two (np_mean_axis0 data_two)))
    [0; 2]%R [[0; 1]; [1; 0]]%R.
Proof.
  rewrite cov_data_two. split; [reflexivity|]. split.
  - split; [reflexivity | repeat constructor].
  - intros k Hk. destruct k as [|[|k]]; [| |lia].
    + exists 0%R. split; [reflexivity|].
      unfold is_eigenpair, mat_vec, scale, column, dot, sum. cbn.
      split; [repeat f_equal; lra | lra].
    + exists 2%R. split; [reflexivity|].
      unfold is_eigenpair, mat_vec, scale, column, dot, sum. cbn.
      split; [repeat f_equal; lra | lra].
Qed.

Lemma eigh_const_spec :
  eigh_spec 2 (cov_matrix (sub_rows data_const (np_mean_axis0 data_const)))
    [0; 0]%R [[1; 0]; [0; 1]]%R.
Proof.
  rewrite cov_data_const. split; [reflexivity|]. split.
  - split; [reflexivity | repeat constructor].
  - intros k Hk. destruct k as [|[|k]]; [| |lia].
    + exists 0%R. split; [reflexivity|].
      unfold is_eigenpair, mat_vec, scale, column, dot, sum. cbn.
      split; [repeat f_equal; lra | lra].
    + exists 0%R. split; [reflexivity|].
      unfold is_eigenpair, mat_vec, scale, column, dot, sum. cbn.
      split; [repeat f_equal; lra | lra].
Qed.

Lemma wf_data_two : wf_array2 data_two.
Proof. cbn. split; [reflexivity | repeat constructor]. Qed.

Lemma wf_data_const : wf_array2 data_const.
Proof. cbn. split; [reflexivity | repeat constructor]. Qed.

Lemma explained_variance_bounds_witness :
  exists st exvar,
    find_principal_components eigh_two (PCA_init 1) data_two = Ok (st, Finite exvar) /\
    (0 <= exvar <= 100)%R.
Proof.
  destruct (explained_variance_bounds eigh_two (PCA_init 1) data_two 2 2
              [0; 2]%R [[0; 1]; [1; 0]]%R)
    as (st & exvar & Hrun & Hbounds & _).
  - reflexivity.
  - exact wf_data_two.
  - lia.
  - lia.
  - reflexivity.
  - exact eigh_two_spec.
  - unfold sum. cbn. lra.
  - exists st, exvar. split; assumption.
Defined.

(** C8 as stated fails: on two equal observations of two features the
    eigenvalues are 0 and 0, and the explained variance is 0/0·100, which is
    nan, not a number of [0,100]. *)
Lemma explained_variance_zero_variance_counterexample :
  eigh_spec 2 (cov_matrix (sub_rows data_const (np_mean_axis0 data_const)))
    [0; 0]%R [[1; 0]; [0; 1]]%R /\
  exists st,
    find_principal_components eigh_const (PCA_init 1) data_const = Ok (st, NonFinite).
Proof.
  split; [exact eigh_const_spec|].
  rewrite (find_principal_components_run eigh_const (PCA_init 1) data_const 2 2
             [0; 0]%R [[1; 0]; [0; 1]]%R eq_refl wf_data_const ltac:(lia) eq_refl).
  eexists. unfold np_div.
  destruct (Req_EM_T (sum (reverse [0; 0]%R)) 0) as [_|Hne]; [reflexivity|].
  exfalso. apply Hne. unfold sum. cbn. lra.
Qed.

(** C4 (amended): when the reduced dimension d exceeds the feature count D
    (for N >= 2 rows and D >= 2 features, [np.linalg.eigh] returning D
    eigenvalues and a D×D matrix), [find_principal_components] raises
    nothing: the slices keep all D eigenvectors, so that W is D×D, and the
    explained variance is computed from all D eigenvalues. *)
Theorem find_principal_components_excess_d
    (eigh : list (list R) -> result (list R * list (list R)))
    (self : PCA) (data : Array2 R) (N D : nat) (vals : list R) (vecs : list (list R)) :
  shape2 data = (N, D) -> wf_array2 data -> (2 <= N)%nat -> (2 <= D)%nat ->
  (D < pca_d self)%nat ->
  eigh (cov_matrix (sub_rows data (np_mean_axis0 data))) = Ok (vals, vecs) ->
  length vals = D -> has_shape2 D D vecs ->
  find_principal_components eigh self data =
    Ok (mkPCA (pca_d self) (Some (np_mean_axis0 data))
          (Some ((fun row : list R => reverse row) <$> vecs)),
        np_mul (np_div (sum vals) (sum vals)) 100) /\
  has_shape2 D D ((fun row : list R => reverse row) <$> vecs).
Proof.
  intros Hshape Hwf HN HD Hd Heigh Hvals [Hrows Hcols].
  rewrite (find_principal_components_run eigh self data N D vals vecs Hshape Hwf HD Heigh).
  rewrite take_ge by (rewrite length_reverse; lia). rewrite sum_reverse.
  assert (Hrev : Forall (fun row : list R => length row = D)
                   ((fun row : list R => reverse row) <$> vecs)).
  { rewrite Forall_fmap. eapply Forall_impl; [exact Hcols|].
    intros row Hrow. unfold compose. rewrite length_reverse. exact Hrow. }
  split.
  - do 4 f_equal. apply list_eq. intros i. rewrite list_lookup_fmap.
    destruct (((fun row : list R => reverse row) <$> vecs) !! i) as [row|] eqn:Hi;
      [|reflexivity].
    cbn. f_equal. apply take_ge.
    pose proof (Forall_lookup_1 _ _ _ _ Hrev Hi) as Hl. cbn in Hl. lia.
  - split; [rewrite length_fmap; exact Hrows | exact Hrev].
Qed.

Lemma find_principal_components_excess_d_witness :
  exists st exvar, find_principal_components eigh_two (PCA_init 3) data_two = Ok (st, exvar).
Proof.
  destruct (find_principal_components_excess_d eigh_two (PCA_init 3) data_two 2 2
              [0; 2]%R [[0; 1]; [1; 0]]%R) as [Hrun _].
  - reflexivity.
  - exact wf_data_two.
  - lia.
  - lia.
  - cbn. lia.
  - reflexivity.
  - reflexivity.
  - split; [reflexivity | repeat constructor].
  - eexists _, _. exact Hrun.
Defined.

(** C4 as stated fails: with d = 3 on data of D = 2 features the fit
    returns — W holds the 2 eigenvectors there are and the explained
    variance is 100 — where the claim has it raise. *)
Lemma find_principal_components_excess_d_counterexample :
  eigh_spec 2 (cov_matrix (sub_rows data_two (np_mean_axis0 data_two)))
    [0; 2]%R [[0; 1]; [1; 0]]%R /\
  exists mean,
    find_principal_components eigh_two (PCA_init 3) data_two =
    Ok (mkPCA 3 (Some mean) (Some [[1; 0]; [0; 1]]%R), Finite 100).
Proof.
  split; [exact eigh_two_spec|].
  rewrite (find_principal_components_run eigh_two (PCA_init 3) data_two 2 2
             [0; 2]%R [[0; 1]; [1; 0]]%R eq_refl wf_data_two ltac:(lia) eq_refl).
  exists (np_mean_axis0 data_two). unfold np_div.
  destruct (Req_EM_T (sum (reverse [0; 2]%R)) 0) as [H0|_].
  - exfalso. unfold sum in H0. cbn in H0. lra.
  - assert (E : (sum (take 3 (reverse [0; 2]%R)) / sum (reverse [0; 2]%R) * 100
                 = 100)%R) by (unfold sum; cbn; field).
    cbn [np_mul pca_d PCA_init]. rewrite E. reflexivity.
Qed.

(** C5: on a PCA object as [__init__] leaves it — before any call of
    [find_principal_components] — [reduce_dimension] raises for every data
    array and returns nothing: a TypeError from [data - None] when the array
    has an entry, a ValueError from the product with [None] when it has
    none. *)
Theorem reduce_dimension_unfitted (d : nat) (data : Array2 R) :
  (exists e, reduce_dimension (PCA_init d) data = Raise e) /\
  (forall N D, shape2 data = (N, D) -> (N * D)%nat <> 0%nat ->
     reduce_dimension (PCA_init d) data = Raise TypeError) /\
  (forall N D, shape2 data = (N, D) -> (N * D)%nat = 0%nat ->
     reduce_dimension (PCA_init d) data = Raise ValueError).
Proof.
  unfold reduce_dimension, PCA_init, np_sub_mean. cbn [pca_mean pca_W].
  destruct (shape2 data) as [N D] eqn:Hshape.
  destruct (Nat.eqb_spec (N * D) 0) as [H0|Hn0].
  - split; [exists ValueError; reflexivity|]. split.
    + intros N' D' [= <- <-] Hne. contradiction.
    + intros N' D' [= <- <-] _. reflexivity.
  - split; [exists TypeError; reflexivity|]. split.
    + intros N' D' [= <- <-] _. reflexivity.
    + intros N' D' [= <- <-] H0. contradiction.
Qed.

(** ** The trainer on small inputs *)

Lemma Trainer_infers_square_images_witness :
  exists t : @Tensor4 nat,
    shape t = (1, 1, 2, 2)%nat /\
    predict unit unit unit (fun _ _ => Ok tt) trainer_ex flat4 =
    predict_torch_ex trainer_ex (Input4 t).
Proof.
  unfold predict_torch_ex.
  destruct (Trainer_infers_square_images unit unit unit
              (fun self _ _ => Ok self) (fun _ _ => Ok tt) trainer_ex flat4 tt 1 4)
    as [_ Hsquare].
  - exact I.
  - reflexivity.
  - cbn. split; [reflexivity | repeat constructor].
  - destruct (Hsquare eq_refl) as (t & Hshape & _ & _ & Hpredict & _).
    exists t. split; [exact Hshape | exact Hpredict].
Defined.

Example predict_flat4 :
  predict unit unit (@Input nat) (fun _ input => Ok input) trainer_ex flat4 =
  Ok (Input4 (mkTensor4 (1, 1, 2, 2)%nat [[[[1; 2]; [3; 4]]]]%nat)).
Proof. reflexivity. Qed.

Example predict_flat3 :
  predict unit unit (@Input nat) (fun _ input => Ok input) trainer_ex flat3 =
  Raise AssertionError.
Proof. reflexivity. Qed.

(** With a single feature [np.cov] returns a 0-dimensional array, which
    [np.linalg.eigh] refuses. *)
Lemma find_principal_components_single_feature
    (eigh : list (list R) -> result (list R * list (list R))) (d : nat) (a b : R) :
  find_principal_components eigh (PCA_init d) (mkArray2 (2, 1)%nat [[a]; [b]])
  = Raise LinAlgError.
Proof. reflexivity. Qed.

(** * Further properties *)

(** ** get_positional_embeddings *)

(** X1: the row of position 0 alternates 0 and 1: sin 0 in the even
    columns, cos 0 in the odd ones, for every embedding dimension. *)
Theorem positional_embeddings_row_0 (L d : nat) :
  exists t,
    get_positional_embeddings L d = Ok t /\
    forall j, (0 < L)%nat -> (j < d)%nat ->
      (row ← t !! 0%nat; row !! j) = Some (if Nat.even j then 0%R else 1%R).
Proof.
  destruct (positional_embeddings_inv L d) as (t & Hrun & Hinv).
  exists t. split; [exact Hrun|]. intros j HL Hj.
  rewrite (table_inv_lookup L d t 0 j Hinv HL Hj). unfold pe_entry.
  cbn [INR]. unfold Rdiv. rewrite !Rmult_0_l, sin_0, cos_0. reflexivity.
Qed.

(** X2: every entry of the table lies in [-1, 1]. *)
Theorem positional_embeddings_bounded (L d : nat) :
  exists t,
    get_positional_embeddings L d = Ok t /\
    forall i j, (i < L)%nat -> (j < d)%nat ->
      exists v, (row ← t !! i; row !! j) = Some v /\ (-1 <= v <= 1)%R.
Proof.
  destruct (positional_embeddings_inv L d) as (t & Hrun & Hinv).
  exists t. split; [exact Hrun|]. intros i j Hi Hj.
  rewrite (table_inv_lookup L d t i j Hinv Hi Hj). eexists. split; [reflexivity|].
  unfold pe_entry. destruct (Nat.even j); [apply SIN_bound | apply COS_bound].
Qed.

(** X3: in every row the entries of columns 2k and 2k+1 are a point of the
    unit circle: their squares sum to 1. *)
Theorem positional_embeddings_unit_circle (L d : nat) :
  exists t,
    get_positional_embeddings L d = Ok t /\
    forall i k, (i < L)%nat -> (2 * k + 1 < d)%nat ->
      exists a b,
        (row ← t !! i; row !! (2 * k)%nat) = Some a /\
        (row ← t !! i; row !! (2 * k + 1)%nat) = Some b /\
        (a * a + b * b = 1)%R.
Proof.
  destruct (positional_embeddings_inv L d) as (t & Hrun & Hinv).
  exists t. split; [exact Hrun|]. intros i k Hi Hk.
  rewrite (table_inv_lookup L d t i (2 * k) Hinv Hi) by lia.
  rewrite (table_inv_lookup L d t i (2 * k + 1) Hinv Hi) by lia.
  eexists _, _. split; [reflexivity|]. split; [reflexivity|].
  unfold pe_entry. rewrite Nat.even_add, Nat.even_mul. cbn [Nat.even orb Bool.eqb].
  replace (2 * k + 1 - 1)%nat with (2 * k)%nat by lia.
  apply sin2_cos2.
Qed.

(** X4: a row does not depend on the sequence length: the table for L
    positions is the first L rows of the table for any L' >= L. *)
Theorem positional_embeddings_prefix (L L' d : nat) :
  exists t t',
    get_positional_embeddings L d = Ok t /\
    get_positional_embeddings L' d = Ok t' /\
    ((L <= L')%nat -> t = take L t').
Proof.
  destruct (positional_embeddings_inv L d) as (t & Hrun & Hinv).
  destruct (positional_embeddings_inv L' d) as (t' & Hrun' & Hinv').
  exists t, t'. split; [exact Hrun|]. split; [exact Hrun'|]. intros HL.
  apply list_eq_same_length with L;
    [rewrite length_take, (proj1 Hinv'); lia | exact (proj1 Hinv) |].
  intros i row row' Hi Hrow Hrow'.
  rewrite lookup_take_lt in Hrow' by exact Hi.
  destruct Hinv as [_ Ht]. destruct Hinv' as [_ Ht'].
  destruct (Ht i row Hrow) as [Hl Hv]. destruct (Ht' i row' Hrow') as [Hl' Hv'].
  apply list_eq_same_length with d; [exact Hl' | exact Hl |].
  intros j x y _ Hx Hy. rewrite (Hv j x Hx I), (Hv' j y Hy I). reflexivity.
Qed.

(** ** patchify *)

(** X5: [patchify] refuses an image that is not square with an
    AssertionError, whatever [n_patches] is, and a square image with
    [n_patches = 0] with a ZeroDivisionError. *)
Theorem patchify_input_errors {A : Type} (zero : A) (images : Tensor4)
    (n c h w n_patches : nat) :
  shape images = (n, c, h, w) ->
  (h <> w -> patchify zero images n_patches = Raise AssertionError) /\
  (h = w -> n_patches = 0%nat -> patchify zero images n_patches = Raise ZeroDivisionError).
Proof.
  intros Hshape. unfold patchify. rewrite Hshape. split.
  - intros Hhw. destruct (Nat.eqb_spec h w) as [|_]; [contradiction | reflexivity].
  - intros -> ->. rewrite Nat.eqb_refl. reflexivity.
Qed.

Lemma patchify_input_errors_witness :
  patchify 0%nat img134 2 = Raise AssertionError /\
  patchify 0%nat img44 0 = Raise ZeroDivisionError.
Proof.
  split.
  - apply (patchify_input_errors 0%nat img134 1 1 3 4 2); [reflexivity | lia].
  - apply (patchify_input_errors 0%nat img44 1 1 4 4 0); reflexivity.
Defined.

Lemma length_block {A : Type} (c h w s i j : nat) (image : list (list (list A))) :
  wf_image c h w image -> ((i + 1) * s <= h)%nat -> ((j + 1) * s <= w)%nat ->
  length (flatten (slice_block image (i * s) ((i + 1) * s) (j * s) ((j + 1) * s)))
  = (c * s * s)%nat.
Proof.
  intros [Hc Himg] Hi Hj.
  assert (Hrows : Forall (fun ch => length ch = s /\ Forall (fun row => length row = s) ch)
                    (slice_block image (i * s) ((i + 1) * s) (j * s) ((j + 1) * s))).
  { unfold slice_block. rewrite Forall_fmap.
    eapply Forall_impl; [exact Himg|]. intros ch [Hch Hrows]. unfold compose.
    rewrite length_fmap. split.
    - rewrite length_slice; lia.
    - rewrite Forall_fmap. apply Forall_take, Forall_drop.
      eapply Forall_impl; [exact Hrows|]. intros row Hrow. unfold compose.
      cbv beta in Hrow |- *. rewrite length_slice; lia. }
  destruct (concat_block_rows s _ Hrows) as [H1 H2].
  unfold flatten. rewrite (length_concat_uniform s) by exact H2.
  rewrite (length_concat_uniform s) by exact H1.
  unfold slice_block. rewrite length_fmap, Hc. reflexivity.
Qed.

Lemma for_each_first_raise {S X : Type} (x : X) (rest : list X)
    (body : X -> S -> result S) (s : S) (e : exn) :
  body x s = Raise e -> for_each (x :: rest) body s = Raise e.
Proof. intros H. cbn [for_each]. rewrite H. reflexivity. Qed.

Lemma range_cons (k : nat) : (0 < k)%nat -> range k = 0%nat :: seq 1 (k - 1).
Proof. intros Hk. unfold range. destruct k as [|k]; [lia|]. cbn. rewrite Nat.sub_0_r. reflexivity. Qed.

(** X6: [patchify] does not test that [n_patches] divides the image size.
    On a non-empty batch of square images it raises a RuntimeError at the
    first patch it stores, as soon as the size C·(H // n_patches)² of a
    flattened patch is neither the row length H·W·C // n_patches² of the
    output nor 1. *)
Theorem patchify_size_mismatch {A : Type} (zero : A) (images : Tensor4)
    (n c h n_patches : nat) :
  shape images = (n, c, h, h) -> wf_tensor4 images ->
  (0 < n)%nat -> (0 < n_patches)%nat ->
  (c * (h / n_patches) * (h / n_patches))%nat <> (h * h * c / n_patches ^ 2)%nat ->
  (c * (h / n_patches) * (h / n_patches))%nat <> 1%nat ->
  patchify zero images n_patches = Raise RuntimeError.
Proof.
  intros Hshape Hwf Hn Hnp Hsize Hone.
  unfold wf_tensor4 in Hwf. rewrite Hshape in Hwf. destruct Hwf as [Hlen Hwf].
  unfold patchify. rewrite Hshape, Nat.eqb_refl. cbn [py_assert]. rewrite bind_Ok.
  unfold floordiv.
  destruct (Nat.eqb_spec (n_patches ^ 2) 0) as [H0|_]; [cbn in H0; nia|].
  destruct (Nat.eqb_spec n_patches 0) as [H0|_]; [lia|].
  rewrite !bind_Ok.
  destruct (elems images) as [|image rest] eqn:Himages; [cbn in Hlen; lia|].
  pose proof (Forall_inv Hwf) as Himg.
  set (s := (h / n_patches)%nat) in *.
  assert (Hs : ((0 + 1) * s <= h)%nat).
  { unfold s. rewrite Nat.mul_1_l. apply Nat.Div0.div_le_upper_bound. nia. }
  pose proof (length_block c h h s 0 0 image Himg Hs Hs) as Hpatch.
  unfold enumerate. cbn [length seq combine].
  rewrite (range_cons n_patches Hnp).
  do 3 apply for_each_first_raise.
  set (v := flatten (slice_block image (0 * s) ((0 + 1) * s) (0 * s) ((0 + 1) * s))) in *.
  unfold setitem_row, zeros3.
  rewrite (lookup_replicate_2 n _ 0 Hn).
  rewrite (lookup_replicate_2 (n_patches ^ 2) _ (0 * n_patches + 0))
    by (cbn; nia).
  rewrite length_replicate, Hpatch.
  destruct (Nat.eqb_spec (c * s * s) (h * h * c / n_patches ^ 2)) as [He|_].
  { exfalso. apply Hsize. exact He. }
  destruct v as [|x [|y v]]; cbn [length] in Hpatch; [reflexivity | lia | reflexivity].
Qed.

Lemma patchify_size_mismatch_witness : patchify 0%nat img233 2 = Raise RuntimeError.
Proof.
  apply (patchify_size_mismatch 0%nat img233 1 2 3 2).
  - reflexivity.
  - cbn. repeat constructor.
  - lia.
  - lia.
  - cbn. lia.
  - cbn. lia.
Defined.

Lemma patches_inv_rows_eq {A : Type} (images images' : list (list (list (list A))))
    (n n' c s np idx idx' : nat) (image : list (list (list A)))
    (patches patches' : list (list (list A))) (seqs seqs' : list (list A)) :
  patches_inv images n c s np (fun a _ => (a < n)%nat) patches ->
  patches_inv images' n' c s np (fun a _ => (a < n')%nat) patches' ->
  images !! idx = Some image -> images' !! idx' = Some image ->
  patches !! idx = Some seqs -> patches' !! idx' = Some seqs' ->
  (idx < n)%nat -> (idx' < n')%nat ->
  seqs = seqs'.
Proof.
  intros [_ HP] [_ HP'] Himage Himage' Hseqs Hseqs' Hidx Hidx'.
  destruct (HP idx seqs Hseqs) as [Hl Hrow].
  destruct (HP' idx' seqs' Hseqs') as [Hl' Hrow'].
  apply list_eq_same_length with (np ^ 2)%nat; [exact Hl' | exact Hl |].
  intros p row row' _ Hp Hp'.
  destruct (Hrow p row Hp) as [_ Hw]. destruct (Hrow' p row' Hp') as [_ Hw'].
  destruct (Hw Hidx) as (im & Him & ->). destruct (Hw' Hidx') as (im' & Him' & ->).
  congruence.
Qed.

(** X7: the patches of an image do not depend on the rest of the batch:
    the sequence that [patchify] returns for image [idx] of a batch is the
    one it returns for that image alone. *)
Theorem patchify_per_image {A : Type} (zero : A) (images : Tensor4)
    (n c h w n_patches : nat) :
  shape images = (n, c, h, w) -> wf_tensor4 images -> h = w ->
  py_mod h n_patches = Ok 0%nat ->
  exists patches,
    patchify zero images n_patches = Ok patches /\
    forall idx image, elems images !! idx = Some image ->
      exists seqs,
        patches !! idx = Some seqs /\
        patchify zero (mkTensor4 (1, c, h, w)%nat [image]) n_patches = Ok [seqs].
Proof.
  intros Hshape Hwf Hhw Hmod.
  destruct (patchify_inv zero images n c h w n_patches Hshape Hwf Hhw Hmod)
    as (patches & Hrun & Hinv).
  exists patches. split; [exact Hrun|]. intros idx image Himage.
  pose proof Hwf as Hwf'. unfold wf_tensor4 in Hwf'. rewrite Hshape in Hwf'.
  destruct Hwf' as [Hlen Himgs].
  pose proof (lookup_lt_Some _ _ _ Himage) as Hidx. rewrite Hlen in Hidx.
  destruct (lookup_lt_is_Some_2 patches idx ltac:(rewrite (proj1 Hinv); exact Hidx))
    as [seqs Hseqs].
  exists seqs. split; [exact Hseqs|].
  destruct (patchify_inv zero (mkTensor4 (1, c, h, w)%nat [image]) 1 c h w n_patches
              eq_refl) as (single & Hrun1 & Hinv1); [|exact Hhw | exact Hmod |].
  { cbn. split; [reflexivity|]. constructor; [|constructor].
    exact (Forall_lookup_1 _ _ _ _ Himgs Himage). }
  rewrite Hrun1. f_equal.
  destruct single as [|seqs1 [|extra single]];
    [destruct Hinv1 as [Hl1 _]; discriminate | | destruct Hinv1 as [Hl1 _]; discriminate].
  f_equal. symmetry.
  apply (patches_inv_rows_eq (elems images) [image] n 1 c (h / n_patches) n_patches
           idx 0 image patches [seqs1] seqs seqs1 Hinv Hinv1 Himage eq_refl Hseqs eq_refl
           Hidx ltac:(lia)).
Qed.

Lemma patchify_per_image_witness :
  exists patches seqs,
    patchify 0%nat img44 2 = Ok patches /\ patches !! 0%nat = Some seqs.
Proof.
  destruct (patchify_per_image 0%nat img44 1 1 4 4 2) as (patches & Hrun & Hper).
  - reflexivity.
  - cbn. repeat constructor.
  - reflexivity.
  - reflexivity.
  - destruct (Hper 0%nat _ eq_refl) as (seqs & Hseqs & _).
    exists patches, seqs. split; assumption.
Defined.

(** X8: the Trainer's reshape followed by [patchify] with a single patch
    gives the flat input back: for an array of shape (N, s·s), the patch
    tensor of the (N,1,s,s) image batch with [n_patches = 1] has one row per
    image, and that row is the row of the array. *)
Theorem reshape_patchify_single_patch {X : Type} (zero : X) (data : Array2 X)
    (N s : nat) :
  shape2 data = (N, s * s)%nat -> wf_array2 data ->
  exists t patches,
    reshape4 data N 1 s s = Ok t /\
    patchify zero t 1 = Ok patches /\
    patches = (fun row => [row]) <$> rows2 data.
Proof.
  intros Hshape Hwf.
  destruct (reshape4_Ok N s data Hshape Hwf) as (t & Ht & Hst & Hwt & Hentries).
  assert (Hmod : py_mod s 1 = Ok 0%nat).
  { unfold py_mod. change (Nat.eqb 1 0) with false. cbv iota.
    rewrite Nat.mod_1_r. reflexivity. }
  destruct (patchify_inv zero t N 1 s s 1 Hst Hwt eq_refl Hmod) as (patches & Hrun & Hinv).
  exists t, patches. split; [exact Ht|]. split; [exact Hrun|].
  rewrite Nat.div_1_r in Hinv.
  pose proof Hwf as Hwf'. unfold wf_array2 in Hwf'. rewrite Hshape in Hwf'.
  destruct Hwf' as [Hrows Hcols].
  pose proof Hwt as Hwt'. unfold wf_tensor4 in Hwt'. rewrite Hst in Hwt'.
  destruct Hwt' as [Hlt Himgs].
  destruct (patches_inv_shape _ _ _ _ _ _ _ Hinv) as [HlP HshapeP].
  apply list_eq_same_length with N;
    [rewrite length_fmap; exact Hrows | exact HlP |].
  intros idx seqs single Hidx Hseqs Hsingle.
  rewrite list_lookup_fmap in Hsingle.
  destruct (rows2 data !! idx) as [row|] eqn:Hrow; [|discriminate].
  injection Hsingle as <-.
  pose proof (Forall_lookup_1 _ _ _ _ HshapeP Hseqs) as [Hlseqs Hlrows].
  destruct seqs as [|r [|r' seqs]]; [discriminate | | discriminate].
  f_equal. pose proof (Forall_inv Hlrows) as Hlr. cbn beta in Hlr.
  pose proof (Forall_lookup_1 _ _ _ _ Hcols Hrow) as Hlrow. cbn beta in Hlrow.
  apply list_eq_same_length with (s * s)%nat; [exact Hlrow | lia |].
  intros k x y Hk Hx Hy.
  assert (Hs : (0 < s)%nat) by nia.
  assert (Hr : (k / s < s)%nat) by (apply Nat.Div0.div_lt_upper_bound; lia).
  assert (Hq : (k mod s < s)%nat) by (apply Nat.mod_upper_bound; lia).
  assert (Hk' : ((0 * s + k / s) * s + k mod s)%nat = k).
  { rewrite (Nat.div_mod_eq k s) at 3. lia. }
  destruct (patches_inv_lookup (elems t) N 1 s 1 patches idx 0 0 0 (k / s) (k mod s))
    as (v & Hsrc & Hdst); try assumption; try lia.
  { rewrite Nat.mul_1_r. exact Himgs. }
  rewrite Hseqs in Hdst. cbn [mbind option_bind lookup list_lookup Nat.mul Nat.add] in Hdst.
  assert (Hk'' : (k / s * s + k mod s)%nat = k) by lia.
  rewrite Hk'' in Hdst.
  specialize (Hentries idx (k / s) (k mod s) Hidx Hr Hq).
  cbn [Nat.mul Nat.add] in Hsrc. rewrite Hentries, Hrow in Hsrc.
  cbn [mbind option_bind] in Hsrc. rewrite Hk'' in Hsrc.
  congruence.
Qed.

Lemma reshape_patchify_single_patch_witness :
  exists t,
    reshape4 flat4 1 1 2 2 = Ok t /\ patchify 0%nat t 1 = Ok [[[1; 2; 3; 4]]]%nat.
Proof.
  destruct (reshape_patchify_single_patch 0%nat flat4 1 2) as (t & patches & Ht & Hp & Heq).
  - reflexivity.
  - cbn. split; [reflexivity | repeat constructor].
  - exists t. split; [exact Ht|]. rewrite Hp, Heq. reflexivity.
Defined.

(** ** MyMSA *)

Lemma mapM_lookup {A B : Type} (f : A -> result B) (l : list A) (ys : list B)
    (i : nat) (x : A) :
  mapM f l = Ok ys -> l !! i = Some x -> exists y, f x = Ok y /\ ys !! i = Some y.
Proof.
  revert ys i. induction l as [|a l IH]; intros ys i Hrun Hi; [discriminate|].
  cbn [mapM] in Hrun. destruct (f a) as [b|e] eqn:Hfa; [|discriminate].
  rewrite bind_Ok in Hrun. destruct (mapM f l) as [bs|e] eqn:Hl; [|discriminate].
  rewrite bind_Ok in Hrun. injection Hrun as <-.
  destruct i as [|i]; cbn in Hi |- *.
  - injection Hi as <-. exists b. split; [exact Hfa | reflexivity].
  - apply (IH bs i eq_refl Hi).
Qed.

Lemma mapM_length {A B : Type} (f : A -> result B) (l : list A) (ys : list B) :
  mapM f l = Ok ys -> length ys = length l.
Proof.
  revert ys. induction l as [|a l IH]; intros ys Hrun.
  - injection Hrun as <-. reflexivity.
  - cbn [mapM] in Hrun. destruct (f a) as [b|e]; [|discriminate].
    rewrite bind_Ok in Hrun. destruct (mapM f l) as [bs|e]; [|discriminate].
    rewrite bind_Ok in Hrun. injection Hrun as <-. cbn. f_equal. apply IH. reflexivity.
Qed.

(** X9: [MyMSA.forward] keeps the shape of a non-empty batch: N sequences
    of L tokens of dimension d give N sequences of L tokens of dimension d,
    whatever the number of heads that divides d. *)
Theorem MyMSA_forward_shape (d n_heads n L : nat) (self : MyMSA)
    (sequences : list (list (list R))) :
  wf_MyMSA d n_heads self -> has_shape3 n L d sequences -> (0 < n)%nat ->
  exists out, MyMSA_forward self sequences = Ok out /\ has_shape3 n L d out.
Proof. apply MyMSA_forward_Ok. Qed.

Lemma MyMSA_forward_shape_witness :
  exists out, MyMSA_forward msa_ex [seq_ex] = Ok out /\ has_shape3 1 2 1 out.
Proof.
  apply (MyMSA_forward_shape 1 1 1 2 msa_ex [seq_ex]).
  - exact wf_msa_ex.
  - repeat constructor.
  - lia.
Defined.

(** X10: the sequences of a batch do not mix: the output that
    [MyMSA.forward] gives for sequence [i] of a batch is the output it gives
    for that sequence alone. *)
Theorem MyMSA_forward_per_sequence (self : MyMSA) (sequences out : list (list (list R))) :
  MyMSA_forward self sequences = Ok out ->
  forall i sequence, sequences !! i = Some sequence ->
    exists o, out !! i = Some o /\ MyMSA_forward self [sequence] = Ok [o].
Proof.
  unfold MyMSA_forward. intros Hrun i sequence Hi.
  match type of Hrun with
  | (results ← mapM ?f sequences; _) = _ =>
    destruct (mapM f sequences) as [results|e] eqn:Hres; [|discriminate];
    destruct (mapM_lookup f sequences results i sequence Hres Hi) as (o & Ho & Hoi)
  end.
  rewrite bind_Ok in Hrun.
  destruct results as [|r results]; [discriminate|].
  unfold cat_unsqueezed in Hrun. rewrite concat_singletons in Hrun.
  injection Hrun as <-. exists o. split; [exact Hoi|].
  cbn [mapM]. rewrite Ho, !bind_Ok. reflexivity.
Qed.

Lemma MyMSA_forward_per_sequence_witness :
  exists out o, MyMSA_forward msa_ex [seq_ex] = Ok out /\ out !! 0%nat = Some o.
Proof.
  destruct (MyMSA_forward_Ok 1 1 1 2 msa_ex [seq_ex] wf_msa_ex) as (out & Hrun & _);
    [repeat constructor | lia |].
  destruct (MyMSA_forward_per_sequence msa_ex [seq_ex] out Hrun 0 seq_ex eq_refl)
    as (o & Ho & _).
  exists out, o. split; assumption.
Defined.

Lemma MyMSA_forward_unfold (self : MyMSA) (sequences : list (list (list R))) :
  MyMSA_forward self sequences =
  (results ← mapM (MyMSA_sequence self) sequences; cat_unsqueezed results).
Proof. reflexivity. Qed.

Lemma MyMSA_forward_single (self : MyMSA) (sequence o : list (list R)) :
  MyMSA_forward self [sequence] = Ok [o] <-> MyMSA_sequence self sequence = Ok o.
Proof.
  rewrite MyMSA_forward_unfold. cbn [mapM].
  destruct (MyMSA_sequence self sequence) as [y|e]; [|split; discriminate].
  rewrite !bind_Ok. cbn. split; congruence.
Qed.

Lemma slice_concat_uniform {X : Type} (m h : nat) (ls : list (list X)) (l : list X) :
  Forall (fun l' => length l' = m) ls -> ls !! h = Some l ->
  slice (h * m) ((h + 1) * m) (concat ls) = l.
Proof.
  intros Hls Hl.
  pose proof (Forall_lookup_1 _ _ _ _ Hls Hl) as Hlen. cbn beta in Hlen.
  pose proof (lookup_lt_Some _ _ _ Hl) as Hh.
  apply list_eq_same_length with m; [exact Hlen | |].
  - rewrite length_slice; [lia | lia |].
    rewrite (length_concat_uniform m) by exact Hls. nia.
  - intros k x y Hk Hx Hy. rewrite lookup_slice in Hx by lia.
    rewrite (lookup_concat_uniform m ls h k Hls Hk), Hl in Hx. cbn in Hx. congruence.
Qed.

Lemma hstack_slice (L dh h : nat) (ms : list (list (list R))) (mh c : list (list R)) :
  Forall (has_shape2 L dh) ms -> ms !! h = Some mh -> hstack ms = Ok c ->
  slice_cols c (h * dh) ((h + 1) * dh) = mh.
Proof.
  intros Hms Hmh Hc.
  pose proof (Forall_lookup_1 _ _ _ _ Hms Hmh) as [HLh Hrowsh].
  destruct ms as [|m0 rest]; [discriminate|].
  pose proof (Forall_inv Hms) as [HL0 _].
  unfold hstack in Hc.
  destruct (forallb _ rest); [|discriminate]. injection Hc as <-.
  unfold slice_cols, range. rewrite HL0.
  apply list_eq_same_length with L;
    [exact HLh | rewrite !length_fmap, length_seq; reflexivity |].
  intros i row row' Hi Hrow Hrow'.
  rewrite !list_lookup_fmap, lookup_seq_lt in Hrow by exact Hi.
  cbn [fmap option_fmap option_map Nat.add] in Hrow. injection Hrow as <-.
  change (slice (h * dh) ((h + 1) * dh)
            (concat ((fun m' : list (list R) => default [] (m' !! i)) <$> (m0 :: rest)))
          = row').
  apply slice_concat_uniform.
  - rewrite Forall_fmap. eapply Forall_impl; [exact Hms|].
    intros m' [Hm'L Hm'rows]. unfold compose.
    destruct (lookup_lt_is_Some_2 m' i ltac:(lia)) as [r Hr].
    rewrite Hr. cbn. exact (Forall_lookup_1 _ _ _ _ Hm'rows Hr).
  - rewrite list_lookup_fmap, Hmh. cbn. rewrite Hrow'. reflexivity.
Qed.

Lemma MyMSA_sequence_heads (d n_heads L : nat) (self : MyMSA)
    (sequence o : list (list R)) (h : nat) :
  wf_MyMSA d n_heads self -> has_shape2 L d sequence -> (h < n_heads)%nat ->
  MyMSA_sequence self sequence = Ok o ->
  MyMSA_head self sequence h = Ok (slice_cols o (h * (d / n_heads)) ((h + 1) * (d / n_heads))).
Proof.
  intros Hwf Hseq Hh Hrun. pose proof Hwf as (_ & Hnh & _).
  unfold MyMSA_sequence in Hrun. rewrite Hnh in Hrun.
  destruct (mapM_Ok (MyMSA_head self sequence) (fun k => (k < n_heads)%nat)
              (has_shape2 L (d / n_heads)) (range n_heads) (Forall_range n_heads))
    as (seq_result & Hsr & _ & Hshapes).
  { intros head Hhead. apply (MyMSA_head_Ok d n_heads L); assumption. }
  rewrite Hsr, bind_Ok in Hrun.
  destruct (mapM_lookup _ _ _ h h Hsr) as (oh & Hoh & Hlook).
  { unfold range. apply lookup_seq_lt. exact Hh. }
  rewrite Hoh. f_equal. symmetry.
  apply (hstack_slice L (d / n_heads) h seq_result oh o Hshapes Hlook Hrun).
Qed.


Lemma MyMSA_forward_singleton_Ok (d n_heads L : nat) (self : MyMSA)
    (sequence : list (list R)) :
  wf_MyMSA d n_heads self -> has_shape2 L d sequence ->
  exists o, MyMSA_forward self [sequence] = Ok [o] /\ has_shape2 L d o.
Proof.
  intros Hwf Hs.
  destruct (MyMSA_forward_Ok d n_heads 1 L self [sequence] Hwf) as (out & Hrun & [Hl Hshapes]);
    [split; [reflexivity | constructor; [exact Hs | constructor]] | lia |].
  destruct out as [|o [|o' out]]; [discriminate | | discriminate].
  exists o. split; [exact Hrun | exact (Forall_inv Hshapes)].
Qed.

Lemma wf_msa2_ex : wf_MyMSA 2 2 msa2_ex.
Proof.
  unfold wf_MyMSA, msa2_ex. cbn.
  repeat split; repeat constructor; apply (wf_zero_Linear 1 1).
Qed.


(** ** MyViTBlock and MyViT *)

(** X12: [MyViTBlock.forward] keeps the shape of a non-empty batch. *)
Theorem MyViTBlock_forward_shape (gelu : R -> R) (hidden_d n_heads n L : nat)
    (b : MyViTBlock) (x : list (list (list R))) :
  wf_MyViTBlock hidden_d n_heads b -> has_shape3 n L hidden_d x -> (0 < n)%nat ->
  exists y, MyViTBlock_forward gelu b x = Ok y /\ has_shape3 n L hidden_d y.
Proof. apply MyViTBlock_forward_Ok. Qed.

Lemma MyViTBlock_forward_shape_witness :
  exists y,
    MyViTBlock_forward (fun a => a) block_ex [replicate 5 (replicate 8 0%R)] = Ok y /\
    has_shape3 1 5 8 y.
Proof.
  apply (MyViTBlock_forward_shape (fun a => a) 8 2 1 5 block_ex).
  - exact wf_block_ex.
  - split; [reflexivity|]. constructor; [|constructor].
    split; [reflexivity | repeat constructor].
  - lia.
Defined.

Lemma mapM_first_raise {A B : Type} (f : A -> result B) (x : A) (rest : list A)
    (e : exn) :
  f x = Raise e -> mapM f (x :: rest) = Raise e.
Proof. intros H. cbn [mapM]. rewrite H. reflexivity. Qed.

(** X13: with at least one transformer block, [MyViT.forward] raises a
    RuntimeError on every empty batch: the block hands [MyMSA.forward] no
    sequence, and [torch.cat] refuses the empty list of results. *)
Theorem MyViT_forward_empty_batch (gelu : R -> R) (out_d : nat) (self : MyViT)
    (x : Tensor4) (c h w : nat) :
  wf_MyViT out_d self -> chw self = (c, h, w) -> shape x = (0, c, h, w)%nat ->
  wf_tensor4 x -> h = w -> blocks self <> [] ->
  MyViT_forward gelu self x = Raise RuntimeError.
Proof.
  intros Hwf Hchw Hshape Hx Hhw Hblocks. unfold wf_MyViT in Hwf. rewrite Hchw in Hwf.
  destruct Hwf as (Hmod & _).
  destruct (patchify_inv 0%R x 0 c h w (n_patches self) Hshape Hx Hhw Hmod)
    as (patches & Hrun & [Hlen _]).
  destruct patches; [|discriminate].
  unfold MyViT_forward. rewrite Hshape, Hrun.
  destruct (blocks self) as [|b bs]; [contradiction|]. reflexivity.
Qed.

Lemma MyViT_forward_empty_batch_witness :
  MyViT_forward (fun a => a) vit_ex batch_empty = Raise RuntimeError.
Proof.
  apply (MyViT_forward_empty_batch (fun a => a) 3 vit_ex batch_empty 1 4 4).
  - exact wf_vit_ex.
  - reflexivity.
  - reflexivity.
  - cbn. split; [reflexivity | constructor].
  - reflexivity.
  - discriminate.
Defined.

Lemma MyViT_forward_unfold (gelu : R -> R) (self : MyViT) (x : Tensor4) :
  MyViT_forward gelu self x =
  (out ← MyViT_class_tokens gelu self x; MyViT_mlp self out).
Proof.
  unfold MyViT_forward, MyViT_class_tokens.
  destruct (shape x) as [[[n c] h] w].
  destruct (patchify 0%R x (n_patches self)); [|reflexivity]. rewrite !bind_Ok.
  destruct (Linear_forward3 _ _); [|reflexivity]. rewrite !bind_Ok.
  destruct (mapM2 _ _ _); [|reflexivity]. rewrite !bind_Ok.
  destruct (add3 _ _); [|reflexivity]. rewrite !bind_Ok.
  destruct (for_each _ _ _); reflexivity.
Qed.

Lemma MyViT_class_tokens_any_shape (gelu : R -> R) (out_d : nat) (self : MyViT)
    (x : Tensor4) (n c h : nat) :
  wf_MyViT out_d self -> shape x = (n, c, h, h) -> wf_tensor4 x ->
  py_mod h (n_patches self) = Ok 0%nat ->
  (c * (h / n_patches self) * (h / n_patches self))%nat = input_d self ->
  (0 < n)%nat \/ blocks self = [] ->
  exists cls,
    MyViT_class_tokens gelu self x = Ok cls /\ has_shape2 n (hidden_d self) cls.
Proof.
  intros Hwf Hshape Hx Hmod Hin Hne. unfold wf_MyViT in Hwf.
  destruct (chw self) as [[c0 h0] w0].
  destruct Hwf as (_ & _ & _ & Hmap & Hct1 & Hct & Hpos & _ & Hblocks & _).
  set (np := n_patches self) in *. set (hd := hidden_d self) in *.
  unfold MyViT_class_tokens. rewrite Hshape. fold np.
  destruct (patchify_inv 0%R x n c h h np Hshape Hx eq_refl Hmod) as (patches & -> & Hinv).
  rewrite bind_Ok.
  apply patches_inv_shape in Hinv.
  assert (Hps : has_shape3 n (np ^ 2) (input_d self) patches).
  { rewrite <- Hin. exact Hinv. }
  destruct (Linear_forward3_Ok _ _ n _ _ patches Hmap Hps) as (tokens & -> & Hts).
  rewrite bind_Ok.
  destruct (mapM2_Ok cat_rows (has_shape2 1 hd) (has_shape2 (np ^ 2) hd)
              (has_shape2 (np ^ 2 + 1) hd) (replicate n (class_token self)) tokens)
    as (tokens' & -> & Hlt & Hts').
  { rewrite length_replicate. symmetry. exact (proj1 Hts). }
  { apply Forall_replicate. split; assumption. }
  { exact (proj2 Hts). }
  { intros a b Ha Hb. destruct (cat_rows_Ok 1 (np ^ 2) hd a b Ha Hb) as (cc & Hc & Hcs).
    exists cc. split; [exact Hc|]. rewrite Nat.add_comm. exact Hcs. }
  rewrite bind_Ok. rewrite length_replicate in Hlt.
  destruct (positional_embeddings_inv (np ^ 2 + 1) hd) as (pos & Hpos' & Hpinv).
  rewrite Hpos in Hpos'. injection Hpos' as <-.
  assert (Hpshape : has_shape2 (np ^ 2 + 1) hd (positional_embeddings self)).
  { split; [exact (proj1 Hpinv)|]. apply Forall_lookup_2.
    intros i row Hi. exact (proj1 (proj2 Hpinv i row Hi)). }
  destruct (add3_Ok n (np ^ 2 + 1) hd tokens' (replicate n (positional_embeddings self)))
    as (out & -> & Hout).
  { split; assumption. }
  { split; [apply length_replicate | apply Forall_replicate; exact Hpshape]. }
  rewrite bind_Ok.
  destruct (blocks_Ok gelu hd (n_heads self) n (np ^ 2 + 1) (blocks self) out
              Hblocks Hout Hne) as (out' & -> & Hout').
  rewrite bind_Ok.
  destruct (mapM_Ok (fun sequence : list (list R) => getitem sequence 0)
              (has_shape2 (np ^ 2 + 1) hd) (fun token => length token = hd) out'
              (proj2 Hout')) as (cls & Hcls & Hlc & Hcs).
  { intros sequence [HL Hrows].
    apply (getitem_Ok (fun token => length token = hd)); [exact Hrows | lia]. }
  exists cls. split; [exact Hcls|]. split; [|exact Hcs].
  rewrite Hlc. exact (proj1 Hout').
Qed.

Lemma MyViT_forward_Ok_any_shape (gelu : R -> R) (out_d : nat)
    (self : MyViT) (x : Tensor4) (n c h : nat) :
  wf_MyViT out_d self -> shape x = (n, c, h, h) -> wf_tensor4 x ->
  py_mod h (n_patches self) = Ok 0%nat ->
  (c * (h / n_patches self) * (h / n_patches self))%nat = input_d self ->
  (0 < n)%nat -> (0 < out_d)%nat ->
  exists preds,
    MyViT_forward gelu self x = Ok preds /\
    length preds = n /\
    Forall (fun row => length row = out_d /\ is_distribution row) preds.
Proof.
  intros Hwf Hshape Hx Hmod Hin Hn Hout.
  destruct (MyViT_class_tokens_any_shape gelu out_d self x n c h Hwf Hshape Hx Hmod Hin
              (or_introl Hn)) as (cls & Hcls & Hcs).
  unfold wf_MyViT in Hwf. destruct (chw self) as [[c0 h0] w0].
  destruct Hwf as (_ & _ & _ & _ & _ & _ & _ & _ & _ & Hmlp).
  destruct (Linear_forward2_Ok _ _ n _ cls Hmlp Hcs) as (logits & Hlogits & [Hln Hls]).
  exists (Softmax logits). split.
  - rewrite MyViT_forward_unfold, Hcls, bind_Ok. unfold MyViT_mlp.
    rewrite Hlogits. reflexivity.
  - unfold Softmax. split; [rewrite length_fmap; exact Hln|].
    rewrite Forall_fmap. eapply Forall_impl; [exact Hls|].
    intros row Hrow. cbn in Hrow |- *. split; [rewrite softmax_length; exact Hrow|].
    apply softmax_distribution. intros ->. cbn in Hrow. lia.
Qed.

(** X14: [MyViT.forward] never compares its input with [chw]: it accepts
    every non-empty batch of square images whose side [n_patches] divides
    and whose flattened patches have [input_d] entries — also with another
    channel count and size than the classifier was built for — and returns
    one probability distribution per image. *)
Theorem MyViT_forward_accepts_matching_patches (gelu : R -> R) (out_d : nat)
    (self : MyViT) (x : Tensor4) (n c h : nat) :
  wf_MyViT out_d self -> shape x = (n, c, h, h) -> wf_tensor4 x ->
  py_mod h (n_patches self) = Ok 0%nat ->
  (c * (h / n_patches self) * (h / n_patches self))%nat = input_d self ->
  (0 < n)%nat -> (0 < out_d)%nat ->
  exists preds,
    MyViT_forward gelu self x = Ok preds /\
    length preds = n /\
    Forall (fun row => length row = out_d /\ is_distribution row) preds.
Proof. apply MyViT_forward_Ok_any_shape. Qed.

Lemma wf_img422 : wf_tensor4 img422.
Proof.
  cbn. split; [reflexivity|]. constructor; [|constructor].
  split; [reflexivity|]. repeat constructor.
Qed.

Lemma MyViT_forward_accepts_matching_patches_witness :
  exists preds,
    MyViT_forward (fun a => a) vit_ex img422 = Ok preds /\ length preds = 1%nat.
Proof.
  destruct (MyViT_forward_accepts_matching_patches (fun a => a) 3 vit_ex img422 1 4 2)
    as (preds & Hrun & Hlen & _).
  - exact wf_vit_ex.
  - reflexivity.
  - exact wf_img422.
  - reflexivity.
  - reflexivity.
  - lia.
  - lia.
  - exists preds. split; assumption.
Defined.

(** X15: a non-empty batch of square images whose flattened patches do not
    have [input_d] entries is refused by the linear mapper with a
    RuntimeError. *)
Theorem MyViT_forward_patch_size_mismatch (gelu : R -> R) (out_d : nat)
    (self : MyViT) (x : Tensor4) (n c h : nat) :
  wf_MyViT out_d self -> shape x = (n, c, h, h) -> wf_tensor4 x ->
  py_mod h (n_patches self) = Ok 0%nat ->
  (c * (h / n_patches self) * (h / n_patches self))%nat <> input_d self ->
  (0 < n)%nat ->
  MyViT_forward gelu self x = Raise RuntimeError.
Proof.
  intros Hwf Hshape Hx Hmod Hin Hn. unfold wf_MyViT in Hwf.
  destruct (chw self) as [[c0 h0] w0].
  destruct Hwf as (_ & _ & _ & (Hfeat & _) & _).
  destruct (py_mod_zero h (n_patches self) Hmod) as [Hnp _].
  destruct (patchify_inv 0%R x n c h h (n_patches self) Hshape Hx eq_refl Hmod)
    as (patches & Hrun & Hinv).
  apply patches_inv_shape in Hinv. destruct Hinv as [Hlen Hseqs].
  unfold MyViT_forward. rewrite Hshape, Hrun, bind_Ok.
  destruct patches as [|seqs patches]; [cbn in Hlen; lia|].
  pose proof (Forall_inv Hseqs) as [Hlseqs Hrows].
  destruct seqs as [|row seqs]; [cbn in Hlseqs; nia|].
  pose proof (Forall_inv Hrows) as Hlrow. cbn beta in Hlrow.
  unfold Linear_forward3.
  rewrite (mapM_first_raise _ _ _ RuntimeError); [reflexivity|].
  unfold Linear_forward2. apply mapM_first_raise.
  unfold Linear_forward1. rewrite Hlrow, Hfeat.
  destruct (Nat.eqb_spec (c * (h / n_patches self) * (h / n_patches self)) (input_d self));
    [contradiction | reflexivity].
Qed.

Lemma wf_img166 : wf_tensor4 img166.
Proof.
  cbn. split; [reflexivity|]. constructor; [|constructor].
  split; [reflexivity|]. repeat constructor.
Qed.

Lemma MyViT_forward_patch_size_mismatch_witness :
  MyViT_forward (fun a => a) vit_ex img166 = Raise RuntimeError.
Proof.
  apply (MyViT_forward_patch_size_mismatch (fun a => a) 3 vit_ex img166 1 1 6).
  - exact wf_vit_ex.
  - reflexivity.
  - exact wf_img166.
  - reflexivity.
  - cbn. lia.
  - lia.
Defined.

(** ** The constructors *)

Section ConstructorProofs.
Variable Rng : Type.
Variable new_Linear : nat -> nat -> Rng -> Linear * Rng.
Variable torch_rand : nat -> nat -> Rng -> list (list R) * Rng.
Hypothesis new_Linear_wf :
  forall n_in n_out g, wf_Linear n_in n_out (new_Linear n_in n_out g).1.
Hypothesis torch_rand_shape :
  forall n m g, has_shape2 n m (torch_rand n m g).1.

Lemma new_list_Forall {X : Type} (P : X -> Prop) (n : nat) (make : Rng -> X * Rng)
    (g : Rng) :
  (forall g', P (make g').1) ->
  length (new_list Rng n make g).1 = n /\ Forall P (new_list Rng n make g).1.
Proof.
  intros Hmake. revert g. induction n as [|n IH]; intros g; cbn [new_list].
  - split; [reflexivity | constructor].
  - pose proof (Hmake g) as Hx. destruct (make g) as [x g1].
    specialize (IH g1). destruct (new_list Rng n make g1) as [xs g2].
    cbn in *. destruct IH as [Hl Hxs]. split; [lia | constructor; assumption].
Qed.

Lemma new_list_result_Forall {X : Type} (P : X -> Prop) (n : nat)
    (make : Rng -> result (X * Rng)) (g : Rng) :
  (forall g', exists x g'', make g' = Ok (x, g'') /\ P x) ->
  exists xs g', new_list_result Rng n make g = Ok (xs, g') /\
                length xs = n /\ Forall P xs.
Proof.
  intros Hmake. revert g. induction n as [|n IH]; intros g; cbn [new_list_result].
  - exists [], g. repeat split. constructor.
  - destruct (Hmake g) as (x & g1 & -> & Hx). rewrite bind_Ok.
    destruct (IH g1) as (xs & g2 & -> & Hl & Hxs). rewrite bind_Ok.
    exists (x :: xs), g2. split; [reflexivity|]. split; [cbn; lia | constructor; assumption].
Qed.

Lemma MyMSA_init_Ok (d n_heads : nat) (g : Rng) :
  n_heads <> 0%nat -> (d mod n_heads)%nat = 0%nat ->
  exists self g', MyMSA_init Rng new_Linear d n_heads g = Ok (self, g') /\
                  wf_MyMSA d n_heads self.
Proof.
  intros Hnh Hmod. unfold MyMSA_init, py_mod.
  destruct (Nat.eqb_spec n_heads 0) as [|_]; [contradiction|].
  rewrite bind_Ok, Hmod. cbn [Nat.eqb py_assert]. rewrite bind_Ok.
  set (dh := (d / n_heads)%nat).
  pose proof (new_list_Forall (wf_Linear dh dh) n_heads (new_Linear dh dh) g
                (new_Linear_wf dh dh)) as [Hlq Hq].
  destruct (new_list Rng n_heads (new_Linear dh dh) g) as [qs g1].
  pose proof (new_list_Forall (wf_Linear dh dh) n_heads (new_Linear dh dh) g1
                (new_Linear_wf dh dh)) as [Hlk Hk].
  destruct (new_list Rng n_heads (new_Linear dh dh) g1) as [ks g2].
  pose proof (new_list_Forall (wf_Linear dh dh) n_heads (new_Linear dh dh) g2
                (new_Linear_wf dh dh)) as [Hlv Hv].
  destruct (new_list Rng n_heads (new_Linear dh dh) g2) as [vs g3].
  eexists _, _. split; [reflexivity|].
  unfold wf_MyMSA, py_mod. cbn [msa_d msa_n_heads msa_d_head q_mappings k_mappings
    v_mappings fst] in *.
  destruct (Nat.eqb_spec n_heads 0) as [|_]; [contradiction|]. rewrite Hmod.
  repeat split; assumption.
Qed.

(** X16: [MyMSA.__init__] raises a ZeroDivisionError for [n_heads = 0] and
    an AssertionError when [n_heads] does not divide [d]; otherwise it
    returns an attention with [d_head = d / n_heads] and [n_heads] query,
    key and value mappings of [d_head] inputs and outputs each. *)
Theorem MyMSA_init_cases (d n_heads : nat) (g : Rng) :
  (n_heads = 0%nat ->
     MyMSA_init Rng new_Linear d n_heads g = Raise ZeroDivisionError) /\
  (n_heads <> 0%nat -> (d mod n_heads)%nat <> 0%nat ->
     MyMSA_init Rng new_Linear d n_heads g = Raise AssertionError) /\
  (n_heads <> 0%nat -> (d mod n_heads)%nat = 0%nat ->
     exists self g', MyMSA_init Rng new_Linear d n_heads g = Ok (self, g') /\
                     wf_MyMSA d n_heads self).
Proof.
  split; [|split].
  - intros ->. reflexivity.
  - intros Hnh Hmod. unfold MyMSA_init, py_mod.
    destruct (Nat.eqb_spec n_heads 0) as [|_]; [contradiction|]. rewrite bind_Ok.
    destruct (Nat.eqb_spec (d mod n_heads) 0) as [|_]; [contradiction | reflexivity].
  - apply MyMSA_init_Ok.
Qed.

Lemma MyViTBlock_init_Ok (hidden_d n_heads : nat) (g : Rng) :
  n_heads <> 0%nat -> (hidden_d mod n_heads)%nat = 0%nat ->
  exists b g', MyViTBlock_init Rng new_Linear hidden_d n_heads g = Ok (b, g') /\
               wf_MyViTBlock hidden_d n_heads b.
Proof.
  intros Hnh Hmod. unfold MyViTBlock_init.
  destruct (MyMSA_init_Ok hidden_d n_heads g Hnh Hmod) as (msa & g1 & -> & Hmsa).
  rewrite bind_Ok.
  pose proof (new_Linear_wf hidden_d (4 * hidden_d) g1) as Hfc1.
  destruct (new_Linear hidden_d (4 * hidden_d) g1) as [fc1 g2].
  pose proof (new_Linear_wf (4 * hidden_d) hidden_d g2) as Hfc2.
  destruct (new_Linear (4 * hidden_d) hidden_d g2) as [fc2 g3].
  eexists _, _. split; [reflexivity|].
  assert (Hln : wf_LayerNorm hidden_d (new_LayerNorm hidden_d)).
  { unfold wf_LayerNorm, new_LayerNorm. cbn. rewrite !length_replicate. auto. }
  unfold wf_MyViTBlock.
  cbn [blk_hidden_d blk_n_heads norm1 mhsa norm2 blk_mlp_fc1 blk_mlp_fc2 fst] in *.
  auto 10.
Qed.

Lemma MyViT_init_Ok (c h w np nb hd nh out_d : nat) (g : Rng) :
  np <> 0%nat -> (h mod np)%nat = 0%nat -> (w mod np)%nat = 0%nat ->
  nb = 0%nat \/ (nh <> 0%nat /\ (hd mod nh)%nat = 0%nat) ->
  exists self g',
    MyViT_init Rng new_Linear torch_rand (c, h, w) np nb hd nh out_d g = Ok (self, g') /\
    wf_MyViT out_d self /\
    chw self = (c, h, w) /\ n_patches self = np /\ n_blocks self = nb /\
    hidden_d self = hd /\ n_heads self = nh.
Proof.
  intros Hnp Hh Hw Hheads. unfold MyViT_init, py_mod.
  destruct (Nat.eqb_spec np 0) as [|_]; [contradiction|].
  rewrite !bind_Ok, Hh. cbn [Nat.eqb py_assert]. rewrite !bind_Ok, Hw.
  cbn [Nat.eqb py_assert]. rewrite !bind_Ok.
  set (input := (c * (h / np) * (w / np))%nat).
  pose proof (new_Linear_wf input hd g) as Hmap.
  destruct (new_Linear input hd g) as [mapper g1].
  pose proof (torch_rand_shape 1 hd g1) as [Hct1 Hct].
  destruct (torch_rand 1 hd g1) as [ct g2].
  destruct (positional_embeddings_inv (np ^ 2 + 1) hd) as (pos & Hpos & _).
  rewrite Hpos, bind_Ok.
  assert (Hblocks : exists bs g3,
             new_list_result Rng nb (MyViTBlock_init Rng new_Linear hd nh) g2
             = Ok (bs, g3) /\ length bs = nb /\
             Forall (wf_MyViTBlock hd nh) bs).
  { destruct Hheads as [-> | [Hnh Hmod]].
    - exists [], g2. repeat split. constructor.
    - apply new_list_result_Forall. intros g'.
      apply MyViTBlock_init_Ok; assumption. }
  destruct Hblocks as (bs & g3 & -> & Hlbs & Hbs). rewrite bind_Ok.
  pose proof (new_Linear_wf hd out_d g3) as Hmlp.
  destruct (new_Linear hd out_d g3) as [mlp g4].
  eexists _, _. split; [reflexivity|].
  cbn [chw n_patches n_blocks hidden_d n_heads].
  split; [|auto 10].
  unfold wf_MyViT, py_mod.
  cbn [chw n_patches n_blocks hidden_d n_heads input_d linear_mapper class_token
         positional_embeddings blocks mlp_linear fst] in *.
  destruct (Nat.eqb_spec np 0) as [|_]; [contradiction|]. rewrite Hh, Hw.
  auto 15.
Qed.
End ConstructorProofs.

Lemma zero_new_Linear_wf (n_in n_out : nat) (g : unit) :
  wf_Linear n_in n_out (zero_new_Linear n_in n_out g).1.
Proof. apply wf_zero_Linear. Qed.

Lemma zero_rand_shape (n m : nat) (g : unit) : has_shape2 n m (zero_rand n m g).1.
Proof.
  unfold zero_rand. cbn. split; [apply length_replicate|].
  apply Forall_replicate, length_replicate.
Qed.

Lemma MyMSA_init_cases_witness :
  MyMSA_init unit zero_new_Linear 8 0 tt = Raise ZeroDivisionError /\
  MyMSA_init unit zero_new_Linear 8 3 tt = Raise AssertionError /\
  exists self g', MyMSA_init unit zero_new_Linear 8 2 tt = Ok (self, g') /\
                  wf_MyMSA 8 2 self.
Proof.
  split; [|split].
  - apply (MyMSA_init_cases unit zero_new_Linear zero_new_Linear_wf 8 0 tt). reflexivity.
  - apply (MyMSA_init_cases unit zero_new_Linear zero_new_Linear_wf 8 3 tt);
      [discriminate | cbn; discriminate].
  - apply (MyMSA_init_cases unit zero_new_Linear zero_new_Linear_wf 8 2 tt);
      [discriminate | reflexivity].
Defined.

(** X17: [MyViT.__init__] succeeds when [n_patches] is not 0 and divides
    the height and the width, and — if there is a block at all — [n_heads]
    is not 0 and divides [hidden_d]; the classifier it returns has the
    layers of the sizes that [forward] relies on.  With [n_blocks = 0] the
    number of heads is not looked at. *)
Theorem MyViT_init_establishes_shapes (Rng : Type)
    (new_Linear : nat -> nat -> Rng -> Linear * Rng)
    (torch_rand : nat -> nat -> Rng -> list (list R) * Rng)
    (c h w np nb hd nh out_d : nat) (g : Rng) :
  (forall n_in n_out g', wf_Linear n_in n_out (new_Linear n_in n_out g').1) ->
  (forall n m g', has_shape2 n m (torch_rand n m g').1) ->
  np <> 0%nat -> (h mod np)%nat = 0%nat -> (w mod np)%nat = 0%nat ->
  nb = 0%nat \/ (nh <> 0%nat /\ (hd mod nh)%nat = 0%nat) ->
  exists self g',
    MyViT_init Rng new_Linear torch_rand (c, h, w) np nb hd nh out_d g = Ok (self, g') /\
    wf_MyViT out_d self /\
    chw self = (c, h, w) /\ n_patches self = np /\ n_blocks self = nb /\
    hidden_d self = hd /\ n_heads self = nh.
Proof. intros Hlin Hrand. apply MyViT_init_Ok; assumption. Qed.

Lemma MyViT_init_establishes_shapes_witness :
  exists self g',
    MyViT_init unit zero_new_Linear zero_rand (1, 4, 4)%nat 2 1 8 2 3 tt = Ok (self, g') /\
    wf_MyViT 3 self.
Proof.
  destruct (MyViT_init_establishes_shapes unit zero_new_Linear zero_rand 1 4 4 2 1 8 2 3 tt)
    as (self & g' & Hrun & Hwf & _).
  - exact zero_new_Linear_wf.
  - exact zero_rand_shape.
  - discriminate.
  - reflexivity.
  - reflexivity.
  - right. split; [discriminate | reflexivity].
  - exists self, g'. split; assumption.
Defined.

(** X18: [MyViT.__init__] fails in this order: a ZeroDivisionError for
    [n_patches = 0]; an AssertionError when [n_patches] does not divide the
    height, then the width; and, when a block is to be built, a
    ZeroDivisionError for [n_heads = 0] and an AssertionError when
    [n_heads] does not divide [hidden_d]. *)
Theorem MyViT_init_errors (Rng : Type)
    (new_Linear : nat -> nat -> Rng -> Linear * Rng)
    (torch_rand : nat -> nat -> Rng -> list (list R) * Rng)
    (c h w np nb hd nh out_d : nat) (g : Rng) :
  (np = 0%nat ->
     MyViT_init Rng new_Linear torch_rand (c, h, w) np nb hd nh out_d g
     = Raise ZeroDivisionError) /\
  (np <> 0%nat -> (h mod np)%nat <> 0%nat ->
     MyViT_init Rng new_Linear torch_rand (c, h, w) np nb hd nh out_d g
     = Raise AssertionError) /\
  (np <> 0%nat -> (h mod np)%nat = 0%nat -> (w mod np)%nat <> 0%nat ->
     MyViT_init Rng new_Linear torch_rand (c, h, w) np nb hd nh out_d g
     = Raise AssertionError) /\
  (np <> 0%nat -> (h mod np)%nat = 0%nat -> (w mod np)%nat = 0%nat ->
   nb <> 0%nat -> nh = 0%nat ->
     MyViT_init Rng new_Linear torch_rand (c, h, w) np nb hd nh out_d g
     = Raise ZeroDivisionError) /\
  (np <> 0%nat -> (h mod np)%nat = 0%nat -> (w mod np)%nat = 0%nat ->
   nb <> 0%nat -> nh <> 0%nat -> (hd mod nh)%nat <> 0%nat ->
     MyViT_init Rng new_Linear torch_rand (c, h, w) np nb hd nh out_d g
     = Raise AssertionError).
Proof.
  assert (Hblock : forall e, nb <> 0%nat ->
            (forall g', MyMSA_init Rng new_Linear hd nh g' = Raise e) ->
            np <> 0%nat -> (h mod np)%nat = 0%nat -> (w mod np)%nat = 0%nat ->
            MyViT_init Rng new_Linear torch_rand (c, h, w) np nb hd nh out_d g = Raise e).
  { intros e Hnb Hmsa Hnp Hh Hw. unfold MyViT_init, py_mod.
    destruct (Nat.eqb_spec np 0) as [|_]; [contradiction|].
    rewrite !bind_Ok, Hh. cbn [Nat.eqb py_assert]. rewrite !bind_Ok, Hw.
    cbn [Nat.eqb py_assert]. rewrite !bind_Ok.
    destruct (new_Linear _ hd g) as [mapper g1].
    destruct (torch_rand 1 hd g1) as [ct g2].
    destruct (positional_embeddings_inv (np ^ 2 + 1) hd) as (pos & Hpos & _).
    rewrite Hpos, bind_Ok.
    destruct nb as [|nb']; [contradiction|].
    assert (Hlist : new_list_result Rng (S nb') (MyViTBlock_init Rng new_Linear hd nh) g2
                    = Raise e).
    { change (new_list_result Rng (S nb') (MyViTBlock_init Rng new_Linear hd nh) g2)
        with ('(b, g') ← MyViTBlock_init Rng new_Linear hd nh g2;
              '(bs, g') ← new_list_result Rng nb' (MyViTBlock_init Rng new_Linear hd nh) g';
              Ok (b :: bs, g')).
      unfold MyViTBlock_init. rewrite Hmsa. reflexivity. }
    rewrite Hlist. reflexivity. }
  repeat split.
  - intros ->. reflexivity.
  - intros Hnp Hh. unfold MyViT_init, py_mod.
    destruct (Nat.eqb_spec np 0) as [|_]; [contradiction|]. rewrite bind_Ok.
    destruct (Nat.eqb_spec (h mod np) 0) as [|_]; [contradiction | reflexivity].
  - intros Hnp Hh Hw. unfold MyViT_init, py_mod.
    destruct (Nat.eqb_spec np 0) as [|_]; [contradiction|].
    rewrite !bind_Ok, Hh. cbn [Nat.eqb py_assert]. rewrite !bind_Ok.
    destruct (Nat.eqb_spec (w mod np) 0) as [|_]; [contradiction | reflexivity].
  - intros Hnp Hh Hw Hnb ->. apply Hblock; try assumption. intros g'. reflexivity.
  - intros Hnp Hh Hw Hnb Hnh Hmod. apply Hblock; try assumption. intros g'.
    unfold MyMSA_init, py_mod.
    destruct (Nat.eqb_spec nh 0) as [|_]; [contradiction|]. rewrite bind_Ok.
    destruct (Nat.eqb_spec (hd mod nh) 0) as [|_]; [contradiction | reflexivity].
Qed.

(** X19: a classifier fresh from [MyViT.__init__] classifies: built for
    square images whose side [n_patches] divides (and, with a block, a
    number of heads that divides [hidden_d]) and at least one class, it
    returns for every non-empty batch of such images one probability
    distribution per image. *)
Theorem MyViT_init_then_forward (Rng : Type)
    (new_Linear : nat -> nat -> Rng -> Linear * Rng)
    (torch_rand : nat -> nat -> Rng -> list (list R) * Rng)
    (gelu : R -> R) (c h np nb hd nh out_d n : nat) (g : Rng) (x : Tensor4) :
  (forall n_in n_out g', wf_Linear n_in n_out (new_Linear n_in n_out g').1) ->
  (forall n m g', has_shape2 n m (torch_rand n m g').1) ->
  np <> 0%nat -> (h mod np)%nat = 0%nat ->
  nb = 0%nat \/ (nh <> 0%nat /\ (hd mod nh)%nat = 0%nat) ->
  shape x = (n, c, h, h) -> wf_tensor4 x -> (0 < n)%nat -> (0 < out_d)%nat ->
  exists self g' preds,
    MyViT_init Rng new_Linear torch_rand (c, h, h) np nb hd nh out_d g = Ok (self, g') /\
    MyViT_forward gelu self x = Ok preds /\
    length preds = n /\
    Forall (fun row => length row = out_d /\ is_distribution row) preds.
Proof.
  intros Hlin Hrand Hnp Hh Hheads Hshape Hx Hn Hout.
  destruct (MyViT_init_Ok Rng new_Linear torch_rand Hlin Hrand c h h np nb hd nh out_d g
              Hnp Hh Hh Hheads) as (self & g' & Hrun & Hwf & Hchw & Hnps & _).
  assert (Hin : input_d self = (c * (h / np) * (h / np))%nat).
  { unfold wf_MyViT in Hwf. rewrite Hchw, Hnps in Hwf. exact (proj1 (proj2 (proj2 Hwf))). }
  destruct (MyViT_forward_Ok_any_shape gelu out_d self x n c h Hwf Hshape Hx)
    as (preds & Hfwd & Hlen & Hrows); try assumption.
  - rewrite Hnps. unfold py_mod.
    destruct (Nat.eqb_spec np 0) as [|_]; [contradiction|]. rewrite Hh. reflexivity.
  - rewrite Hnps, Hin. reflexivity.
  - exists self, g', preds. repeat split; assumption.
Qed.

Lemma MyViT_init_then_forward_witness :
  exists self g' preds,
    MyViT_init unit zero_new_Linear zero_rand (1, 4, 4)%nat 2 1 8 2 3 tt = Ok (self, g') /\
    MyViT_forward (fun a => a) self batch_ex = Ok preds /\
    length preds = 1%nat.
Proof.
  destruct (MyViT_init_then_forward unit zero_new_Linear zero_rand (fun a => a)
              1 4 2 1 8 2 3 1 tt batch_ex)
    as (self & g' & preds & Hinit & Hfwd & Hlen & _).
  - exact zero_new_Linear_wf.
  - exact zero_rand_shape.
  - discriminate.
  - reflexivity.
  - right. split; [discriminate | reflexivity].
  - reflexivity.
  - cbn. repeat constructor.
  - lia.
  - lia.
  - exists self, g', preds. repeat split; assumption.
Defined.

(** ** PCA: the fitted state *)

Lemma fitted_W_shape (d D : nat) (vecs : list (list R)) :
  has_shape2 D D vecs ->
  has_shape2 D (Nat.min d D)
    ((fun row : list R => take d row) <$> ((fun row : list R => reverse row) <$> vecs)).
Proof.
  intros [Hrows Hcols]. split; [rewrite !length_fmap; exact Hrows|].
  rewrite !Forall_fmap. eapply Forall_impl; [exact Hcols|].
  intros row Hrow. unfold compose. cbv beta in Hrow |- *.
  rewrite length_take, length_reverse, Hrow. reflexivity.
Qed.

(** X20: a successful [find_principal_components] leaves [d] as it was and
    stores a mean of D entries and a matrix W of D rows and min(d, D)
    columns, whatever the object held before. *)
Theorem find_principal_components_state
    (eigh : list (list R) -> result (list R * list (list R)))
    (self : PCA) (data : Array2 R) (N D : nat) (vals : list R) (vecs : list (list R)) :
  shape2 data = (N, D) -> wf_array2 data -> (2 <= N)%nat -> (2 <= D)%nat ->
  eigh (cov_matrix (sub_rows data (np_mean_axis0 data))) = Ok (vals, vecs) ->
  has_shape2 D D vecs ->
  exists st exvar mean W,
    find_principal_components eigh self data = Ok (st, exvar) /\
    pca_d st = pca_d self /\
    pca_mean st = Some mean /\ length mean = D /\
    pca_W st = Some W /\ has_shape2 D (Nat.min (pca_d self) D) W.
Proof.
  intros Hshape Hwf HN HD Heigh Hvecs.
  rewrite (find_principal_components_run eigh self data N D vals vecs Hshape Hwf HD Heigh).
  eexists _, _, _, _. split; [reflexivity|]. cbn [pca_d pca_mean pca_W].
  split; [reflexivity|]. split; [reflexivity|].
  split; [exact (length_np_mean_axis0 data N D Hshape)|].
  split; [reflexivity|]. apply fitted_W_shape. exact Hvecs.
Qed.

Lemma find_principal_components_state_witness :
  exists st exvar W,
    find_principal_components eigh_two (PCA_init 1) data_two = Ok (st, exvar) /\
    pca_W st = Some W /\ has_shape2 2 1 W.
Proof.
  destruct (find_principal_components_state eigh_two (PCA_init 1) data_two 2 2
              [0; 2]%R [[0; 1]; [1; 0]]%R)
    as (st & exvar & mean & W & Hrun & _ & _ & _ & HW & Hshape).
  - reflexivity.
  - exact wf_data_two.
  - lia.
  - lia.
  - reflexivity.
  - split; [reflexivity | repeat constructor].
  - exists st, exvar, W. split; [exact Hrun|]. split; assumption.
Defined.

Lemma np_sub_mean_Ok (data : Array2 R) (mean : list R) (N D : nat) :
  shape2 data = (N, D) -> wf_array2 data -> length mean = D ->
  exists centered,
    np_sub_mean data (Some mean) = Ok centered /\ has_shape2 N D centered /\
    forall i row, rows2 data !! i = Some row ->
      centered !! i = Some (zip_with Rminus row mean).
Proof.
  intros Hshape Hwf Hmean. unfold wf_array2 in Hwf. rewrite Hshape in Hwf.
  destruct Hwf as [HN Hrows]. unfold np_sub_mean.
  set (f := fun row : list R =>
              if Nat.eqb (length row) (length mean)
              then Ok (zip_with Rminus row mean) else Raise ValueError).
  destruct (mapM_Ok f (fun row => length row = D) (fun row => length row = D)
              (rows2 data) Hrows) as (centered & Hrun & Hlen & Hshapes).
  - intros row Hrow. unfold f. rewrite Hrow, Hmean, Nat.eqb_refl.
    eexists. split; [reflexivity|]. rewrite length_zip_with. lia.
  - exists centered. split; [exact Hrun|]. split; [split; [lia | exact Hshapes]|].
    intros i row Hi. destruct (mapM_lookup f _ _ i row Hrun Hi) as (y & Hy & Hyi).
    unfold f in Hy. rewrite (Forall_lookup_1 _ _ _ _ Hrows Hi), Hmean, Nat.eqb_refl in Hy.
    injection Hy as <-. exact Hyi.
Qed.

Lemma np_matmul_Ok (a W : list (list R)) (N D k : nat) :
  has_shape2 N D a -> has_shape2 D k W -> (0 < D)%nat ->
  exists c,
    np_matmul a (Some W) = Ok c /\ has_shape2 N k c /\
    forall i row, a !! i = Some row ->
      c !! i = Some ((fun col => dot row col) <$> transpose W).
Proof.
  intros [HN Ha] HW HD. unfold np_matmul.
  set (f := fun row : list R =>
              if Nat.eqb (length row) (length W)
              then Ok ((fun col => dot row col) <$> transpose W) else Raise ValueError).
  destruct (mapM_Ok f (fun row => length row = D) (fun row => length row = k) a Ha)
    as (c & Hrun & Hlen & Hshapes).
  - intros row Hrow. unfold f. rewrite Hrow, (proj1 HW), Nat.eqb_refl.
    eexists. split; [reflexivity|].
    rewrite length_fmap. apply (transpose_length D); assumption.
  - exists c. split; [exact Hrun|]. split; [split; [lia | exact Hshapes]|].
    intros i row Hi. destruct (mapM_lookup f _ _ i row Hrun Hi) as (y & Hy & Hyi).
    unfold f in Hy. rewrite (Forall_lookup_1 _ _ _ _ Ha Hi), (proj1 HW), Nat.eqb_refl in Hy.
    injection Hy as <-. exact Hyi.
Qed.

(** X21: after a successful fit on D features, [reduce_dimension] maps
    every array of N' rows and D columns to an array of N' rows and
    min(d, D) columns, without raising. *)
Theorem fit_then_reduce_dimension
    (eigh : list (list R) -> result (list R * list (list R)))
    (self : PCA) (data data' : Array2 R) (N N' D : nat)
    (vals : list R) (vecs : list (list R)) :
  shape2 data = (N, D) -> wf_array2 data -> (2 <= N)%nat -> (2 <= D)%nat ->
  eigh (cov_matrix (sub_rows data (np_mean_axis0 data))) = Ok (vals, vecs) ->
  has_shape2 D D vecs ->
  shape2 data' = (N', D) -> wf_array2 data' ->
  exists st exvar reduced,
    find_principal_components eigh self data = Ok (st, exvar) /\
    reduce_dimension st data' = Ok reduced /\
    has_shape2 N' (Nat.min (pca_d self) D) reduced.
Proof.
  intros Hshape Hwf HN HD Heigh Hvecs Hshape' Hwf'.
  rewrite (find_principal_components_run eigh self data N D vals vecs Hshape Hwf HD Heigh).
  destruct (np_sub_mean_Ok data' (np_mean_axis0 data) N' D Hshape' Hwf'
              (length_np_mean_axis0 data N D Hshape)) as (centered & Hsub & Hc & _).
  destruct (np_matmul_Ok centered _ N' D (Nat.min (pca_d self) D) Hc
              (fitted_W_shape (pca_d self) D vecs Hvecs) ltac:(lia))
    as (reduced & Hred & Hshape_red & _).
  eexists _, _, reduced. split; [reflexivity|]. split; [|exact Hshape_red].
  unfold reduce_dimension. cbn [pca_mean pca_W]. rewrite Hsub, bind_Ok. exact Hred.
Qed.

Lemma fit_then_reduce_dimension_witness :
  exists st exvar reduced,
    find_principal_components eigh_two (PCA_init 1) data_two = Ok (st, exvar) /\
    reduce_dimension st data_const = Ok reduced /\ has_shape2 2 1 reduced.
Proof.
  apply (fit_then_reduce_dimension eigh_two (PCA_init 1) data_two data_const 2 2 2
           [0; 2]%R [[0; 1]; [1; 0]]%R).
  - reflexivity.
  - exact wf_data_two.
  - lia.
  - lia.
  - reflexivity.
  - split; [reflexivity | repeat constructor].
  - reflexivity.
  - exact wf_data_const.
Defined.

(** X22: a fitted object refuses data with another number of features: an
    array with at least one row whose D' columns are neither the D columns
    of the training data nor a single column raises a ValueError.  (A
    single column is left out: numpy would broadcast it against the mean.) *)
Theorem reduce_dimension_wrong_features
    (eigh : list (list R) -> result (list R * list (list R)))
    (self : PCA) (data data' : Array2 R) (N N' D D' : nat)
    (vals : list R) (vecs : list (list R)) :
  shape2 data = (N, D) -> wf_array2 data -> (2 <= N)%nat -> (2 <= D)%nat ->
  eigh (cov_matrix (sub_rows data (np_mean_axis0 data))) = Ok (vals, vecs) ->
  shape2 data' = (N', D') -> wf_array2 data' -> (0 < N')%nat ->
  D' <> D -> D' <> 1%nat ->
  exists st exvar,
    find_principal_components eigh self data = Ok (st, exvar) /\
    reduce_dimension st data' = Raise ValueError.
Proof.
  intros Hshape Hwf HN HD Heigh Hshape' Hwf' HN' HD' _.
  rewrite (find_principal_components_run eigh self data N D vals vecs Hshape Hwf HD Heigh).
  eexists _, _. split; [reflexivity|].
  unfold reduce_dimension, np_sub_mean. cbn [pca_mean pca_W].
  unfold wf_array2 in Hwf'. rewrite Hshape' in Hwf'. destruct Hwf' as [Hl Hrows].
  destruct (rows2 data') as [|row rest]; [cbn in Hl; lia|].
  rewrite (mapM_first_raise _ _ _ ValueError); [reflexivity|].
  rewrite (Forall_inv Hrows), (length_np_mean_axis0 data N D Hshape).
  destruct (Nat.eqb_spec D' D); [contradiction | reflexivity].
Qed.

Lemma reduce_dimension_wrong_features_witness :
  exists st exvar,
    find_principal_components eigh_two (PCA_init 1) data_two = Ok (st, exvar) /\
    reduce_dimension st (mkArray2 (1, 3)%nat [[1; 2; 3]]%R) = Raise ValueError.
Proof.
  apply (reduce_dimension_wrong_features eigh_two (PCA_init 1) data_two
           (mkArray2 (1, 3)%nat [[1; 2; 3]]%R) 2 1 2 3 [0; 2]%R [[0; 1]; [1; 0]]%R).
  - reflexivity.
  - exact wf_data_two.
  - lia.
  - lia.
  - reflexivity.
  - reflexivity.
  - cbn. split; [reflexivity | repeat constructor].
  - lia.
  - lia.
  - lia.
Defined.

Lemma sum_take_mono (d1 d2 : nat) (l : list R) :
  Forall (fun a => 0 <= a)%R l -> (d1 <= d2)%nat ->
  (sum (take d1 l) <= sum (take d2 l))%R.
Proof.
  intros Hl. revert d1 d2. induction Hl as [|a l Ha Hl IH]; intros d1 d2 Hd.
  - rewrite !take_nil. lra.
  - destruct d1 as [|d1]; cbn [take].
    + rewrite sum_nil. apply sum_take_le. constructor; assumption.
    + destruct d2 as [|d2]; [lia|]. cbn [take]. rewrite !sum_cons.
      specialize (IH d1 d2 ltac:(lia)). lra.
Qed.

(** X23: keeping more components never lowers the explained variance: on
    the same data (N >= 2 rows, D >= 2 features, the eigenpairs of the
    covariance matrix returned, eigenvalues not summing to zero) a PCA with
    d1 <= d2 components reports at most the percentage of one with d2. *)
Theorem explained_variance_monotone
    (eigh : list (list R) -> result (list R * list (list R)))
    (self1 self2 : PCA) (data : Array2 R) (N D : nat)
    (vals : list R) (vecs : list (list R)) :
  shape2 data = (N, D) -> wf_array2 data -> (2 <= N)%nat -> (2 <= D)%nat ->
  eigh (cov_matrix (sub_rows data (np_mean_axis0 data))) = Ok (vals, vecs) ->
  eigh_spec D (cov_matrix (sub_rows data (np_mean_axis0 data))) vals vecs ->
  sum vals <> 0%R ->
  (pca_d self1 <= pca_d self2)%nat ->
  exists st1 e1 st2 e2,
    find_principal_components eigh self1 data = Ok (st1, Finite e1) /\
    find_principal_components eigh self2 data = Ok (st2, Finite e2) /\
    (e1 <= e2)%R.
Proof.
  intros Hshape Hwf HN HD Heigh Hspec Hsum Hd.
  rewrite !(find_principal_components_run eigh _ data N D vals vecs Hshape Hwf HD Heigh).
  destruct (sub_rows_wf data (np_mean_axis0 data) N D Hshape Hwf
              (length_np_mean_axis0 data N D Hshape)) as [Hs Hw].
  pose proof (covariance_eigenvalues_nonneg _ N D vals vecs Hs Hw HN Hspec) as Hnn.
  assert (Hrev : Forall (fun a => 0 <= a)%R (reverse vals)) by (apply Forall_reverse; exact Hnn).
  pose proof (sum_take_mono _ _ (reverse vals) Hrev Hd) as Hmono.
  pose proof (sum_nonneg vals Hnn) as Htot.
  rewrite sum_reverse.
  unfold np_div. destruct (Req_EM_T (sum vals) 0) as [H0|_]; [contradiction|].
  cbn [np_mul]. eexists _, _, _, _. split; [reflexivity|]. split; [reflexivity|].
  assert (Hpos : (0 < / sum vals)%R) by (apply Rinv_0_lt_compat; lra).
  unfold Rdiv. nra.
Qed.

Lemma explained_variance_monotone_witness :
  exists st1 e1 st2 e2,
    find_principal_components eigh_two (PCA_init 0) data_two = Ok (st1, Finite e1) /\
    find_principal_components eigh_two (PCA_init 1) data_two = Ok (st2, Finite e2) /\
    (e1 <= e2)%R.
Proof.
  apply (explained_variance_monotone eigh_two (PCA_init 0) (PCA_init 1) data_two 2 2
           [0; 2]%R [[0; 1]; [1; 0]]%R).
  - reflexivity.
  - exact wf_data_two.
  - lia.
  - lia.
  - reflexivity.
  - exact eigh_two_spec.
  - unfold sum. cbn. lra.
  - cbn. lia.
Defined.

Lemma dot_sub_self (m col : list R) : dot (zip_with Rminus m m) col = 0%R.
Proof.
  revert col. induction m as [|a m IH]; intros col; [reflexivity|].
  destruct col as [|c col]; [reflexivity|].
  cbn [zip_with]. rewrite dot_cons, IH. lra.
Qed.

Lemma mapM_replicate {A B : Type} (f : A -> result B) (n : nat) (x : A) (y : B) :
  f x = Ok y -> mapM f (replicate n x) = Ok (replicate n y).
Proof.
  intros Hf. induction n as [|n IH]; [reflexivity|].
  cbn [replicate mapM]. rewrite Hf, bind_Ok, IH, bind_Ok. reflexivity.
Qed.

(** X24: the fitted projection is centred on the training mean: after a
    successful fit, [reduce_dimension] maps every row equal to the stored
    mean to the zero vector. *)
Theorem reduce_dimension_of_mean
    (eigh : list (list R) -> result (list R * list (list R)))
    (self : PCA) (data : Array2 R) (N N' D : nat)
    (vals : list R) (vecs : list (list R)) :
  shape2 data = (N, D) -> wf_array2 data -> (2 <= N)%nat -> (2 <= D)%nat ->
  eigh (cov_matrix (sub_rows data (np_mean_axis0 data))) = Ok (vals, vecs) ->
  has_shape2 D D vecs ->
  exists st exvar mean,
    find_principal_components eigh self data = Ok (st, exvar) /\
    pca_mean st = Some mean /\
    reduce_dimension st (mkArray2 (N', D) (replicate N' mean)) =
    Ok (replicate N' (replicate (Nat.min (pca_d self) D) 0%R)).
Proof.
  intros Hshape Hwf HN HD Heigh Hvecs.
  rewrite (find_principal_components_run eigh self data N D vals vecs Hshape Hwf HD Heigh).
  eexists _, _, _. split; [reflexivity|]. split; [reflexivity|].
  set (mean := np_mean_axis0 data).
  set (W := (fun row : list R => take (pca_d self) row)
              <$> ((fun row : list R => reverse row) <$> vecs)).
  pose proof (fitted_W_shape (pca_d self) D vecs Hvecs) as HW. fold W in HW.
  unfold reduce_dimension, np_sub_mean. cbn [pca_mean pca_W rows2].
  rewrite (mapM_replicate _ N' mean (zip_with Rminus mean mean))
    by (rewrite Nat.eqb_refl; reflexivity).
  rewrite bind_Ok. unfold np_matmul.
  apply mapM_replicate.
  rewrite length_zip_with, Nat.min_id, (proj1 HW).
  unfold mean. rewrite (length_np_mean_axis0 data N D Hshape), Nat.eqb_refl.
  f_equal. apply list_eq_same_length with (Nat.min (pca_d self) D).
  - apply length_replicate.
  - rewrite length_fmap. apply (transpose_length D); [exact HW | lia].
  - intros j x y _ Hx Hy. apply lookup_replicate in Hy. destruct Hy as [-> _].
    rewrite list_lookup_fmap in Hx.
    destruct (transpose W !! j) as [col|]; [|discriminate].
    injection Hx as <-. apply dot_sub_self.
Qed.

Lemma reduce_dimension_of_mean_witness :
  exists st exvar mean,
    find_principal_components eigh_two (PCA_init 1) data_two = Ok (st, exvar) /\
    pca_mean st = Some mean /\
    reduce_dimension st (mkArray2 (3, 2)%nat (replicate 3 mean)) =
    Ok (replicate 3 [0%R]).
Proof.
  apply (reduce_dimension_of_mean eigh_two (PCA_init 1) data_two 2 3 2
           [0; 2]%R [[0; 1]; [1; 0]]%R).
  - reflexivity.
  - exact wf_data_two.
  - lia.
  - lia.
  - reflexivity.
  - split; [reflexivity | repeat constructor].
Defined.

Lemma sum_fmap_shift (c : R) (l : list R) :
  sum ((fun x => x + c)%R <$> l) = (sum l + INR (length l) * c)%R.
Proof.
  induction l as [|a l IH].
  - cbn [fmap list_fmap length INR]. rewrite sum_nil. lra.
  - rewrite fmap_cons, !sum_cons, IH.
    change (length (a :: l)) with (S (length l)). rewrite S_INR. lra.
Qed.

Lemma column_add_rows (j D : nat) (c : R) (v : list R) (rows : list (list R)) :
  Forall (fun row : list R => length row = D) rows -> length v = D ->
  v !! j = Some c ->
  column j ((fun row : list R => zip_with Rplus row v) <$> rows) =
  (fun x => x + c)%R <$> column j rows.
Proof.
  intros Hrows Hv Hj. unfold column. rewrite <- !list_fmap_compose.
  apply Forall_fmap_ext_1. eapply Forall_impl; [exact Hrows|].
  intros row Hrow. unfold compose. cbv beta in Hrow |- *.
  rewrite lookup_zip_with, Hj.
  assert (Hlt : (j < length row)%nat) by (apply lookup_lt_Some in Hj; lia).
  destruct (lookup_lt_is_Some_2 row j Hlt) as [a Ha]. rewrite Ha. reflexivity.
Qed.

Lemma np_mean_axis0_add_rows (data : Array2 R) (v : list R) (N D : nat) :
  shape2 data = (N, D) -> wf_array2 data -> N <> 0%nat -> length v = D ->
  np_mean_axis0 (add_rows data v) = zip_with Rplus (np_mean_axis0 data) v.
Proof.
  intros Hshape Hwf HN Hv. unfold wf_array2 in Hwf. rewrite Hshape in Hwf.
  destruct Hwf as [Hlen Hrows].
  apply list_eq_same_length with D.
  - rewrite length_zip_with, (length_np_mean_axis0 data N D Hshape). lia.
  - apply (length_np_mean_axis0 _ N D). exact Hshape.
  - intros j x y Hlt Hx Hy.
    destruct (lookup_lt_is_Some_2 v j ltac:(lia)) as [c Hc].
    unfold np_mean_axis0, add_rows in Hx. cbn [shape2 rows2] in Hx.
    rewrite Hshape in Hx. rewrite list_lookup_fmap in Hx.
    rewrite lookup_zip_with, Hc in Hy. unfold np_mean_axis0 in Hy.
    rewrite Hshape, list_lookup_fmap in Hy.
    destruct (range D !! j) as [j'|] eqn:Hr; [|discriminate].
    apply lookup_range in Hr. destruct Hr as [-> _].
    cbn in Hx, Hy. injection Hx as <-. injection Hy as <-.
    rewrite (column_add_rows j D c v (rows2 data) Hrows Hv Hc), sum_fmap_shift.
    unfold column. rewrite length_fmap, Hlen.
    assert (INR N <> 0)%R by (apply not_0_INR; exact HN).
    field. assumption.
Qed.

Lemma zip_with_shift_cancel (row m v : list R) :
  length row = length v -> length m = length v ->
  zip_with Rminus (zip_with Rplus row v) (zip_with Rplus m v) = zip_with Rminus row m.
Proof.
  revert m v. induction row as [|a row IH]; intros m v Hr Hm.
  - reflexivity.
  - destruct v as [|c v]; [discriminate|]. destruct m as [|b m]; [discriminate|].
    cbn [zip_with]. f_equal; [lra|]. apply IH; cbn in Hr, Hm; lia.
Qed.

Lemma centred_add_rows (data : Array2 R) (v : list R) (N D : nat) :
  shape2 data = (N, D) -> wf_array2 data -> N <> 0%nat -> length v = D ->
  sub_rows (add_rows data v) (np_mean_axis0 (add_rows data v)) =
  sub_rows data (np_mean_axis0 data).
Proof.
  intros Hshape Hwf HN Hv.
  rewrite (np_mean_axis0_add_rows data v N D Hshape Hwf HN Hv).
  unfold sub_rows, add_rows. cbn [shape2 rows2]. f_equal.
  rewrite <- list_fmap_compose. apply Forall_fmap_ext_1.
  unfold wf_array2 in Hwf. rewrite Hshape in Hwf.
  eapply Forall_impl; [exact (proj2 Hwf)|].
  intros row Hrow. unfold compose. cbv beta in Hrow |- *.
  apply zip_with_shift_cancel.
  - lia.
  - rewrite (length_np_mean_axis0 data N D Hshape). lia.
Qed.

(** X25: [find_principal_components] is invariant under a translation of
    the data: adding one vector [v] to every row of the training data
    gives the same outcome (the same error, or the same [W] and explained
    variance), except that the stored mean moves by [v]. *)
Theorem find_principal_components_translation
    (eigh : list (list R) -> result (list R * list (list R)))
    (self : PCA) (data : Array2 R) (v : list R) (N D : nat) :
  shape2 data = (N, D) -> wf_array2 data -> (2 <= N)%nat -> length v = D ->
  find_principal_components eigh self (add_rows data v) =
  match find_principal_components eigh self data with
  | Ok (st, exvar) =>
    Ok (mkPCA (pca_d st)
          (option_map (fun m : list R => zip_with Rplus m v) (pca_mean st))
          (pca_W st), exvar)
  | Raise e => Raise e
  end.
Proof.
  intros Hshape Hwf HN Hv.
  assert (HN0 : N <> 0%nat) by lia.
  unfold find_principal_components.
  rewrite (centred_add_rows data v N D Hshape Hwf HN0 Hv).
  rewrite (np_mean_axis0_add_rows data v N D Hshape Hwf HN0 Hv).
  destruct (np_linalg_eigh eigh (np_cov (sub_rows data (np_mean_axis0 data))))
    as [[vals vecs]|e]; reflexivity.
Qed.

Lemma find_principal_components_translation_witness :
  find_principal_components eigh_two (PCA_init 1) (add_rows data_two [5; 7]%R) =
  match find_principal_components eigh_two (PCA_init 1) data_two with
  | Ok (st, exvar) =>
    Ok (mkPCA (pca_d st)
          (option_map (fun m : list R => zip_with Rplus m [5; 7]%R) (pca_mean st))
          (pca_W st), exvar)
  | Raise e => Raise e
  end.
Proof.
  apply (find_principal_components_translation eigh_two (PCA_init 1) data_two
           [5; 7]%R 2 2).
  - reflexivity.
  - exact wf_data_two.
  - lia.
  - reflexivity.
Defined.

(** ** MLP and CNN *)

Lemma Linear_forward_Ok (n_in n_out N : nat) (l : Linear) (x : Tensor) :
  wf_Linear n_in n_out l -> is_batch2 N n_in x ->
  exists y, Linear_forward l x = Ok y /\ is_batch2 N n_out y.
Proof.
  intros Hl (a & -> & Hshape & Hwf).
  unfold wf_array2 in Hwf. rewrite Hshape in Hwf.
  destruct (Linear_forward2_Ok n_in n_out N l (rows2 a) Hl Hwf) as (rows & Hrows & Hs).
  destruct Hl as (Hin & Hout & _).
  unfold Linear_forward. rewrite Hshape, Hin, Nat.eqb_refl, Hrows, bind_Ok, Hout.
  eexists. split; [reflexivity|].
  eexists. split; [reflexivity|]. split; [reflexivity|]. exact Hs.
Qed.

Lemma Linear_forward_width (n_in n_out N D : nat) (l : Linear) (x : Tensor) :
  wf_Linear n_in n_out l -> is_batch2 N D x -> D <> n_in ->
  Linear_forward l x = Raise RuntimeError.
Proof.
  intros (Hin & _) (a & -> & Hshape & _) HD.
  unfold Linear_forward. rewrite Hshape, Hin.
  destruct (Nat.eqb_spec D n_in) as [He|_]; [contradiction | reflexivity].
Qed.

Lemma ReLU_forward_batch2 (N D : nat) (x : Tensor) :
  is_batch2 N D x -> is_batch2 N D (ReLU_forward x).
Proof.
  intros (a & -> & Hshape & Hwf). unfold wf_array2 in Hwf. rewrite Hshape in Hwf.
  eexists. split; [reflexivity|]. split; [exact Hshape|].
  unfold wf_array2. cbn [shape2 rows2]. rewrite Hshape.
  split; [rewrite length_fmap; exact (proj1 Hwf)|].
  rewrite Forall_fmap. eapply Forall_impl; [exact (proj2 Hwf)|].
  intros row Hrow. unfold compose. cbv beta in Hrow |- *.
  rewrite length_fmap. exact Hrow.
Qed.

Lemma ReLU_forward_batch4 (N C H W : nat) (x : Tensor) :
  is_batch4 N C H W x -> is_batch4 N C H W (ReLU_forward x).
Proof.
  intros (t & -> & Hshape & Hwf). unfold wf_tensor4 in Hwf. rewrite Hshape in Hwf.
  eexists. split; [reflexivity|]. split; [exact Hshape|].
  unfold wf_tensor4. cbn [shape elems]. rewrite Hshape.
  split; [rewrite length_fmap; exact (proj1 Hwf)|].
  rewrite Forall_fmap. eapply Forall_impl; [exact (proj2 Hwf)|].
  intros image [Hc Hchs]. unfold compose. cbv beta.
  split; [rewrite length_fmap; exact Hc|].
  rewrite Forall_fmap. eapply Forall_impl; [exact Hchs|].
  intros ch [Hh Hrows]. unfold compose. cbv beta.
  split; [rewrite length_fmap; exact Hh|].
  rewrite Forall_fmap. eapply Forall_impl; [exact Hrows|].
  intros row Hrow. unfold compose. cbv beta in Hrow |- *.
  rewrite length_fmap. exact Hrow.
Qed.

Lemma wf_grid {X : Type} (h w : nat) (f : nat -> nat -> X) :
  length ((fun i => (fun j => f i j) <$> range w) <$> range h) = h /\
  Forall (fun row : list X => length row = w)
    ((fun i => (fun j => f i j) <$> range w) <$> range h).
Proof.
  unfold range. split; [rewrite length_fmap, length_seq; reflexivity|].
  rewrite Forall_fmap. apply Forall_forall. intros i _.
  unfold compose. cbv beta. rewrite length_fmap, length_seq. reflexivity.
Qed.

Lemma conv2d_image_wf (c_in c_out k p h w : nat) (l : Conv2d)
    (image : list (list (list R))) :
  wf_Conv2d c_in c_out k p l -> wf_image c_out h w (conv2d_image l h w image).
Proof.
  intros (_ & _ & _ & _ & Hw & _ & Hb). unfold conv2d_image, wf_image.
  split; [rewrite length_zip_with; lia|].
  apply Forall_lookup_2. intros o ch Ho.
  apply lookup_zip_with_Some in Ho. destruct Ho as (wo & b & -> & _ & _).
  apply wf_grid.
Qed.

Lemma Conv2d_forward_Ok (c_in c_out k p N H W : nat) (l : Conv2d) (x : Tensor) :
  wf_Conv2d c_in c_out k p l -> is_batch4 N c_in H W x ->
  (k <= H + 2 * p)%nat -> (k <= W + 2 * p)%nat ->
  exists y, Conv2d_forward l x = Ok y /\
            is_batch4 N c_out (conv_out H k p) (conv_out W k p) y.
Proof.
  intros Hl (t & -> & Hshape & Hwf) HH HW.
  unfold wf_tensor4 in Hwf. rewrite Hshape in Hwf.
  pose proof Hl as (Hin & Hout & Hk & Hp & _).
  unfold Conv2d_forward. rewrite Hshape, Hin, Hk, Hp, Hout, Nat.eqb_refl.
  cbv zeta. cbn [negb].
  destruct (Nat.ltb_spec (H + 2 * p) k) as [Hlt|_]; [lia|].
  destruct (Nat.ltb_spec (W + 2 * p) k) as [Hlt|_]; [lia|].
  cbn [orb]. eexists. split; [reflexivity|].
  eexists. split; [reflexivity|]. split; [reflexivity|].
  unfold wf_tensor4. cbn [shape elems].
  split; [rewrite length_fmap; exact (proj1 Hwf)|].
  rewrite Forall_fmap. apply Forall_forall. intros image _.
  unfold compose. cbv beta. apply (conv2d_image_wf c_in c_out k p). exact Hl.
Qed.

Lemma Conv2d_forward_small (c_in c_out k p N C H W : nat) (l : Conv2d) (x : Tensor) :
  wf_Conv2d c_in c_out k p l -> is_batch4 N C H W x ->
  (H + 2 * p < k)%nat \/ (W + 2 * p < k)%nat ->
  Conv2d_forward l x = Raise RuntimeError.
Proof.
  intros (_ & _ & Hk & Hp & _) (t & -> & Hshape & _) Hsmall.
  unfold Conv2d_forward. rewrite Hshape, Hk, Hp. cbv zeta.
  destruct (negb (C =? in_channels l)%nat); [reflexivity|].
  destruct (Nat.ltb_spec (H + 2 * p) k) as [_|HH]; [reflexivity|].
  destruct (Nat.ltb_spec (W + 2 * p) k) as [_|HW]; [reflexivity|]. lia.
Qed.

Lemma MaxPool2d_forward_Ok (k stride N C H W : nat) (x : Tensor) :
  is_batch4 N C H W x -> k <> 0%nat -> stride <> 0%nat ->
  (k <= H)%nat -> (k <= W)%nat ->
  exists y, MaxPool2d_forward k stride x = Ok y /\
            is_batch4 N C (pool_out H k stride) (pool_out W k stride) y.
Proof.
  intros (t & -> & Hshape & Hwf) Hk Hs HH HW.
  unfold wf_tensor4 in Hwf. rewrite Hshape in Hwf.
  unfold MaxPool2d_forward. rewrite Hshape.
  destruct (Nat.eqb_spec k 0) as [?|_]; [contradiction|].
  destruct (Nat.eqb_spec stride 0) as [?|_]; [contradiction|].
  destruct (Nat.ltb_spec H k) as [?|_]; [lia|].
  destruct (Nat.ltb_spec W k) as [?|_]; [lia|].
  cbn [orb]. cbv zeta. eexists. split; [reflexivity|].
  eexists. split; [reflexivity|]. split; [reflexivity|].
  unfold wf_tensor4. cbn [shape elems].
  split; [rewrite length_fmap; exact (proj1 Hwf)|].
  rewrite Forall_fmap. eapply Forall_impl; [exact (proj2 Hwf)|].
  intros image [Hc _]. unfold compose. cbv beta.
  split; [rewrite length_fmap; exact Hc|].
  rewrite Forall_fmap. apply Forall_forall. intros ch _.
  unfold compose, pool_channel. cbv beta. apply wf_grid.
Qed.

Lemma MaxPool2d_forward_small (k stride N C H W : nat) (x : Tensor) :
  is_batch4 N C H W x -> (H < k)%nat \/ (W < k)%nat ->
  MaxPool2d_forward k stride x = Raise RuntimeError.
Proof.
  intros (t & -> & Hshape & _) Hsmall.
  unfold MaxPool2d_forward. rewrite Hshape.
  destruct (Nat.eqb k 0 || Nat.eqb stride 0); [reflexivity|].
  destruct (Nat.ltb_spec H k) as [_|HH]; [reflexivity|].
  destruct (Nat.ltb_spec W k) as [_|HW]; [reflexivity|]. lia.
Qed.

Lemma length_flatten_image (C H W : nat) (image : list (list (list R))) :
  wf_image C H W image -> length (flatten image) = (C * H * W)%nat.
Proof.
  intros [Hc Hchs]. unfold flatten.
  rewrite (length_concat_uniform W).
  - rewrite (length_concat_uniform H), Hc; [reflexivity|].
    eapply Forall_impl; [exact Hchs|]. intros ch [Hh _]. exact Hh.
  - apply Forall_concat. eapply Forall_impl; [exact Hchs|].
    intros ch [_ Hrows]. exact Hrows.
Qed.

Lemma Flatten_forward_Ok (N C H W : nat) (x : Tensor) :
  is_batch4 N C H W x ->
  exists y, Flatten_forward x = Ok y /\ is_batch2 N (C * H * W) y.
Proof.
  intros (t & -> & Hshape & Hwf).
  unfold wf_tensor4 in Hwf. rewrite Hshape in Hwf.
  unfold Flatten_forward. rewrite Hshape.
  eexists. split; [reflexivity|].
  eexists. split; [reflexivity|]. split; [reflexivity|].
  unfold wf_array2. cbn [shape2 rows2].
  split; [rewrite length_fmap; exact (proj1 Hwf)|].
  rewrite Forall_fmap. eapply Forall_impl; [exact (proj2 Hwf)|].
  intros image Himage. unfold compose. cbv beta.
  apply length_flatten_image. exact Himage.
Qed.

Lemma Sequential_forward_cons (layer : Layer) (layers : list Layer) (x : Tensor) :
  Sequential_forward (layer :: layers) x =
  (y ← Layer_forward layer x; Sequential_forward layers y).
Proof. reflexivity. Qed.

Lemma Sequential_forward_nil (x : Tensor) : Sequential_forward [] x = Ok x.
Proof. reflexivity. Qed.

(** A Linear layer followed by ReLU keeps a batch a batch. *)
Lemma Linear_ReLU_Ok (n_in n_out N : nat) (l : Linear) (layers : list Layer)
    (x : Tensor) :
  wf_Linear n_in n_out l -> is_batch2 N n_in x ->
  exists y, is_batch2 N n_out y /\
    Sequential_forward (LinearLayer l :: ReLULayer :: layers) x =
    Sequential_forward layers y.
Proof.
  intros Hl Hx.
  destruct (Linear_forward_Ok n_in n_out N l x Hl Hx) as (y & Hy & Hs).
  exists (ReLU_forward y). split; [apply ReLU_forward_batch2; exact Hs|].
  rewrite !Sequential_forward_cons. cbn [Layer_forward].
  rewrite Hy, !bind_Ok. reflexivity.
Qed.

Section ClassifierProofs.
Variable Rng : Type.
Variable new_Linear : nat -> nat -> Rng -> Linear * Rng.
Variable new_Conv2d : nat -> nat -> nat -> nat -> Rng -> Conv2d * Rng.
Hypothesis new_Linear_wf :
  forall n_in n_out g, wf_Linear n_in n_out (new_Linear n_in n_out g).1.
Hypothesis new_Conv2d_wf :
  forall c_in c_out k p g, wf_Conv2d c_in c_out k p (new_Conv2d c_in c_out k p g).1.

Lemma MLP_init_layers (input_size n_classes : nat) (g : Rng) :
  exists l1 l2 l3 l4,
    wf_Linear input_size 128 l1 /\ wf_Linear 128 64 l2 /\
    wf_Linear 64 32 l3 /\ wf_Linear 32 n_classes l4 /\
    mlp (MLP_init Rng new_Linear input_size n_classes g).1 =
    [LinearLayer l1; ReLULayer; LinearLayer l2; ReLULayer;
     LinearLayer l3; ReLULayer; LinearLayer l4].
Proof.
  unfold MLP_init.
  pose proof (new_Linear_wf input_size 128 g) as H1.
  destruct (new_Linear input_size 128 g) as [l1 g1].
  pose proof (new_Linear_wf 128 64 g1) as H2.
  destruct (new_Linear 128 64 g1) as [l2 g2].
  pose proof (new_Linear_wf 64 32 g2) as H3.
  destruct (new_Linear 64 32 g2) as [l3 g3].
  pose proof (new_Linear_wf 32 n_classes g3) as H4.
  destruct (new_Linear 32 n_classes g3) as [l4 g4].
  exists l1, l2, l3, l4. cbn [fst mlp] in *.
  split; [exact H1|]. split; [exact H2|]. split; [exact H3|].
  split; [exact H4 | reflexivity].
Qed.

(** X26: the network built by [MLP.__init__] maps every batch of N vectors
    of [input_size] entries to N rows of [n_classes] logits, whatever the
    weights; an empty batch gives an empty batch of that width. *)
Theorem MLP_forward_shape (input_size n_classes N : nat) (g : Rng) (x : Tensor) :
  is_batch2 N input_size x ->
  exists y,
    MLP_forward (MLP_init Rng new_Linear input_size n_classes g).1 x = Ok y /\
    is_batch2 N n_classes y.
Proof.
  intros Hx.
  destruct (MLP_init_layers input_size n_classes g)
    as (l1 & l2 & l3 & l4 & H1 & H2 & H3 & H4 & Hmlp).
  unfold MLP_forward. rewrite Hmlp.
  destruct (Linear_ReLU_Ok _ _ N l1 [LinearLayer l2; ReLULayer; LinearLayer l3;
              ReLULayer; LinearLayer l4] x H1 Hx) as (y1 & Hy1 & ->).
  destruct (Linear_ReLU_Ok _ _ N l2 [LinearLayer l3; ReLULayer; LinearLayer l4]
              y1 H2 Hy1) as (y2 & Hy2 & ->).
  destruct (Linear_ReLU_Ok _ _ N l3 [LinearLayer l4] y2 H3 Hy2) as (y3 & Hy3 & ->).
  destruct (Linear_forward_Ok _ _ N l4 y3 H4 Hy3) as (y & Hy & Hs).
  exists y. split; [|exact Hs].
  rewrite Sequential_forward_cons. cbn [Layer_forward].
  rewrite Hy, bind_Ok. reflexivity.
Qed.

(** X27: a batch whose width is not the [input_size] given to
    [MLP.__init__] makes [MLP.forward] raise a RuntimeError at the first
    Linear layer, also when the batch has no rows. *)
Theorem MLP_forward_wrong_width (input_size n_classes N D : nat) (g : Rng)
    (x : Tensor) :
  is_batch2 N D x -> D <> input_size ->
  MLP_forward (MLP_init Rng new_Linear input_size n_classes g).1 x =
  Raise RuntimeError.
Proof.
  intros Hx HD.
  destruct (MLP_init_layers input_size n_classes g)
    as (l1 & l2 & l3 & l4 & H1 & _ & _ & _ & Hmlp).
  unfold MLP_forward. rewrite Hmlp, Sequential_forward_cons. cbn [Layer_forward].
  rewrite (Linear_forward_width input_size 128 N D l1 x H1 Hx HD). reflexivity.
Qed.
End ClassifierProofs.

Lemma conv_out_3_1 (n : nat) : (1 <= n)%nat -> conv_out n 3 1 = n.
Proof. unfold conv_out. lia. Qed.

Lemma conv_out_3_2 (n : nat) : conv_out n 3 2 = (n + 2)%nat.
Proof. unfold conv_out. lia. Qed.

Lemma pool_out_2_2 (n : nat) : (2 <= n)%nat -> pool_out n 2 2 = (n / 2)%nat.
Proof.
  intros Hn. unfold pool_out.
  replace n with ((n - 2) + 1 * 2)%nat at 2 by lia.
  rewrite Nat.div_add by lia. reflexivity.
Qed.

Lemma half_ge_2 (n : nat) : (2 <= n / 2)%nat <-> (4 <= n)%nat.
Proof.
  pose proof (Nat.div_mod_eq n 2) as E.
  pose proof (Nat.mod_upper_bound n 2 ltac:(lia)) as B. lia.
Qed.

Lemma Conv2d_forward_channels (c_in c_out k p N C H W : nat) (l : Conv2d)
    (x : Tensor) :
  wf_Conv2d c_in c_out k p l -> is_batch4 N C H W x -> C <> c_in ->
  Conv2d_forward l x = Raise RuntimeError.
Proof.
  intros (Hin & _) (t & -> & Hshape & _) HC.
  unfold Conv2d_forward. rewrite Hshape, Hin. cbv zeta.
  destruct (Nat.eqb_spec C c_in) as [?|_]; [contradiction | reflexivity].
Qed.

(** One convolution block: Conv2d with a 3×3 kernel, ReLU, and
    MaxPool2d(2, 2). *)
Lemma Conv_block_Ok (c_in c_out p N H W : nat) (l : Conv2d) (layers : list Layer)
    (x : Tensor) :
  wf_Conv2d c_in c_out 3 p l -> is_batch4 N c_in H W x ->
  (3 <= H + 2 * p)%nat -> (3 <= W + 2 * p)%nat ->
  (2 <= conv_out H 3 p)%nat -> (2 <= conv_out W 3 p)%nat ->
  exists y,
    is_batch4 N c_out (conv_out H 3 p / 2) (conv_out W 3 p / 2) y /\
    Sequential_forward
      (Conv2dLayer l :: ReLULayer :: MaxPool2dLayer 2 2 :: layers) x =
    Sequential_forward layers y.
Proof.
  intros Hl Hx HH HW HH' HW'.
  destruct (Conv2d_forward_Ok c_in c_out 3 p N H W l x Hl Hx HH HW) as (y1 & Hy1 & Hs1).
  apply ReLU_forward_batch4 in Hs1.
  destruct (MaxPool2d_forward_Ok 2 2 N c_out _ _ (ReLU_forward y1) Hs1
              ltac:(lia) ltac:(lia) HH' HW') as (y & Hy & Hs).
  rewrite !pool_out_2_2 in Hs by assumption.
  exists y. split; [exact Hs|].
  rewrite Sequential_forward_cons. cbn [Layer_forward]. rewrite Hy1, bind_Ok.
  rewrite Sequential_forward_cons. cbn [Layer_forward]. rewrite bind_Ok.
  rewrite Sequential_forward_cons. cbn [Layer_forward]. rewrite Hy, bind_Ok.
  reflexivity.
Qed.

Lemma Conv_block_small (c_in c_out p N H W : nat) (l : Conv2d) (layers : list Layer)
    (x : Tensor) :
  wf_Conv2d c_in c_out 3 p l -> is_batch4 N c_in H W x ->
  (conv_out H 3 p < 2)%nat \/ (conv_out W 3 p < 2)%nat ->
  Sequential_forward
    (Conv2dLayer l :: ReLULayer :: MaxPool2dLayer 2 2 :: layers) x =
  Raise RuntimeError.
Proof.
  intros Hl Hx Hsmall.
  rewrite Sequential_forward_cons. cbn [Layer_forward].
  destruct (le_lt_dec 3 (H + 2 * p)) as [HH|HH];
    [destruct (le_lt_dec 3 (W + 2 * p)) as [HW|HW]|].
  - destruct (Conv2d_forward_Ok c_in c_out 3 p N H W l x Hl Hx HH HW)
      as (y1 & Hy1 & Hs1).
    apply ReLU_forward_batch4 in Hs1.
    rewrite Hy1, bind_Ok.
    rewrite Sequential_forward_cons. cbn [Layer_forward]. rewrite bind_Ok.
    rewrite Sequential_forward_cons. cbn [Layer_forward].
    rewrite (MaxPool2d_forward_small 2 2 N c_out _ _ _ Hs1 Hsmall). reflexivity.
  - rewrite (Conv2d_forward_small c_in c_out 3 p N c_in H W l x Hl Hx
               (or_intror HW)). reflexivity.
  - rewrite (Conv2d_forward_small c_in c_out 3 p N c_in H W l x Hl Hx
               (or_introl HH)). reflexivity.
Qed.

Section CNNProofs.
Variable Rng : Type.
Variable new_Linear : nat -> nat -> Rng -> Linear * Rng.
Variable new_Conv2d : nat -> nat -> nat -> nat -> Rng -> Conv2d * Rng.
Hypothesis new_Linear_wf :
  forall n_in n_out g, wf_Linear n_in n_out (new_Linear n_in n_out g).1.
Hypothesis new_Conv2d_wf :
  forall c_in c_out k p g, wf_Conv2d c_in c_out k p (new_Conv2d c_in c_out k p g).1.

Lemma CNN_init_layers (input_channels n_classes : nat) (g : Rng) :
  exists c1 c2 c3 l1 l2 l3,
    wf_Conv2d input_channels 8 3 1 c1 /\ wf_Conv2d 8 16 3 1 c2 /\
    wf_Conv2d 16 32 3 2 c3 /\
    wf_Linear (32 * 4 * 4) 256 l1 /\ wf_Linear 256 128 l2 /\
    wf_Linear 128 n_classes l3 /\
    cnn (CNN_init Rng new_Linear new_Conv2d input_channels n_classes g).1 =
    [Conv2dLayer c1; ReLULayer; MaxPool2dLayer 2 2;
     Conv2dLayer c2; ReLULayer; MaxPool2dLayer 2 2;
     Conv2dLayer c3; ReLULayer; MaxPool2dLayer 2 2;
     FlattenLayer;
     LinearLayer l1; ReLULayer;
     LinearLayer l2; ReLULayer;
     LinearLayer l3].
Proof.
  unfold CNN_init.
  pose proof (new_Conv2d_wf input_channels 8 3 1 g) as H1.
  destruct (new_Conv2d input_channels 8 3 1 g) as [c1 g1].
  pose proof (new_Conv2d_wf 8 16 3 1 g1) as H2.
  destruct (new_Conv2d 8 16 3 1 g1) as [c2 g2].
  pose proof (new_Conv2d_wf 16 32 3 2 g2) as H3.
  destruct (new_Conv2d 16 32 3 2 g2) as [c3 g3].
  pose proof (new_Linear_wf (32 * 4 * 4) 256 g3) as H4.
  destruct (new_Linear (32 * 4 * 4) 256 g3) as [l1 g4].
  pose proof (new_Linear_wf 256 128 g4) as H5.
  destruct (new_Linear 256 128 g4) as [l2 g5].
  pose proof (new_Linear_wf 128 n_classes g5) as H6.
  destruct (new_Linear 128 n_classes g5) as [l3 g6].
  exists c1, c2, c3, l1, l2, l3. cbn [fst cnn] in *.
  split; [exact H1|]. split; [exact H2|]. split; [exact H3|].
  split; [exact H4|]. split; [exact H5|]. split; [exact H6 | reflexivity].
Qed.
Lemma CNN_forward_cases (input_channels n_classes N H W : nat) (g : Rng)
    (x : Tensor) :
  is_batch4 N input_channels H W x ->
  ((4 <= H)%nat -> (4 <= W)%nat ->
   (((H / 2 / 2 + 2) / 2 * ((W / 2 / 2 + 2) / 2))%nat = 16%nat ->
    exists y,
      CNN_forward (CNN_init Rng new_Linear new_Conv2d input_channels n_classes g).1 x
        = Ok y /\ is_batch2 N n_classes y) /\
   (((H / 2 / 2 + 2) / 2 * ((W / 2 / 2 + 2) / 2))%nat <> 16%nat ->
    CNN_forward (CNN_init Rng new_Linear new_Conv2d input_channels n_classes g).1 x
      = Raise RuntimeError)) /\
  ((H < 4)%nat \/ (W < 4)%nat ->
   CNN_forward (CNN_init Rng new_Linear new_Conv2d input_channels n_classes g).1 x
     = Raise RuntimeError).
Proof.
  intros Hx.
  destruct (CNN_init_layers input_channels n_classes g)
    as (c1 & c2 & c3 & l1 & l2 & l3 & H1 & H2 & H3 & H4 & H5 & H6 & Hcnn).
  unfold CNN_forward. rewrite Hcnn. clear Hcnn. split.
  - intros HH HW.
    pose proof (proj2 (half_ge_2 H) HH) as HH2.
    pose proof (proj2 (half_ge_2 W) HW) as HW2.
    destruct (Conv_block_Ok input_channels 8 1 N H W c1
                [Conv2dLayer c2; ReLULayer; MaxPool2dLayer 2 2;
                 Conv2dLayer c3; ReLULayer; MaxPool2dLayer 2 2;
                 FlattenLayer; LinearLayer l1; ReLULayer;
                 LinearLayer l2; ReLULayer; LinearLayer l3] x H1 Hx)
      as (y1 & Hy1 & ->);
      [lia | lia | rewrite conv_out_3_1; lia | rewrite conv_out_3_1; lia |].
    rewrite !conv_out_3_1 in Hy1 by lia.
    destruct (Conv_block_Ok 8 16 1 N (H / 2) (W / 2) c2
                [Conv2dLayer c3; ReLULayer; MaxPool2dLayer 2 2;
                 FlattenLayer; LinearLayer l1; ReLULayer;
                 LinearLayer l2; ReLULayer; LinearLayer l3] y1 H2 Hy1)
      as (y2 & Hy2 & ->);
      [lia | lia | rewrite conv_out_3_1; lia | rewrite conv_out_3_1; lia |].
    rewrite !conv_out_3_1 in Hy2 by lia.
    destruct (Conv_block_Ok 16 32 2 N (H / 2 / 2) (W / 2 / 2) c3
                [FlattenLayer; LinearLayer l1; ReLULayer;
                 LinearLayer l2; ReLULayer; LinearLayer l3] y2 H3 Hy2)
      as (y3 & Hy3 & ->);
      [lia | lia | rewrite conv_out_3_2; lia | rewrite conv_out_3_2; lia |].
    rewrite !conv_out_3_2 in Hy3.
    destruct (Flatten_forward_Ok N 32 _ _ y3 Hy3) as (y4 & Hy4 & Hs4).
    rewrite Sequential_forward_cons. cbn [Layer_forward]. rewrite Hy4, bind_Ok.
    clear Hy1 Hy2 Hy3 Hy4 Hx.
    set (h3 := ((H / 2 / 2 + 2) / 2)%nat) in *.
    set (w3 := ((W / 2 / 2 + 2) / 2)%nat) in *.
    split.
    + intros Hprod.
      replace (32 * h3 * w3)%nat with (32 * 4 * 4)%nat in Hs4 by nia.
      destruct (Linear_ReLU_Ok _ _ N l1 [LinearLayer l2; ReLULayer; LinearLayer l3]
                  y4 H4 Hs4) as (y5 & Hy5 & ->).
      destruct (Linear_ReLU_Ok _ _ N l2 [LinearLayer l3] y5 H5 Hy5) as (y6 & Hy6 & ->).
      destruct (Linear_forward_Ok _ _ N l3 y6 H6 Hy6) as (y & Hy & Hs).
      exists y. split; [|exact Hs].
      rewrite Sequential_forward_cons. cbn [Layer_forward].
      rewrite Hy, bind_Ok. reflexivity.
    + intros Hprod.
      rewrite Sequential_forward_cons. cbn [Layer_forward].
      rewrite (Linear_forward_width (32 * 4 * 4) 256 N (32 * h3 * w3) l1 y4 H4 Hs4);
        [reflexivity | nia].
  - intros Hsmall.
    destruct (le_lt_dec 2 H) as [HH|HH]; [destruct (le_lt_dec 2 W) as [HW|HW]|].
    + destruct (Conv_block_Ok input_channels 8 1 N H W c1
                  [Conv2dLayer c2; ReLULayer; MaxPool2dLayer 2 2;
                   Conv2dLayer c3; ReLULayer; MaxPool2dLayer 2 2;
                   FlattenLayer; LinearLayer l1; ReLULayer;
                   LinearLayer l2; ReLULayer; LinearLayer l3] x H1 Hx)
        as (y1 & Hy1 & ->);
        [lia | lia | rewrite conv_out_3_1; lia | rewrite conv_out_3_1; lia |].
      rewrite !conv_out_3_1 in Hy1 by lia.
      apply (Conv_block_small 8 16 1 N (H / 2) (W / 2) c2 _ y1 H2 Hy1).
      pose proof (half_ge_2 H) as EH. pose proof (half_ge_2 W) as EW.
      unfold conv_out. lia.
    + apply (Conv_block_small input_channels 8 1 N H W c1 _ x H1 Hx).
      unfold conv_out. lia.
    + apply (Conv_block_small input_channels 8 1 N H W c1 _ x H1 Hx).
      unfold conv_out. lia.
Qed.
(** X28: the network built by [CNN.__init__] maps a batch of N images of
    [input_channels] channels and H×W pixels, H and W at least 4, to N rows
    of [n_classes] logits whenever the three pooling steps leave
    ((H//4 + 2)//2)·((W//4 + 2)//2) = 16 pixels per channel, the 4·4 that
    the first Linear layer is built for: 28×28 images are such. *)
Theorem CNN_forward_shape (input_channels n_classes N H W : nat) (g : Rng)
    (x : Tensor) :
  is_batch4 N input_channels H W x -> (4 <= H)%nat -> (4 <= W)%nat ->
  ((H / 2 / 2 + 2) / 2 * ((W / 2 / 2 + 2) / 2))%nat = 16%nat ->
  exists y,
    CNN_forward (CNN_init Rng new_Linear new_Conv2d input_channels n_classes g).1 x
      = Ok y /\ is_batch2 N n_classes y.
Proof.
  intros Hx HH HW Hprod.
  exact (proj1 (proj1 (CNN_forward_cases input_channels n_classes N H W g x Hx) HH HW)
           Hprod).
Qed.

(** X29: [CNN.forward] raises a RuntimeError on every other batch of
    images: when the channels are not [input_channels], when a side is
    shorter than 4 pixels (a pooling step would have no output), and when
    the pooled image has not 16 pixels per channel, as for 32×32 images. *)
Theorem CNN_forward_rejects (input_channels n_classes N C H W : nat) (g : Rng)
    (x : Tensor) :
  is_batch4 N C H W x ->
  C <> input_channels \/ (H < 4)%nat \/ (W < 4)%nat \/
  ((H / 2 / 2 + 2) / 2 * ((W / 2 / 2 + 2) / 2))%nat <> 16%nat ->
  CNN_forward (CNN_init Rng new_Linear new_Conv2d input_channels n_classes g).1 x
    = Raise RuntimeError.
Proof.
  intros Hx Hbad.
  destruct (Nat.eq_dec C input_channels) as [->|HC].
  - destruct (CNN_forward_cases input_channels n_classes N H W g x Hx)
      as [Hlarge Hsmall].
    destruct (le_lt_dec 4 H) as [HH|HH]; [destruct (le_lt_dec 4 W) as [HW|HW]|].
    + apply (proj2 (Hlarge HH HW)).
      destruct Hbad as [Hbad|[Hbad|[Hbad|Hbad]]]; [congruence | lia | lia | exact Hbad].
    + apply Hsmall. right. exact HW.
    + apply Hsmall. left. exact HH.
  - destruct (CNN_init_layers input_channels n_classes g)
      as (c1 & c2 & c3 & l1 & l2 & l3 & H1 & _ & _ & _ & _ & _ & Hcnn).
    unfold CNN_forward. rewrite Hcnn, Sequential_forward_cons. cbn [Layer_forward].
    rewrite (Conv2d_forward_channels input_channels 8 3 1 N C H W c1 x H1 Hx HC).
    reflexivity.
Qed.

(** X30: on square images of the right number of channels [CNN.forward]
    returns a result exactly when the side is between 24 and 31 pixels. *)
Theorem CNN_forward_square_images (input_channels n_classes N H : nat) (g : Rng)
    (x : Tensor) :
  is_batch4 N input_channels H H x ->
  (exists y,
     CNN_forward (CNN_init Rng new_Linear new_Conv2d input_channels n_classes g).1 x
       = Ok y) <->
  (24 <= H <= 31)%nat.
Proof.
  intros Hx.
  destruct (CNN_forward_cases input_channels n_classes N H H g x Hx)
    as [Hlarge Hsmall].
  pose proof (Nat.div_mod_eq H 2) as E1.
  pose proof (Nat.mod_upper_bound H 2 ltac:(lia)) as B1.
  pose proof (Nat.div_mod_eq (H / 2) 2) as E2.
  pose proof (Nat.mod_upper_bound (H / 2) 2 ltac:(lia)) as B2.
  pose proof (Nat.div_mod_eq (H / 2 / 2 + 2) 2) as E3.
  pose proof (Nat.mod_upper_bound (H / 2 / 2 + 2) 2 ltac:(lia)) as B3.
  set (h3 := ((H / 2 / 2 + 2) / 2)%nat) in *.
  split.
  - intros [y Hy].
    destruct (le_lt_dec 4 H) as [HH|HH].
    + destruct (Nat.eq_dec (h3 * h3) 16) as [Hprod|Hprod].
      * assert (h3 = 4)%nat by nia. lia.
      * rewrite (proj2 (Hlarge HH HH) Hprod) in Hy. discriminate.
    + rewrite (Hsmall (or_introl HH)) in Hy. discriminate.
  - intros Hside.
    assert (HH : (4 <= H)%nat) by lia.
    assert (Hprod : (h3 * h3)%nat = 16%nat).
    { assert (h3 = 4)%nat by lia. subst h3. nia. }
    destruct (proj1 (Hlarge HH HH) Hprod) as (y & Hy & _).
    exists y. exact Hy.
Qed.
End CNNProofs.

Lemma zero_new_Conv2d_wf (c_in c_out k p : nat) (g : unit) :
  wf_Conv2d c_in c_out k p (zero_new_Conv2d c_in c_out k p g).1.
Proof.
  unfold wf_Conv2d, zero_new_Conv2d, zero_Conv2d. cbn.
  repeat split; try apply length_replicate.
  apply Forall_replicate. split; [apply length_replicate|].
  apply Forall_replicate. split; [apply length_replicate|].
  apply Forall_replicate, length_replicate.
Qed.

Lemma black_images_batch4 (n c h w : nat) :
  is_batch4 n c h w (Batch4 (black_images n c h w)).
Proof.
  eexists. split; [reflexivity|]. split; [reflexivity|].
  unfold wf_tensor4, black_images. cbn [shape elems].
  split; [apply length_replicate|].
  apply Forall_replicate. split; [apply length_replicate|].
  apply Forall_replicate. split; [apply length_replicate|].
  apply Forall_replicate, length_replicate.
Qed.

Lemma batch2_ex (row : list R) :
  is_batch2 1 (length row) (Batch2 (mkArray2 (1, length row)%nat [row])).
Proof.
  eexists. split; [reflexivity|]. split; [reflexivity|].
  split; [reflexivity|]. repeat constructor.
Qed.

Lemma MLP_forward_shape_witness :
  exists y,
    MLP_forward (MLP_init unit zero_new_Linear 4 3 tt).1
      (Batch2 (mkArray2 (1, 4)%nat [[1; 2; 3; 4]%R])) = Ok y /\
    is_batch2 1 3 y.
Proof.
  apply (MLP_forward_shape unit zero_new_Linear zero_new_Linear_wf 4 3 1 tt).
  exact (batch2_ex [1; 2; 3; 4]%R).
Defined.

Lemma MLP_forward_wrong_width_witness :
  MLP_forward (MLP_init unit zero_new_Linear 4 3 tt).1
    (Batch2 (mkArray2 (1, 3)%nat [[1; 2; 3]%R])) = Raise RuntimeError.
Proof.
  apply (MLP_forward_wrong_width unit zero_new_Linear zero_new_Linear_wf 4 3 1 3 tt).
  - exact (batch2_ex [1; 2; 3]%R).
  - lia.
Defined.

Lemma CNN_forward_shape_witness :
  exists y,
    CNN_forward (CNN_init unit zero_new_Linear zero_new_Conv2d 1 10 tt).1
      (Batch4 (black_images 2 1 28 28)) = Ok y /\
    is_batch2 2 10 y.
Proof.
  apply (CNN_forward_shape unit zero_new_Linear zero_new_Conv2d
           zero_new_Linear_wf zero_new_Conv2d_wf 1 10 2 28 28 tt).
  - apply black_images_batch4.
  - lia.
  - lia.
  - reflexivity.
Defined.

Lemma CNN_forward_rejects_witness :
  CNN_forward (CNN_init unit zero_new_Linear zero_new_Conv2d 1 10 tt).1
    (Batch4 (black_images 2 1 32 32)) = Raise RuntimeError.
Proof.
  apply (CNN_forward_rejects unit zero_new_Linear zero_new_Conv2d
           zero_new_Linear_wf zero_new_Conv2d_wf 1 10 2 1 32 32 tt).
  - apply black_images_batch4.
  - right. right. right. vm_compute. lia.
Defined.

Lemma CNN_forward_square_images_witness :
  (exists y,
     CNN_forward (CNN_init unit zero_new_Linear zero_new_Conv2d 1 10 tt).1
       (Batch4 (black_images 2 1 28 28)) = Ok y) <->
  (24 <= 28 <= 31)%nat.
Proof.
  apply (CNN_forward_square_images unit zero_new_Linear zero_new_Conv2d
           zero_new_Linear_wf zero_new_Conv2d_wf 1 10 2 28 tt).
  apply black_images_batch4.
Defined.
